(** * hook-exporter: the metric model, its exposition format and the
      aggregation over stored metric files

    A shallow embedding of [router.go] and of the configuration record of
    [config.go].  Go strings are byte sequences and are modelled by [string]
    (a list of 8-bit [ascii]); a Go [map[string]string] is a
    [gmap string string] together with its nil-ness, a slice is a list
    together with its nil-ness, and a Go [(value, error)] result is a pair
    whose second component is an [option] of the error message.  A range
    over a map visits its entries in an order the language does not fix:
    the functions that range over the tags take the visiting order as an
    argument.

    The standard-library packages the program calls ([unicode/utf8],
    [regexp], [encoding/json]) are modelled in modules of the same name, as
    far as the program reaches them.  The request, the AWS configuration and
    the S3 client are a record of operations the handlers are run against.
    Of [main.go] the patterns of the two routes are modelled; the
    dispatcher of the [mux] package and the loading of the configuration
    are outside the program and are left out. *)

From Stdlib Require Import ZArith Ascii String List Lia Bool.
From stdpp Require Import gmap strings list fin_maps sorting.

Set Default Proof Using "Type".
Set Warnings "-register-all".

(* ===================================================================== *)
(** * Part I: definitions *)
(* ===================================================================== *)

(** ** Go values *)

(** [error]: [nil] is [None], otherwise the text of [err.Error()]. *)
Definition error : Type := option string.

(** A slice [[]A]: [None] is the nil slice, [Some l] a non-nil slice with
    elements [l].  [len], [range] and [append] only see the elements. *)
Definition slice (A : Type) : Type := option (list A).

Definition elems {A} (s : slice A) : list A :=
  match s with
  | None => []
  | Some l => l
  end.

(** [append(s, xs...)]: appending no element returns [s] itself (so a nil
    slice stays nil); otherwise the result is a non-nil slice. *)
Definition append {A} (s xs : slice A) : slice A :=
  match elems xs with
  | [] => s
  | _ :: _ => Some (elems s ++ elems xs)
  end.

(** A map [map[string]string]: [None] is the nil map. *)
Definition gomap : Type := option (gmap string string).

Definition entries (t : gomap) : gmap string string :=
  match t with
  | None => ∅
  | Some g => g
  end.

(** [for k, v := range t] visits every entry of [t] exactly once, in an
    order the language leaves unspecified: [order] is an admissible visiting
    order of [t]. *)
Definition range_order (t : gomap) (order : list (string * string)) : Prop :=
  order ≡ₚ map_to_list (entries t).

(** The value of a byte. *)
Definition byte_val (c : ascii) : Z := Z.of_N (N_of_ascii c).

Definition byte_of (z : Z) : ascii := ascii_of_N (Z.to_N z).

(** ** unicode/utf8 *)

Module utf8.
Local Open Scope Z_scope.

Definition RuneError : Z := 0xFFFD.
Definition RuneSelf : Z := 0x80.

(** The [first] table of the package: the encoded size announced by a
    leading byte, 0 for a byte that cannot start an encoding. *)
Definition lead_size (s0 : Z) : nat :=
  if s0 <? 0x80 then 1%nat
  else if s0 <? 0xC2 then 0%nat
  else if s0 <? 0xE0 then 2%nat
  else if s0 <? 0xF0 then 3%nat
  else if s0 <? 0xF5 then 4%nat
  else 0%nat.

(** [acceptRanges]: the range allowed for the second byte. *)
Definition accept (s0 : Z) : Z * Z :=
  if s0 =? 0xE0 then (0xA0, 0xBF)
  else if s0 =? 0xED then (0x80, 0x9F)
  else if s0 =? 0xF0 then (0x90, 0xBF)
  else if s0 =? 0xF4 then (0x80, 0x8F)
  else (0x80, 0xBF).

Definition cont (b : Z) : bool := (0x80 <=? b) && (b <=? 0xBF).

(** [utf8.DecodeRuneInString]: the first rune of [s] and its width in bytes;
    [(RuneError, 0)] on the empty string and [(RuneError, 1)] on an invalid
    or truncated encoding. *)
Definition DecodeRuneInString (s : string) : Z * nat :=
  match s with
  | EmptyString => (RuneError, 0%nat)
  | String c0 t0 =>
    let s0 := byte_val c0 in
    match lead_size s0 with
    | 0%nat => (RuneError, 1%nat)
    | 1%nat => (s0, 1%nat)
    | sz =>
      let (lo, hi) := accept s0 in
      match t0 with
      | EmptyString => (RuneError, 1%nat)
      | String c1 t1 =>
        let s1 := byte_val c1 in
        if (s1 <? lo) || (hi <? s1) then (RuneError, 1%nat)
        else if (sz <=? 2)%nat then
          (Z.lor (Z.shiftl (Z.land s0 0x1F) 6) (Z.land s1 0x3F), 2%nat)
        else
          match t1 with
          | EmptyString => (RuneError, 1%nat)
          | String c2 t2 =>
            let s2 := byte_val c2 in
            if negb (cont s2) then (RuneError, 1%nat)
            else if (sz <=? 3)%nat then
              (Z.lor (Z.lor (Z.shiftl (Z.land s0 0x0F) 12)
                            (Z.shiftl (Z.land s1 0x3F) 6))
                     (Z.land s2 0x3F), 3%nat)
            else
              match t2 with
              | EmptyString => (RuneError, 1%nat)
              | String c3 _ =>
                let s3 := byte_val c3 in
                if negb (cont s3) then (RuneError, 1%nat)
                else
                  (Z.lor (Z.lor (Z.lor (Z.shiftl (Z.land s0 0x07) 18)
                                       (Z.shiftl (Z.land s1 0x3F) 12))
                                (Z.shiftl (Z.land s2 0x3F) 6))
                         (Z.land s3 0x3F), 4%nat)
              end
          end
      end
    end
  end.

(** The runes of a string as a [for _, r := range s] loop, or the input
    stepping of the regexp engine, sees them: decode at the current
    position, advance by the decoded width.  [skip] counts the bytes of the
    current rune that are still to be stepped over. *)
Fixpoint runes_from (skip : nat) (s : string) : list Z :=
  match s with
  | EmptyString => []
  | String _ t =>
    match skip with
    | S k => runes_from k t
    | O => let (r, size) := DecodeRuneInString s in r :: runes_from (pred size) t
    end
  end.

Definition runes (s : string) : list Z := runes_from 0 s.

(** [utf8.ValidString]: no position of the string decodes to an encoding
    error. *)
Fixpoint valid_from (skip : nat) (s : string) : bool :=
  match s with
  | EmptyString => true
  | String _ t =>
    match skip with
    | S k => valid_from k t
    | O =>
      let (r, size) := DecodeRuneInString s in
      if (r =? RuneError) && (size =? 1)%nat then false
      else valid_from (pred size) t
    end
  end.

Definition ValidString (s : string) : bool := valid_from 0 s.

Definition MaxRune : Z := 0x10FFFF.

(** [utf8.EncodeRune], as the bytes it writes.  Surrogate halves and values
    out of range are written as [RuneError]. *)
Definition EncodeRune (r : Z) : string :=
  if (0 <=? r) && (r <? 0x80) then String (byte_of r) EmptyString
  else if (0 <=? r) && (r <? 0x800) then
    String (byte_of (Z.lor 0xC0 (Z.shiftr r 6)))
      (String (byte_of (Z.lor 0x80 (Z.land r 0x3F))) EmptyString)
  else if (r <? 0) || (MaxRune <? r) || ((0xD800 <=? r) && (r <=? 0xDFFF)) then
    String (byte_of 0xEF) (String (byte_of 0xBF) (String (byte_of 0xBD) EmptyString))
  else if r <? 0x10000 then
    String (byte_of (Z.lor 0xE0 (Z.shiftr r 12)))
      (String (byte_of (Z.lor 0x80 (Z.land (Z.shiftr r 6) 0x3F)))
        (String (byte_of (Z.lor 0x80 (Z.land r 0x3F))) EmptyString))
  else
    String (byte_of (Z.lor 0xF0 (Z.shiftr r 18)))
      (String (byte_of (Z.lor 0x80 (Z.land (Z.shiftr r 12) 0x3F)))
        (String (byte_of (Z.lor 0x80 (Z.land (Z.shiftr r 6) 0x3F)))
          (String (byte_of (Z.lor 0x80 (Z.land r 0x3F))) EmptyString))).

End utf8.

(** ** regexp *)

Module regexp.
Local Open Scope Z_scope.

(** The syntax tree of a pattern, with the operators of [regexp/syntax]
    that the two patterns of the program use. *)
Inductive syntax : Type :=
  | NoMatch
  | EmptyMatch
  | Literal (r : Z)
  | CharClass (ranges : list (Z * Z))
  | AnyCharNotNL
  | Concat (a b : syntax)
  | Alternate (a b : syntax)
  | Star (a : syntax)
  | Plus (a : syntax)
  | Quest (a : syntax).

(** A compiled pattern: whether it opens with [^] and closes with [$]
    (without the [m] flag these anchor at the two ends of the text), and the
    expression in between. *)
Record Regexp : Type := mkRegexp {
  begin_text : bool;
  body : syntax;
  end_text : bool
}.

Definition in_ranges (ranges : list (Z * Z)) (r : Z) : bool :=
  existsb (fun lh => (fst lh <=? r) && (r <=? snd lh)) ranges.

(** Whether the expression matches the empty text. *)
Fixpoint nullable (e : syntax) : bool :=
  match e with
  | NoMatch => false
  | EmptyMatch => true
  | Literal _ => false
  | CharClass _ => false
  | AnyCharNotNL => false
  | Concat a b => nullable a && nullable b
  | Alternate a b => nullable a || nullable b
  | Star _ => true
  | Plus a => nullable a
  | Quest _ => true
  end.

(** What is left of the expression once rune [r] has been read. *)
Fixpoint step (r : Z) (e : syntax) : syntax :=
  match e with
  | NoMatch => NoMatch
  | EmptyMatch => NoMatch
  | Literal c => if c =? r then EmptyMatch else NoMatch
  | CharClass ranges => if in_ranges ranges r then EmptyMatch else NoMatch
  | AnyCharNotNL => if r =? 10 then NoMatch else EmptyMatch
  | Concat a b =>
    if nullable a then Alternate (Concat (step r a) b) (step r b)
    else Concat (step r a) b
  | Alternate a b => Alternate (step r a) (step r b)
  | Star a => Concat (step r a) (Star a)
  | Plus a => Concat (step r a) (Star a)
  | Quest a => step r a
  end.

Fixpoint run (e : syntax) (text : list Z) : bool :=
  match text with
  | [] => nullable e
  | r :: text' => run (step r e) text'
  end.

(** Any rune at all, for the unanchored ends of a search. *)
Definition any_rune : syntax := CharClass [(0, 0x10FFFF)].

(** The expression the whole text has to match for the pattern to be found
    somewhere in it. *)
Definition whole (re : Regexp) : syntax :=
  Concat (if begin_text re then EmptyMatch else Star any_rune)
         (Concat (body re)
                 (if end_text re then EmptyMatch else Star any_rune)).

(** [MatchString] on a compiled [Regexp]: whether the text contains a
    match. *)
Definition MatchString (re : Regexp) (s : string) : bool :=
  run (whole re) (utf8.runes s).

(** The language of an expression, declaratively. *)
Inductive matches : syntax -> list Z -> Prop :=
  | m_empty : matches EmptyMatch []
  | m_literal c : matches (Literal c) [c]
  | m_class ranges r : in_ranges ranges r = true -> matches (CharClass ranges) [r]
  | m_any r : r <> 10 -> matches AnyCharNotNL [r]
  | m_concat a b u v : matches a u -> matches b v -> matches (Concat a b) (u ++ v)
  | m_alt_l a b u : matches a u -> matches (Alternate a b) u
  | m_alt_r a b u : matches b u -> matches (Alternate a b) u
  | m_star_nil a : matches (Star a) []
  | m_star_more a u v : matches a u -> matches (Star a) v -> matches (Star a) (u ++ v)
  | m_plus a u v : matches a u -> matches (Star a) v -> matches (Plus a) (u ++ v)
  | m_quest_nil a : matches (Quest a) []
  | m_quest_one a u : matches a u -> matches (Quest a) u.

End regexp.

(** ** router.go: the metric model *)

Record metric : Type := mkMetric {
  Name : string;
  Type_ : string;
  Tags : gomap;
  Value : string
}.

Record metricFile : Type := mkMetricFile {
  FileName : string;
  Metrics : slice metric
}.

(** [\w]: the ASCII word characters. *)
Definition word_ranges : list (Z * Z) :=
  [(48, 57); (65, 90); (95, 95); (97, 122)]%Z.

(** [^[\w\-/]+$] *)
Definition textRegex : regexp.Regexp :=
  regexp.mkRegexp true
    (regexp.Plus (regexp.CharClass (word_ranges ++ [(45, 45); (47, 47)]%Z)))
    true.

(** [^\d+(.\+)?$] *)
Definition valueRegex : regexp.Regexp :=
  regexp.mkRegexp true
    (regexp.Concat
       (regexp.Plus (regexp.CharClass [(48, 57)]%Z))
       (regexp.Quest (regexp.Concat regexp.AnyCharNotNL (regexp.Literal 43))))
    true.

Definition newline : string := String (ascii_of_nat 10) EmptyString.
Definition quote : string := String (ascii_of_nat 34) EmptyString.

(** [strings.Join] *)
Fixpoint Join (elts : list string) (sep : string) : string :=
  match elts with
  | [] => EmptyString
  | [x] => x
  | x :: rest => x +:+ sep +:+ Join rest sep
  end.

(** [TagString], along the visiting order [order] of the range over
    [m.Tags]. *)
Definition metric_TagString (order : list (string * string)) (m : metric) : string :=
  if Nat.eqb (size (entries (Tags m))) 0 then EmptyString
  else
    let tagStrings :=
      map (fun kv => fst kv +:+ "=" +:+ quote +:+ snd kv +:+ quote) order in
    "{" +:+ Join tagStrings "," +:+ "}".

(** [(m *metric) String] *)
Definition metric_String (order : list (string * string)) (m : metric) : string :=
  "# TYPE " +:+ Name m +:+ " " +:+ Type_ m +:+ newline
  +:+ Name m +:+ metric_TagString order m +:+ " " +:+ Value m +:+ newline
  +:+ newline.

(** The loop over the tags in [Validate]: false at the first entry whose
    key or value is not text. *)
Fixpoint validate_tags (order : list (string * string)) : bool :=
  match order with
  | [] => true
  | (k, v) :: rest =>
    if negb (regexp.MatchString textRegex k) then false
    else if negb (regexp.MatchString textRegex v) then false
    else validate_tags rest
  end.

(** [(m *metric) Validate], along the visiting order [order]. *)
Definition metric_Validate_in (order : list (string * string)) (m : metric) : bool :=
  if negb (regexp.MatchString textRegex (Name m)) then false
  else if negb (regexp.MatchString textRegex (Type_ m)) then false
  else if negb (regexp.MatchString valueRegex (Value m)) then false
  else validate_tags order.

(** The result does not depend on the visiting order (see
    [metric_Validate_in_order]), so one order stands for all. *)
Definition metric_Validate (m : metric) : bool :=
  metric_Validate_in (map_to_list (entries (Tags m))) m.

(** [(mf *metricFile) String]: [orders] gives the visiting order of the
    tags of each metric in turn. *)
Fixpoint render_all (orders : list (list (string * string))) (ms : list metric) : string :=
  match ms with
  | [] => EmptyString
  | x :: ms' =>
    metric_String (hd [] orders) x +:+ render_all (tl orders) ms'
  end.

Definition metricFile_String (orders : list (list (string * string))) (mf : metricFile) : string :=
  render_all orders (elems (Metrics mf)).

(** Admissible visiting orders for the metrics of a file. *)
Definition range_orders (ms : list metric) (orders : list (list (string * string))) : Prop :=
  Forall2 (fun o m => range_order (Tags m) o) orders ms.

(** The loop over the metrics in [Validate]. *)
Fixpoint validate_metrics (ms : list metric) : bool :=
  match ms with
  | [] => true
  | x :: ms' => if negb (metric_Validate x) then false else validate_metrics ms'
  end.

(** [(mf *metricFile) Validate] *)
Definition metricFile_Validate (mf : metricFile) : bool :=
  if String.eqb (FileName mf) EmptyString then false
  else validate_metrics (elems (Metrics mf)).


(** ** encoding/json, for the two struct types of the program

    [Marshal] writes the text the package writes for a [metricFile];
    [Unmarshal] parses any JSON text and stores it into a [metricFile] the
    way the package's decoder does: members are matched to the [json:] tags
    of the fields exactly or else case-insensitively, unknown members are
    skipped, [null] leaves a string or struct as it is and resets a slice or
    map to nil, and a member of the wrong kind leaves its field alone and is
    reported once the whole text has been read.  The wording of the
    package's error messages is shortened.  An array is decoded into the
    backing array of the slice, element by element: where a member name is
    repeated in one object, the elements that an earlier and longer array
    left behind the length of the slice are decoded into again, and only
    the elements the backing array never held start from the zero value. *)

Module json.
Local Open Scope Z_scope.

Definition backslash : string := String (ascii_of_nat 92) EmptyString.

Definition hex : string := "0123456789abcdef".

Definition hex_digit (n : Z) : string :=
  match String.get (Z.to_nat n) hex with
  | Some c => String c EmptyString
  | None => EmptyString
  end.

(** *** Encoding *)

(** [htmlSafeSet], on a byte below [utf8.RuneSelf]: everything printable
    but the quote, the backslash and the three characters of HTML. *)
Definition htmlSafe (b : Z) : bool :=
  (0x20 <=? b) && negb (b =? 34) && negb (b =? 92)
  && negb (b =? 60) && negb (b =? 62) && negb (b =? 38).

(** What [appendString] writes for a byte below [utf8.RuneSelf].  The
    short escapes of the backspace and of the form feed are those of Go
    1.22 and later; earlier versions write the two as [\u0008] and
    [\u000c], which read back the same. *)
Definition escape_ascii (c : ascii) : string :=
  let b := byte_val c in
  if htmlSafe b then String c EmptyString
  else if (b =? 92) || (b =? 34) then backslash +:+ String c EmptyString
  else if b =? 8 then backslash +:+ "b"
  else if b =? 12 then backslash +:+ "f"
  else if b =? 10 then backslash +:+ "n"
  else if b =? 13 then backslash +:+ "r"
  else if b =? 9 then backslash +:+ "t"
  else backslash +:+ "u00" +:+ hex_digit (Z.shiftr b 4) +:+ hex_digit (Z.land b 0xF).

(** The body of [appendString]: [skip] bytes of the rune at hand are still
    to be passed, copied when [keep] is set and dropped otherwise. *)
Fixpoint escape_from (keep : bool) (skip : nat) (s : string) : string :=
  match s with
  | EmptyString => EmptyString
  | String c t =>
    match skip with
    | S k => if keep then String c (escape_from keep k t) else escape_from keep k t
    | O =>
      if byte_val c <? utf8.RuneSelf then escape_ascii c +:+ escape_from true 0 t
      else
        let (r, size) := utf8.DecodeRuneInString s in
        if (r =? utf8.RuneError) && (size =? 1)%nat then
          backslash +:+ "ufffd" +:+ escape_from true 0 t
        else if (r =? 0x2028) || (r =? 0x2029) then
          backslash +:+ "u202" +:+ hex_digit (Z.land r 0xF)
          +:+ escape_from false (pred size) t
        else String c (escape_from true (pred size) t)
    end
  end.

Definition appendString (s : string) : string :=
  quote +:+ escape_from true 0 s +:+ quote.

(** The keys of a map are written in sorted order. *)
Definition sorted_entries (g : gmap string string) : list (string * string) :=
  merge_sort (fun a b => String.le (fst a) (fst b)) (map_to_list g).

Definition encode_tags (t : gomap) : string :=
  match t with
  | None => "null"
  | Some g =>
    "{" +:+ Join (map (fun kv => appendString (fst kv) +:+ ":" +:+ appendString (snd kv))
                      (sorted_entries g)) ","
    +:+ "}"
  end.

Definition encode_metric (m : metric) : string :=
  "{" +:+ appendString "name" +:+ ":" +:+ appendString (Name m)
  +:+ "," +:+ appendString "type" +:+ ":" +:+ appendString (Type_ m)
  +:+ "," +:+ appendString "tags" +:+ ":" +:+ encode_tags (Tags m)
  +:+ "," +:+ appendString "value" +:+ ":" +:+ appendString (Value m)
  +:+ "}".

Definition encode_metrics (ms : slice metric) : string :=
  match ms with
  | None => "null"
  | Some l => "[" +:+ Join (map encode_metric l) "," +:+ "]"
  end.

(** [json.Marshal] of a [metricFile]; it has no way to fail on this
    type. *)
Definition Marshal (mf : metricFile) : string * error :=
  ("{" +:+ appendString "name" +:+ ":" +:+ appendString (FileName mf)
   +:+ "," +:+ appendString "metrics" +:+ ":" +:+ encode_metrics (Metrics mf)
   +:+ "}", None).

(** *** Parsing *)

Inductive value : Type :=
  | VNull
  | VBool (b : bool)
  | VNumber
  | VString (s : string)
  | VArray (elts : list value)
  | VObject (members : list (string * value)).

Definition isSpace (c : ascii) : bool :=
  let b := byte_val c in (b =? 32) || (b =? 9) || (b =? 13) || (b =? 10).

Fixpoint skip_space (s : string) : string :=
  match s with
  | EmptyString => EmptyString
  | String c t => if isSpace c then skip_space t else s
  end.

Definition hexval (c : ascii) : option Z :=
  let b := byte_val c in
  if (48 <=? b) && (b <=? 57) then Some (b - 48)
  else if (97 <=? b) && (b <=? 102) then Some (b - 97 + 10)
  else if (65 <=? b) && (b <=? 70) then Some (b - 65 + 10)
  else None.

(** [getu4]: the value of a [\uXXXX] escape at the head of [s]. *)
Definition getu4 (s : string) : option Z :=
  match s with
  | String b (String u (String c1 (String c2 (String c3 (String c4 _))))) =>
    if (byte_val b =? 92) && (byte_val u =? 117) then
      match hexval c1, hexval c2, hexval c3, hexval c4 with
      | Some h1, Some h2, Some h3, Some h4 =>
        Some (h1 * 4096 + h2 * 256 + h3 * 16 + h4)
      | _, _, _, _ => None
      end
    else None
  | _ => None
  end.

Definition IsSurrogate (r : Z) : bool := (0xD800 <=? r) && (r <? 0xE000).

(** [utf16.DecodeRune] *)
Definition DecodeRune16 (r1 r2 : Z) : Z :=
  if (0xD800 <=? r1) && (r1 <? 0xDC00) && (0xDC00 <=? r2) && (r2 <? 0xE000)
  then Z.lor (Z.shiftl (r1 - 0xD800) 10) (r2 - 0xDC00) + 0x10000
  else utf8.RuneError.

Fixpoint drop_bytes (n : nat) (s : string) : string :=
  match n, s with
  | S k, String _ t => drop_bytes k t
  | _, _ => s
  end.

(** The escape that starts at the backslash heading [s]: the bytes it
    stands for and the number of bytes it takes after the backslash. *)
Definition unescape (s : string) : option (string * nat) :=
  match s with
  | String _ (String e _) =>
    let b := byte_val e in
    if (b =? 34) || (b =? 92) || (b =? 47) then Some (String e EmptyString, 1%nat)
    else if b =? 98 then Some (String (byte_of 8) EmptyString, 1%nat)
    else if b =? 102 then Some (String (byte_of 12) EmptyString, 1%nat)
    else if b =? 110 then Some (String (byte_of 10) EmptyString, 1%nat)
    else if b =? 114 then Some (String (byte_of 13) EmptyString, 1%nat)
    else if b =? 116 then Some (String (byte_of 9) EmptyString, 1%nat)
    else if b =? 117 then
      match getu4 s with
      | None => None
      | Some rr =>
        if IsSurrogate rr then
          match getu4 (drop_bytes 6 s) with
          | Some rr1 =>
            let dec := DecodeRune16 rr rr1 in
            if dec =? utf8.RuneError then Some (utf8.EncodeRune utf8.RuneError, 5%nat)
            else Some (utf8.EncodeRune dec, 11%nat)
          | None => Some (utf8.EncodeRune utf8.RuneError, 5%nat)
          end
        else Some (utf8.EncodeRune rr, 5%nat)
      end
    else None
  | _ => None
  end.

(** A string literal from just after its opening quote: its unquoted
    content, coerced to well-formed UTF-8, and the text after its closing
    quote. *)
Fixpoint unquote_from (skip : nat) (s : string) : option (string * string) :=
  match s with
  | EmptyString => None
  | String c t =>
    match skip with
    | S k => unquote_from k t
    | O =>
      let b := byte_val c in
      if b =? 34 then Some (EmptyString, t)
      else if b =? 92 then
        match unescape s with
        | None => None
        | Some (out, n) =>
          match unquote_from n t with
          | None => None
          | Some (content, rest) => Some (out +:+ content, rest)
          end
        end
      else if b <? 32 then None
      else if b <? utf8.RuneSelf then
        match unquote_from 0 t with
        | None => None
        | Some (content, rest) => Some (String c content, rest)
        end
      else
        let (r, size) := utf8.DecodeRuneInString s in
        match unquote_from (pred size) t with
        | None => None
        | Some (content, rest) => Some (utf8.EncodeRune r +:+ content, rest)
        end
    end
  end.

Definition unquote (s : string) : option (string * string) := unquote_from 0 s.

(** The states of the scanner inside a number. *)
Inductive number_state : Type :=
  | stateNeg | state0 | state1 | stateDot | stateDot0 | stateE | stateESign | stateE0.

Definition isDigit (c : ascii) : bool :=
  let b := byte_val c in (48 <=? b) && (b <=? 57).

Definition number_done (st : number_state) : bool :=
  match st with
  | state0 | state1 | stateDot0 | stateE0 => true
  | _ => false
  end.

Definition number_next (st : number_state) (c : ascii) : option number_state :=
  let b := byte_val c in
  let after_int :=
    if b =? 46 then Some stateDot
    else if (b =? 101) || (b =? 69) then Some stateE
    else None in
  match st with
  | stateNeg =>
    if b =? 48 then Some state0 else if isDigit c then Some state1 else None
  | state0 => after_int
  | state1 => if isDigit c then Some state1 else after_int
  | stateDot => if isDigit c then Some stateDot0 else None
  | stateDot0 =>
    if isDigit c then Some stateDot0
    else if (b =? 101) || (b =? 69) then Some stateE
    else None
  | stateE =>
    if (b =? 43) || (b =? 45) then Some stateESign
    else if isDigit c then Some stateE0 else None
  | stateESign => if isDigit c then Some stateE0 else None
  | stateE0 => if isDigit c then Some stateE0 else None
  end.

(** The text after the number that is being read in state [st]. *)
Fixpoint scan_number (st : number_state) (s : string) : option string :=
  match s with
  | EmptyString => if number_done st then Some s else None
  | String c t =>
    match number_next st c with
    | Some st' => scan_number st' t
    | None => if number_done st then Some s else None
    end
  end.

Fixpoint strip_prefix (p s : string) : option string :=
  match p with
  | EmptyString => Some s
  | String a p' =>
    match s with
    | EmptyString => None
    | String c t => if Ascii.eqb a c then strip_prefix p' t else None
    end
  end.

Definition maxNestingDepth : N := 10000.

Definition is_byte (c : ascii) (b : Z) : bool := byte_val c =? b.

(** One JSON value at the head of [s] (leading space already passed), the
    members of an object from a member name on, and the elements of an
    array from an element on; each with the text that follows.  [depth]
    counts the enclosing objects and arrays. *)
Fixpoint parse_value (fuel : nat) (depth : N) (s : string) {struct fuel}
  : option (value * string) :=
  match fuel with
  | O => None
  | S fuel' =>
    match s with
    | EmptyString => None
    | String c t =>
      if is_byte c 123 then
        if (maxNestingDepth <=? depth)%N then None
        else
          match skip_space t with
          | EmptyString => None
          | String c' t' =>
            if is_byte c' 125 then Some (VObject [], t')
            else
              match parse_members fuel' (depth + 1)%N (String c' t') with
              | Some (ms, rest) => Some (VObject ms, rest)
              | None => None
              end
          end
      else if is_byte c 91 then
        if (maxNestingDepth <=? depth)%N then None
        else
          match skip_space t with
          | EmptyString => None
          | String c' t' =>
            if is_byte c' 93 then Some (VArray [], t')
            else
              match parse_elements fuel' (depth + 1)%N (String c' t') with
              | Some (vs, rest) => Some (VArray vs, rest)
              | None => None
              end
          end
      else if is_byte c 34 then
        match unquote t with
        | Some (content, rest) => Some (VString content, rest)
        | None => None
        end
      else if is_byte c 45 then
        match scan_number stateNeg t with
        | Some rest => Some (VNumber, rest)
        | None => None
        end
      else if is_byte c 48 then
        match scan_number state0 t with
        | Some rest => Some (VNumber, rest)
        | None => None
        end
      else if isDigit c then
        match scan_number state1 t with
        | Some rest => Some (VNumber, rest)
        | None => None
        end
      else if is_byte c 116 then
        match strip_prefix "rue" t with
        | Some rest => Some (VBool true, rest)
        | None => None
        end
      else if is_byte c 102 then
        match strip_prefix "alse" t with
        | Some rest => Some (VBool false, rest)
        | None => None
        end
      else if is_byte c 110 then
        match strip_prefix "ull" t with
        | Some rest => Some (VNull, rest)
        | None => None
        end
      else None
    end
  end
with parse_members (fuel : nat) (depth : N) (s : string) {struct fuel}
  : option (list (string * value) * string) :=
  match fuel with
  | O => None
  | S fuel' =>
    match s with
    | EmptyString => None
    | String c t =>
      if is_byte c 34 then
        match unquote t with
        | None => None
        | Some (key, rest) =>
          match skip_space rest with
          | EmptyString => None
          | String colon rest1 =>
            if is_byte colon 58 then
              match parse_value fuel' depth (skip_space rest1) with
              | None => None
              | Some (v, rest2) =>
                match skip_space rest2 with
                | EmptyString => None
                | String sep rest3 =>
                  if is_byte sep 44 then
                    match parse_members fuel' depth (skip_space rest3) with
                    | Some (ms, rest4) => Some ((key, v) :: ms, rest4)
                    | None => None
                    end
                  else if is_byte sep 125 then Some ([(key, v)], rest3)
                  else None
                end
              end
            else None
          end
        end
      else None
    end
  end
with parse_elements (fuel : nat) (depth : N) (s : string) {struct fuel}
  : option (list value * string) :=
  match fuel with
  | O => None
  | S fuel' =>
    match parse_value fuel' depth s with
    | None => None
    | Some (v, rest) =>
      match skip_space rest with
      | EmptyString => None
      | String sep rest1 =>
        if is_byte sep 44 then
          match parse_elements fuel' depth (skip_space rest1) with
          | Some (vs, rest2) => Some (v :: vs, rest2)
          | None => None
          end
        else if is_byte sep 93 then Some ([v], rest1)
        else None
      end
    end
  end.

(** [checkValid] and the reading of the text: exactly one value, with space
    around it at most.  A run of the parser needs no more fuel than it
    reads bytes ([parse_fuel_enough]), so the length of the text is fuel
    enough. *)
Definition parse (data : string) : option value :=
  match parse_value (S (String.length data)) 0%N (skip_space data) with
  | Some (v, rest) =>
    match skip_space rest with
    | EmptyString => Some v
    | String _ _ => None
    end
  | None => None
  end.

(** *** Storing a parsed value into the structs *)

Definition SyntaxError : string := "json: syntax error".

Definition kind (v : value) : string :=
  match v with
  | VNull => "null"
  | VBool _ => "bool"
  | VNumber => "number"
  | VString _ => "string"
  | VArray _ => "array"
  | VObject _ => "object"
  end.

(** [UnmarshalTypeError] *)
Definition TypeError (v : value) (type : string) : string :=
  "json: cannot unmarshal " +:+ kind v +:+ " into Go value of type " +:+ type.

(** The decoder keeps the first error it meets. *)
Definition first_error (e1 e2 : error) : error :=
  match e1 with
  | Some _ => e1
  | None => e2
  end.

(** [foldRune], exact on every rune whose case orbit meets ASCII (the
    letters, the long s and the Kelvin sign); no other rune folds to an
    ASCII rune, which is all the comparison with a field name needs. *)
Definition foldRune (r : Z) : Z :=
  if (97 <=? r) && (r <=? 122) then r - 32
  else if r =? 0x17F then 83
  else if r =? 0x212A then 75
  else r.

Definition foldName (s : string) : list Z := map foldRune (utf8.runes s).

(** The field a member name selects: the one tagged with exactly that name,
    or else the one whose tag is equal to it under case folding. *)
Definition find_field (fields : list string) (key : string) : option string :=
  match find (String.eqb key) fields with
  | Some f => Some f
  | None => find (fun f => bool_decide (foldName f = foldName key)) fields
  end.

Definition store_string (v : value) (old : string) : string * error :=
  match v with
  | VString s => (s, None)
  | VNull => (old, None)
  | _ => (old, Some (TypeError v "string"))
  end.

(** An object stored into a map: the map is allocated if nil and every
    member is set, to the zero string where the member is not a string. *)
Definition store_tags (v : value) (old : gomap) : gomap * error :=
  match v with
  | VObject ms =>
    let r := fold_left
      (fun acc kx =>
         let (s, e) := store_string (snd kx) EmptyString in
         (<[fst kx := s]> (fst acc), first_error (snd acc) e))
      ms (entries old, None) in
    (Some (fst r), snd r)
  | VNull => (None, None)
  | _ => (old, Some (TypeError v "map[string]string"))
  end.

Definition zero_metric : metric := mkMetric EmptyString EmptyString None EmptyString.

Definition metric_fields : list string := ["name"; "type"; "tags"; "value"].

Definition store_metric_member (acc : metric * error) (kx : string * value)
  : metric * error :=
  let (m, err) := acc in
  match find_field metric_fields (fst kx) with
  | Some f =>
    if String.eqb f "name" then
      let (s, e) := store_string (snd kx) (Name m) in
      (mkMetric s (Type_ m) (Tags m) (Value m), first_error err e)
    else if String.eqb f "type" then
      let (s, e) := store_string (snd kx) (Type_ m) in
      (mkMetric (Name m) s (Tags m) (Value m), first_error err e)
    else if String.eqb f "tags" then
      let (t, e) := store_tags (snd kx) (Tags m) in
      (mkMetric (Name m) (Type_ m) t (Value m), first_error err e)
    else
      let (s, e) := store_string (snd kx) (Value m) in
      (mkMetric (Name m) (Type_ m) (Tags m) s, first_error err e)
  | None => acc
  end.

Definition store_metric (v : value) (old : metric) : metric * error :=
  match v with
  | VObject ms => fold_left store_metric_member ms (old, None)
  | VNull => (old, None)
  | _ => (old, Some (TypeError v "main.metric"))
  end.

(** The elements of an array stored one by one into the backing array
    [old] of the slice: the element at hand where the backing array has
    one, the zero value where the slice has to grow. *)
Fixpoint store_elements (vs : list value) (old : list metric) : list metric * error :=
  match vs with
  | [] => ([], None)
  | v :: vs' =>
    let (m, e) := store_metric v (hd zero_metric old) in
    let (ms, e') := store_elements vs' (tl old) in
    (m :: ms, first_error e e')
  end.

(** A value stored into a slice.  [behind] holds the elements of the
    backing array behind the length of the slice, left there when the slice
    was cut to a shorter array.  An array is stored into the backing array
    and the slice is cut to its length; the empty array gives a fresh empty
    slice and [null] the nil slice, both with nothing behind. *)
Definition store_metrics (v : value) (old : slice metric) (behind : list metric)
  : (slice metric * list metric) * error :=
  match v with
  | VArray vs =>
    let backing := elems old ++ behind in
    let (ms, e) := store_elements vs backing in
    (Some ms,
     match vs with
     | [] => []
     | _ => skipn (length vs) backing
     end,
     e)
  | VNull => (None, [], None)
  | _ => (old, behind, Some (TypeError v "[]main.metric"))
  end.

Definition metricFile_fields : list string := ["name"; "metrics"].

(** A member stored into the struct; the state is the struct with what is
    behind its slice. *)
Definition store_metricFile_member (acc : (metricFile * list metric) * error)
    (kx : string * value) : (metricFile * list metric) * error :=
  let (state, err) := acc in
  let (mf, behind) := state in
  match find_field metricFile_fields (fst kx) with
  | Some f =>
    if String.eqb f "name" then
      let (s, e) := store_string (snd kx) (FileName mf) in
      (mkMetricFile s (Metrics mf), behind, first_error err e)
    else
      let (stored, e) := store_metrics (snd kx) (Metrics mf) behind in
      (mkMetricFile (FileName mf) (fst stored), snd stored, first_error err e)
  | None => acc
  end.

(** The slice of [old] is taken to have nothing behind its length, as the
    nil slice of a zero value has. *)
Definition store_metricFile (v : value) (old : metricFile) : metricFile * error :=
  match v with
  | VObject ms =>
    let r := fold_left store_metricFile_member ms (old, [], None) in
    (fst (fst r), snd r)
  | VNull => (old, None)
  | _ => (old, Some (TypeError v "main.metricFile"))
  end.

(** [json.Unmarshal(data, &mf)]: the struct after the call and the error
    returned.  A text that is not valid JSON leaves the struct untouched. *)
Definition Unmarshal (data : string) (mf : metricFile) : metricFile * error :=
  match parse data with
  | None => (mf, Some SyntaxError)
  | Some v => store_metricFile v mf
  end.

End json.

(** ** What the program runs against

    The request type of the [events] package, the AWS configuration loader
    and the S3 client are outside the program.  They are taken as they
    come: any behaviour of theirs is allowed.  [S3] is the state of the
    object store; a call that writes returns the state after it.  A nil
    [*s3.Client] is the value [nil_client]. *)

(** An [io.Reader] over the body of a fetched object, by what [io.ReadAll]
    gets from it. *)
Definition Reader : Type := (string * error)%type.

Definition ReadAll (r : Reader) : string * error := r.

Record Platform : Type := mkPlatform {
  Request : Type;
  (** [req.DecodedBody()] *)
  DecodedBody : Request -> string * error;
  awsConfig : Type;
  (** [awsConfig.LoadDefaultConfig(context.TODO())] *)
  LoadDefaultConfig : awsConfig * error;
  S3 : Type;
  Client : Type;
  nil_client : Client;
  (** [s3.NewFromConfig] *)
  NewFromConfig : awsConfig -> Client;
  (** [client.PutObject] on a bucket, a key and a body. *)
  PutObject : Client -> S3 -> string -> string -> string -> S3 * error;
  (** [client.GetObject] on a bucket and a key. *)
  GetObject : Client -> S3 -> string -> string -> Reader * error;
  (** The pages a [ListObjectsV2Paginator] on a bucket hands out in turn,
      each with the keys of its [Contents] and the error of its
      [NextPage]. *)
  ListObjectsV2Pages : Client -> S3 -> string -> list (list string * error)
}.

(** What a handler returns: the response one of the helpers of the [events]
    package builds from a message. *)
Inductive Response : Type :=
  | Succeed (msg : string)
  | Fail (msg : string).

(** config.go *)
Record config : Type := mkConfig {
  AuthToken : string;
  MetricBucket : string
}.

(** ** router.go: the handlers *)

Definition zero_metricFile : metricFile := mkMetricFile EmptyString None.

Section router.

Context (P : Platform).

(** The process-wide configuration [c]. *)
Variable c : config.

Definition getClient : Client P * error :=
  let (cfg, err) := LoadDefaultConfig P in
  match err with
  | Some e => (nil_client P, Some e)
  | None => (NewFromConfig P cfg, None)
  end.

Definition metricHandler (req : Request P) (store : S3 P) : Response * S3 P :=
  let (body, err) := DecodedBody P req in
  match err with
  | Some e => (Fail ("failed to decode: " +:+ e), store)
  | None =>
    let (mf, err) := json.Unmarshal body zero_metricFile in
    match err with
    | Some e => (Fail ("failed to unmarshal: " +:+ e), store)
    | None =>
      if negb (metricFile_Validate mf) then (Fail "failed validation", store)
      else
        let (content, err) := json.Marshal mf in
        match err with
        | Some e => (Fail ("failed to marshal: " +:+ e), store)
        | None =>
          let (client, err) := getClient in
          match err with
          | Some e => (Fail ("failed to load client: " +:+ e), store)
          | None =>
            let (store', err) :=
              PutObject P client store (MetricBucket c) (FileName mf) content in
            match err with
            | Some e => (Fail ("failed to write: " +:+ e), store')
            | None => (Succeed EmptyString, store')
            end
          end
        end
    end
  end.

(** The loop over the pages in [listMetricFiles]. *)
Fixpoint list_pages (pages : list (list string * error)) (metricFiles : list string)
  : list string * error :=
  match pages with
  | [] => (metricFiles, None)
  | (contents, err) :: pages' =>
    match err with
    | Some e => ([], Some e)
    | None => list_pages pages' (metricFiles ++ contents)
    end
  end.

Definition listMetricFiles (client : Client P) (store : S3 P) : list string * error :=
  list_pages (ListObjectsV2Pages P client store (MetricBucket c)) [].

Definition readMetricFile (client : Client P) (store : S3 P) (f : string)
  : metricFile * error :=
  let (result, err) := GetObject P client store (MetricBucket c) f in
  match err with
  | Some e => (zero_metricFile, Some e)
  | None =>
    let (body, err) := ReadAll result in
    match err with
    | Some e => (zero_metricFile, Some e)
    | None =>
      let (mf, err) := json.Unmarshal body zero_metricFile in
      match err with
      | Some e => (zero_metricFile, Some e)
      | None =>
        if negb (metricFile_Validate mf) then
          (zero_metricFile, Some ("failed validation for " +:+ f))
        else (mf, None)
      end
    end
  end.

(** The loop over the files in [readMetrics]. *)
Fixpoint read_files (client : Client P) (store : S3 P) (files : list string)
    (allMetrics : metricFile) : metricFile * error :=
  match files with
  | [] => (allMetrics, None)
  | f :: files' =>
    let (mf, err) := readMetricFile client store f in
    match err with
    | Some e => (zero_metricFile, Some e)
    | None =>
      read_files client store files'
        (mkMetricFile (FileName allMetrics)
                      (append (Metrics allMetrics) (Metrics mf)))
    end
  end.

Definition readMetrics (client : Client P) (store : S3 P) : metricFile * error :=
  let (files, err) := listMetricFiles client store in
  match err with
  | Some e => (zero_metricFile, Some e)
  | None => read_files client store files (mkMetricFile "__all__" None)
  end.

(** [orders]: the visiting orders of the tags while the result is
    rendered. *)
Definition indexHandler (orders : list (list (string * string)))
    (_ : Request P) (store : S3 P) : Response :=
  let (client, err) := getClient in
  match err with
  | Some e => Fail ("failed to load client: " +:+ e)
  | None =>
    let (allMetrics, err) := readMetrics client store in
    match err with
    | Some e => Fail ("failed to read metrics: " +:+ e)
    | None => Succeed (metricFile_String orders allMetrics)
    end
  end.

End router.

(** ** A store in memory

    A platform to run the handlers on: requests are their own body, the
    store is one bucket held as a map from key to object, listed in one page
    in the order of the keys, and no call fails but the fetch of a key that
    is not there. *)

Definition memory : Platform := {|
  Request := string;
  DecodedBody := fun body => (body, None);
  awsConfig := unit;
  LoadDefaultConfig := (tt, None);
  S3 := gmap string string;
  Client := unit;
  nil_client := tt;
  NewFromConfig := fun _ => tt;
  PutObject := fun _ store _ key body => (<[key := body]> store, None);
  GetObject := fun _ store _ key =>
    match store !! key with
    | Some body => ((body, None), None)
    | None => ((EmptyString, None), Some "NoSuchKey")
    end;
  ListObjectsV2Pages := fun _ store _ =>
    [(merge_sort String.le (map fst (map_to_list store)), None)]
|}.


(** ** crypto/subtle *)

Module subtle.
Local Open Scope Z_scope.

(** [ConstantTimeByteEq] on two [uint8]:
    [int((uint32(x^y) - 1) >> 31)], the subtraction wrapping around at 32
    bits. *)
Definition ConstantTimeByteEq (x y : Z) : Z :=
  Z.shiftr ((Z.lxor x y - 1) mod 2 ^ 32) 31.

(** The loop of [ConstantTimeCompare], [v |= x[i] ^ y[i]], over two slices
    of one length. *)
Fixpoint accumulate (v : Z) (x y : string) : Z :=
  match x, y with
  | String a x', String b y' =>
    accumulate (Z.lor v (Z.lxor (byte_val a) (byte_val b))) x' y'
  | _, _ => v
  end.

Definition ConstantTimeCompare (x y : string) : Z :=
  if negb (Nat.eqb (String.length x) (String.length y)) then 0
  else ConstantTimeByteEq (accumulate 0 x y) 0.

End subtle.

(** ** router.go: authentication of a submission *)

(** [strings.HasPrefix]:
    [len(s) >= len(prefix) && s[:len(prefix)] == prefix]. *)
Definition HasPrefix (s prefix : string) : bool :=
  (String.length prefix <=? String.length s)%nat
  && String.eqb (substring 0 (String.length prefix) s) prefix.

(** The index expression [m[key]] on a [map[string]string]: the zero value
    when the key is not there. *)
Definition index (m : gomap) (key : string) : string :=
  default EmptyString (entries m !! key).

(** What [metricAuth] returns: the response [events.Reject] builds from a
    message, or the zero [events.Response]. *)
Inductive AuthResponse : Type :=
  | Reject (msg : string)
  | ZeroResponse.

Section auth.

Context (P : Platform).

(** [req.Headers] *)
Variable Headers : Request P -> gomap.

Variable c : config.

(** The slice [auth[7:]] is in range behind the test of the prefix. *)
Definition metricAuth (req : Request P) : AuthResponse :=
  let auth := index (Headers req) "Authorization" in
  if negb (HasPrefix auth "Bearer ") then Reject "no auth token"
  else
    let token := json.drop_bytes 7 auth in
    if negb (subtle.ConstantTimeCompare token (AuthToken c) =? 1)%Z then
      Reject "bad auth token"
    else ZeroResponse.

End auth.

(** ** main.go: the patterns of the two routes *)

(** A run of literal runes. *)
Fixpoint literal (rs : list Z) : regexp.syntax :=
  match rs with
  | [] => regexp.EmptyMatch
  | [r] => regexp.Literal r
  | r :: rs' => regexp.Concat (regexp.Literal r) (literal rs')
  end.

(** [^/metric$] *)
Definition metricRegex : regexp.Regexp :=
  regexp.mkRegexp true (literal (utf8.runes "/metric")) true.

(** [^/(metrics)?$] *)
Definition indexRegex : regexp.Regexp :=
  regexp.mkRegexp true
    (regexp.Concat (regexp.Literal 47)
                   (regexp.Quest (literal (utf8.runes "metrics"))))
    true.
(** ** The words of the properties

    What follows is not code of the program: it is what the statements of
    Parts II and III are written with. *)

(** *** Bytes of a text *)

(** A byte below [utf8.RuneSelf]. *)
Definition low_byte (c : ascii) : bool := (byte_val c <? 0x80)%Z.

(** The bytes the text pattern takes: the ASCII digits and letters, the
    underscore, the hyphen and the slash. *)
Definition text_byte (c : ascii) : bool :=
  let b := byte_val c in
  ((48 <=? b) && (b <=? 57) || (65 <=? b) && (b <=? 90)
   || (97 <=? b) && (b <=? 122) || (b =? 95) || (b =? 45) || (b =? 47))%Z.

(** An ASCII digit. *)
Definition digit_byte (c : ascii) : bool :=
  let b := byte_val c in ((48 <=? b) && (b <=? 57))%Z.

(** Every byte of the text satisfies [p]. *)
Definition all_bytes (p : ascii -> bool) (s : string) : bool :=
  forallb p (list_ascii_of_string s).

(** *** Validation *)

(** A text of the pattern [^[\w\-/]+$]: not empty, and made of ASCII
    letters, digits, underscores, hyphens and slashes. *)
Definition text (s : string) : Prop :=
  s <> EmptyString /\ all_bytes text_byte s = true.

(** A text of the pattern [^\d+(.\+)?$]: one ASCII digit or more, followed
    either by nothing or by one rune other than the newline and a plus
    sign. *)
Definition value_text (s : string) : Prop :=
  exists digits rest,
    s = digits +:+ rest /\
    digits <> EmptyString /\ all_bytes digit_byte digits = true /\
    (rest = EmptyString \/
     exists r, r <> 10%Z /\ utf8.runes rest = [r; 43%Z]).

(** What the data model asks of a metric. *)
Definition well_formed (m : metric) : Prop :=
  text (Name m) /\ text (Type_ m) /\ value_text (Value m) /\
  forall k v, entries (Tags m) !! k = Some v -> text k /\ text v.

(** A tag whose key and value both pass the text pattern. *)
Definition text_pair (kv : string * string) : Prop :=
  regexp.MatchString textRegex (fst kv) = true /\
  regexp.MatchString textRegex (snd kv) = true.

(** *** UTF-8 *)

Section utf8_vocabulary.
Local Open Scope Z_scope.

(** The rune that two, three and four bytes encode, in arithmetic. *)
Definition rune2 (s0 s1 : Z) : Z := (s0 - 0xC0) * 64 + (s1 - 0x80).

Definition rune3 (s0 s1 s2 : Z) : Z :=
  (s0 - 0xE0) * 4096 + (s1 - 0x80) * 64 + (s2 - 0x80).

Definition rune4 (s0 s1 s2 s3 : Z) : Z :=
  (s0 - 0xF0) * 262144 + (s1 - 0x80) * 4096 + (s2 - 0x80) * 64 + (s3 - 0x80).

(** What the leading byte allows as the second byte. *)
Definition second_ok (s0 s1 : Z) : Prop :=
  0x80 <= s1 <= 0xBF /\
  (s0 = 0xE0 -> 0xA0 <= s1) /\ (s0 = 0xED -> s1 <= 0x9F) /\
  (s0 = 0xF0 -> 0x90 <= s1) /\ (s0 = 0xF4 -> s1 <= 0x8F).

(** The shapes a decoding step can have: the text, the rune and the
    width. *)
Inductive decoded : string -> Z -> nat -> Prop :=
  | dec_ascii c t :
      byte_val c < 0x80 -> decoded (String c t) (byte_val c) 1
  | dec_error c t :
      0x80 <= byte_val c -> decoded (String c t) utf8.RuneError 1
  | dec_2 c0 c1 t :
      0xC2 <= byte_val c0 <= 0xDF -> 0x80 <= byte_val c1 <= 0xBF ->
      decoded (String c0 (String c1 t)) (rune2 (byte_val c0) (byte_val c1)) 2
  | dec_3 c0 c1 c2 t :
      0xE0 <= byte_val c0 <= 0xEF -> second_ok (byte_val c0) (byte_val c1) ->
      0x80 <= byte_val c2 <= 0xBF ->
      decoded (String c0 (String c1 (String c2 t)))
              (rune3 (byte_val c0) (byte_val c1) (byte_val c2)) 3
  | dec_4 c0 c1 c2 c3 t :
      0xF0 <= byte_val c0 <= 0xF4 -> second_ok (byte_val c0) (byte_val c1) ->
      0x80 <= byte_val c2 <= 0xBF -> 0x80 <= byte_val c3 <= 0xBF ->
      decoded (String c0 (String c1 (String c2 (String c3 t))))
              (rune4 (byte_val c0) (byte_val c1) (byte_val c2) (byte_val c3)) 4.

(** Well-formed UTF-8, rune by rune. *)
Inductive wellformed : string -> Prop :=
  | wf_nil : wellformed EmptyString
  | wf_1 c t : byte_val c < 0x80 -> wellformed t -> wellformed (String c t)
  | wf_2 c0 c1 t :
      0xC2 <= byte_val c0 <= 0xDF -> 0x80 <= byte_val c1 <= 0xBF ->
      wellformed t -> wellformed (String c0 (String c1 t))
  | wf_3 c0 c1 c2 t :
      0xE0 <= byte_val c0 <= 0xEF -> second_ok (byte_val c0) (byte_val c1) ->
      0x80 <= byte_val c2 <= 0xBF ->
      wellformed t -> wellformed (String c0 (String c1 (String c2 t)))
  | wf_4 c0 c1 c2 c3 t :
      0xF0 <= byte_val c0 <= 0xF4 -> second_ok (byte_val c0) (byte_val c1) ->
      0x80 <= byte_val c2 <= 0xBF -> 0x80 <= byte_val c3 <= 0xBF ->
      wellformed t -> wellformed (String c0 (String c1 (String c2 (String c3 t)))).

(** The first [k] bytes of the text, as far as it goes, are not ASCII. *)
Fixpoint high_prefix (k : nat) (s : string) : Prop :=
  match k, s with
  | S k', String c t => 0x80 <= byte_val c /\ high_prefix k' t
  | _, _ => True
  end.

End utf8_vocabulary.


(** Every text of a metric, and of a metric file, satisfies [P]. *)
Definition metric_texts (P : string -> Prop) (m : metric) : Prop :=
  P (Name m) /\ P (Type_ m) /\ P (Value m) /\
  forall k v, entries (Tags m) !! k = Some v -> P k /\ P v.

Definition file_texts (P : string -> Prop) (mf : metricFile) : Prop :=
  P (FileName mf) /\ Forall (metric_texts P) (elems (Metrics mf)).

(** *** Lines of text *)

Definition NL : ascii := ascii_of_nat 10.

Fixpoint no_newline (s : string) : bool :=
  match s with
  | EmptyString => true
  | String c t => negb (Ascii.eqb c NL) && no_newline t
  end.

(** The lines of a text, each up to its newline; a last stretch without a
    newline counts when it is not empty. *)
Fixpoint lines_from (cur s : string) : list string :=
  match s with
  | EmptyString => match cur with EmptyString => [] | _ => [cur] end
  | String c t =>
    if Ascii.eqb c NL then cur :: lines_from EmptyString t
    else lines_from (cur +:+ String c EmptyString) t
  end.

Definition lines (s : string) : list string := lines_from EmptyString s.

(** No atom of the expression takes a newline. *)
Fixpoint never_newline (e : regexp.syntax) : bool :=
  match e with
  | regexp.NoMatch | regexp.EmptyMatch | regexp.AnyCharNotNL => true
  | regexp.Literal c => negb (c =? 10)%Z
  | regexp.CharClass ranges => negb (regexp.in_ranges ranges 10)
  | regexp.Concat a b | regexp.Alternate a b => never_newline a && never_newline b
  | regexp.Star a | regexp.Plus a | regexp.Quest a => never_newline a
  end.

(** *** The exposition format *)

Definition type_line (m : metric) : string :=
  "# TYPE " +:+ Name m +:+ " " +:+ Type_ m.

Definition sample_line (m : metric) (tagblock : string) : string :=
  Name m +:+ tagblock +:+ " " +:+ Value m.

Definition tag_assignment (kv : string * string) : string :=
  fst kv +:+ "=" +:+ quote +:+ snd kv +:+ quote.

Definition tag_block (order : list (string * string)) : string :=
  "{" +:+ Join (map tag_assignment order) "," +:+ "}".




(** *** Aggregation *)

(** The fetch, the decoding or the validation of the object under key [f]
    fails. *)
Definition object_fails (P : Platform) (c : config) (client : Client P)
    (store : S3 P) (f : string) : Prop :=
  let (result, fetch_err) := GetObject P client store (MetricBucket c) f in
  fetch_err <> None \/
  let (body, read_err) := ReadAll result in
  read_err <> None \/
  let (mf, decode_err) := json.Unmarshal body zero_metricFile in
  decode_err <> None \/ metricFile_Validate mf = false.

(** The object under key [f] is fetched and decoded to [mf], and [mf] is
    valid. *)
Definition object_holds (P : Platform) (c : config) (client : Client P)
    (store : S3 P) (f : string) (mf : metricFile) : Prop :=
  exists result body,
    GetObject P client store (MetricBucket c) f = (result, None) /\
    ReadAll result = (body, None) /\
    json.Unmarshal body zero_metricFile = (mf, None) /\
    metricFile_Validate mf = true.

(** Every page of the listing comes without error and without a key. *)
Definition listing_empty (P : Platform) (c : config) (client : Client P)
    (store : S3 P) : Prop :=
  Forall (fun page => page = ([], None))
         (ListObjectsV2Pages P client store (MetricBucket c)).

(** *** Examples *)

Definition example_config : config := mkConfig "secret" "metrics".

(** The two files of the example: [a] holds the metric [up] and [b] the
    metric [down]. *)
Definition file_a : metricFile :=
  mkMetricFile "a" (Some [mkMetric "up" "gauge" None "1"]).

Definition file_b : metricFile :=
  mkMetricFile "b" (Some [mkMetric "down" "gauge" None "0"]).

(** The store in memory after [a] and [b] have been submitted, [b]
    first. *)
Definition store_a_b (c : config) : S3 memory :=
  snd (metricHandler memory c (fst (json.Marshal file_a))
         (snd (metricHandler memory c (fst (json.Marshal file_b)) ∅))).

(** The store of the example with the object under [b] replaced by the
    encoding of a file whose metric has the value "1.5". *)
Definition store_b_invalid : S3 memory :=
  <["b" := fst (json.Marshal
                  (mkMetricFile "b" (Some [mkMetric "down" "gauge" None "1.5"])))]>
    (store_a_b example_config).

(** A submission with an empty name and a valid metric. *)
Definition unnamed_submission : string :=
  fst (json.Marshal (mkMetricFile EmptyString (Some [mkMetric "up" "gauge" None "1"]))).


(** A file whose metric has a tag. *)
Definition tagged_file : metricFile :=
  mkMetricFile "a" (Some [mkMetric "up" "gauge" (Some {["job" := "api"]}) "1"]).

(** *** JSON *)

Section json_vocabulary.
Import utf8 json.

(** [p] put in front of the content a run of [unquote_from] found. *)
Definition prepend (p : string) (r : option (string * string)) : option (string * string) :=
  match r with
  | Some (content, rest) => Some (p +:+ content, rest)
  | None => None
  end.

(** A text that does not start with a space. *)
Definition solid (s : string) : Prop :=
  exists c t, s = String c t /\ isSpace c = false.

(** What the encoder writes for an entry of a map, and the tree the parser
    builds from it. *)
Definition member_text (kv : string * string) : string :=
  appendString (fst kv) +:+ ":" +:+ appendString (snd kv).

Definition member_tree (kv : string * string) : string * value :=
  (fst kv, VString (snd kv)).

(** The trees the parser builds from the encodings. *)
Definition tree_of_tags (t : gomap) : value :=
  match t with
  | None => VNull
  | Some g => VObject (map member_tree (sorted_entries g))
  end.

Definition tree_of_metric (m : metric) : value :=
  VObject [("name", VString (Name m)); ("type", VString (Type_ m));
           ("tags", tree_of_tags (Tags m)); ("value", VString (Value m))].

Definition tree_of_metrics (ms : slice metric) : value :=
  match ms with
  | None => VNull
  | Some l => VArray (map tree_of_metric l)
  end.

Definition tree_of_file (mf : metricFile) : value :=
  VObject [("name", VString (FileName mf)); ("metrics", tree_of_metrics (Metrics mf))].

Definition wellformed_pair (kv : string * string) : Prop :=
  wellformed (fst kv) /\ wellformed (snd kv).

(** There is room for one more level of nesting. *)
Definition depth_ok (d : N) : Prop := (d < maxNestingDepth)%N.

(** The fuel that parsing the encoding of a metric, of a list of metrics
    and of a file takes. *)
Definition need_metric (m : metric) : nat := size (entries (Tags m)) + 6.

Fixpoint need_elements (l : list metric) : nat :=
  match l with
  | [] => 0
  | m :: l' => Nat.max (need_metric m + 1) (need_elements l' + 1)
  end.

Definition need_metrics (ms : slice metric) : nat := need_elements (elems ms) + 1.

Definition need_file (mf : metricFile) : nat := need_metrics (Metrics mf) + 3.

(** The step of the loop in [store_tags]. *)
Definition insert_member (acc : gmap string string * error) (kx : string * value)
  : gmap string string * error :=
  let (s, e) := store_string (snd kx) EmptyString in
  (<[fst kx := s]> (fst acc), first_error (snd acc) e).

(** Every text of the tree is well-formed UTF-8. *)
Fixpoint tree_wf (v : value) : Prop :=
  match v with
  | VString s => wellformed s
  | VArray vs =>
    (fix all (vs : list value) : Prop :=
       match vs with
       | [] => True
       | x :: vs' => tree_wf x /\ all vs'
       end) vs
  | VObject ms =>
    (fix all (ms : list (string * value)) : Prop :=
       match ms with
       | [] => True
       | kx :: ms' => wellformed (fst kx) /\ tree_wf (snd kx) /\ all ms'
       end) ms
  | _ => True
  end.

Definition member_wf (kx : string * value) : Prop :=
  wellformed (fst kx) /\ tree_wf (snd kx).

Definition map_wf (g : gmap string string) : Prop :=
  forall k v, g !! k = Some v -> wellformed k /\ wellformed v.

(** A run that succeeds needs no more fuel than the bytes it reads. *)
Definition thrifty {A} (run : nat -> string -> option (A * string)) (fuel : nat) : Prop :=
  forall s r rest,
    run fuel s = Some (r, rest) ->
    String.length rest < String.length s /\
    forall fuel', String.length s - String.length rest <= fuel' ->
      run fuel' s = Some (r, rest).

End json_vocabulary.


(** *** Aggregation *)

(** The error of the first page that comes with one. *)
Fixpoint pages_error (pages : list (list string * error)) : error :=
  match pages with
  | [] => None
  | (_, Some e) :: _ => Some e
  | (_, None) :: pages' => pages_error pages'
  end.

(** The lines of the exposition of a list of metrics: for each metric its
    type line, its sample line and an empty line. *)
Fixpoint exposition (orders : list (list (string * string))) (ms : list metric)
  : list string :=
  match ms with
  | [] => []
  | m :: ms' =>
    type_line m :: sample_line m (metric_TagString (hd [] orders) m)
      :: EmptyString :: exposition (tl orders) ms'
  end.

(** The store hands back what was put: after a [PutObject] that succeeds,
    a [GetObject] of the same key of the bucket fetches the body that was
    written, and reads it without error. *)
Definition serves_what_was_put (P : Platform) (c : config) : Prop :=
  forall client store key body store',
    PutObject P client store (MetricBucket c) key body = (store', None) ->
    forall client',
      GetObject P client' store' (MetricBucket c) key = ((body, None), None).

(** A submission in which the member [metrics] comes three times: with
    the metrics [a] and [b], then with one empty object, then with two. *)
Definition repeated_metrics_body : string :=
  "{" +:+ json.appendString "name" +:+ ":" +:+ json.appendString "f"
  +:+ "," +:+ json.appendString "metrics" +:+ ":"
  +:+ json.encode_metrics (Some [mkMetric "a" "gauge" None "1";
                                 mkMetric "b" "gauge" None "2"])
  +:+ "," +:+ json.appendString "metrics" +:+ ":[{}]"
  +:+ "," +:+ json.appendString "metrics" +:+ ":[{},{}]}".

(** *** Reading the exposition back *)

(** The byte [d] does not occur in the text. *)
Definition free (d : ascii) (s : string) : bool :=
  all_bytes (fun c => negb (Ascii.eqb c d)) s.

(** Two metrics with the same name, type and value and the same tags; a nil
    map and an empty one hold the same tags. *)
Definition same_metric (m1 m2 : metric) : Prop :=
  Name m1 = Name m2 /\ Type_ m1 = Type_ m2 /\ Value m1 = Value m2 /\
  entries (Tags m1) = entries (Tags m2).

(** *** A platform without credentials *)

(** The store in memory behind a configuration loader that fails. *)
Definition offline : Platform := {|
  Request := string;
  DecodedBody := fun body => (body, None);
  awsConfig := unit;
  LoadDefaultConfig := (tt, Some "no credentials");
  S3 := gmap string string;
  Client := unit;
  nil_client := tt;
  NewFromConfig := fun _ => tt;
  PutObject := PutObject memory;
  GetObject := GetObject memory;
  ListObjectsV2Pages := ListObjectsV2Pages memory
|}.
(* ===================================================================== *)
(** * Part II: properties *)
(* ===================================================================== *)

(** ** Bytes and bit patterns *)

Ltac zcases :=
  repeat match goal with
  | |- context [Z.ltb ?a ?b] => destruct (Z.ltb_spec a b); try lia
  | |- context [Z.leb ?a ?b] => destruct (Z.leb_spec a b); try lia
  | |- context [Z.eqb ?a ?b] => destruct (Z.eqb_spec a b); try lia
  end.

Ltac arith := simpl; Z.div_mod_to_equations; lia.

Section byte_facts.
Local Open Scope Z_scope.

Lemma byte_val_range c : 0 <= byte_val c < 256.
Proof.
  unfold byte_val. pose proof (N_ascii_bounded c). lia.
Qed.

Lemma byte_of_val c : byte_of (byte_val c) = c.
Proof.
  unfold byte_of, byte_val. rewrite N2Z.id. apply ascii_N_embedding.
Qed.

Lemma byte_val_of z : 0 <= z < 256 -> byte_val (byte_of z) = z.
Proof.
  intros H. unfold byte_of, byte_val. rewrite N_ascii_embedding by lia. lia.
Qed.

Lemma byte_val_inj a b : byte_val a = byte_val b -> a = b.
Proof. intros H. rewrite <- (byte_of_val a), <- (byte_of_val b), H. reflexivity. Qed.

Lemma lor_shiftl_add a b k :
  0 <= k -> 0 <= b < 2 ^ k -> Z.lor (Z.shiftl a k) b = a * 2 ^ k + b.
Proof.
  intros Hk Hb.
  assert (Hland : Z.land (Z.shiftl a k) b = 0).
  { apply Z.bits_inj'. intros n Hn. rewrite Z.land_spec, Z.bits_0.
    destruct (Z.lt_ge_cases n k) as [Hlt|Hge].
    - rewrite Z.shiftl_spec_low by assumption. reflexivity.
    - destruct (Z.eq_dec b 0) as [->|Hnz]; [rewrite Z.bits_0; apply andb_false_r|].
      rewrite (Z.bits_above_log2 b n); [apply andb_false_r|lia|].
      apply Z.log2_lt_pow2; [lia|]. 
      assert (2 ^ k <= 2 ^ n) by (apply Z.pow_le_mono_r; lia). lia. }
  rewrite <- Z.lxor_lor by assumption.
  rewrite <- Z.add_nocarry_lxor by assumption.
  rewrite Z.shiftl_mul_pow2 by assumption. reflexivity.
Qed.

Lemma land_low a k lo : 0 <= k -> lo mod 2 ^ k = 0 -> lo <= a < lo + 2 ^ k ->
  Z.land a (Z.ones k) = a - lo.
Proof.
  intros Hk Hlo Ha. rewrite Z.land_ones by assumption.
  assert (0 < 2 ^ k) by (apply Z.pow_pos_nonneg; lia).
  rewrite <- (Z.mod_small (a - lo) (2 ^ k)) by lia.
  replace a with ((a - lo) + lo) at 1 by lia.
  rewrite Z.add_mod by lia. rewrite Hlo, Z.add_0_r. rewrite Z.mod_mod by lia. reflexivity.
Qed.


Lemma lor_disjoint x b k :
  0 <= k -> x mod 2 ^ k = 0 -> 0 <= b < 2 ^ k -> Z.lor x b = x + b.
Proof.
  intros Hk Hx Hb.
  assert (0 < 2 ^ k) by (apply Z.pow_pos_nonneg; lia).
  rewrite (Z.div_mod x (2 ^ k)) at 1 by lia. rewrite Hx, Z.add_0_r.
  rewrite Z.mul_comm, <- Z.shiftl_mul_pow2 by assumption.
  rewrite lor_shiftl_add by assumption.
  rewrite (Z.div_mod x (2 ^ k)) at 2 by lia. lia.
Qed.

Lemma bits2 s0 s1 : 0xC0 <= s0 <= 0xDF -> 0x80 <= s1 <= 0xBF ->
  Z.lor (Z.shiftl (Z.land s0 0x1F) 6) (Z.land s1 0x3F) = rune2 s0 s1.
Proof.
  intros H0 H1.
  change 0x1F with (Z.ones 5). change 0x3F with (Z.ones 6).
  rewrite (land_low s0 5 0xC0), (land_low s1 6 0x80) by (try reflexivity; simpl; lia).
  rewrite Z.shiftl_mul_pow2 by lia.
  rewrite (lor_disjoint _ (s1 - 0x80) 6) by arith. reflexivity.
Qed.

Lemma bits3 s0 s1 s2 : 0xE0 <= s0 <= 0xEF -> 0x80 <= s1 <= 0xBF -> 0x80 <= s2 <= 0xBF ->
  Z.lor (Z.lor (Z.shiftl (Z.land s0 0x0F) 12) (Z.shiftl (Z.land s1 0x3F) 6))
        (Z.land s2 0x3F) = rune3 s0 s1 s2.
Proof.
  intros H0 H1 H2.
  change 0x0F with (Z.ones 4). change 0x3F with (Z.ones 6).
  rewrite (land_low s0 4 0xE0), (land_low s1 6 0x80), (land_low s2 6 0x80)
    by (try reflexivity; simpl; lia).
  rewrite !Z.shiftl_mul_pow2 by lia.
  rewrite (lor_disjoint _ ((s1 - 0x80) * 2 ^ 6) 12) by arith.
  rewrite (lor_disjoint _ (s2 - 0x80) 6) by arith. reflexivity.
Qed.

Lemma bits4 s0 s1 s2 s3 :
  0xF0 <= s0 <= 0xF7 -> 0x80 <= s1 <= 0xBF -> 0x80 <= s2 <= 0xBF -> 0x80 <= s3 <= 0xBF ->
  Z.lor (Z.lor (Z.lor (Z.shiftl (Z.land s0 0x07) 18) (Z.shiftl (Z.land s1 0x3F) 12))
               (Z.shiftl (Z.land s2 0x3F) 6))
        (Z.land s3 0x3F) = rune4 s0 s1 s2 s3.
Proof.
  intros H0 H1 H2 H3.
  change 0x07 with (Z.ones 3). change 0x3F with (Z.ones 6).
  rewrite (land_low s0 3 0xF0), (land_low s1 6 0x80), (land_low s2 6 0x80),
    (land_low s3 6 0x80) by (try reflexivity; simpl; lia).
  rewrite !Z.shiftl_mul_pow2 by lia.
  rewrite (lor_disjoint _ ((s1 - 0x80) * 2 ^ 12) 18) by arith.
  rewrite (lor_disjoint _ ((s2 - 0x80) * 2 ^ 6) 12) by arith.
  rewrite (lor_disjoint _ (s3 - 0x80) 6) by arith. reflexivity.
Qed.

End byte_facts.

(** ** Decoding and encoding a rune *)

Section utf8_facts.
Import utf8.
Local Open Scope Z_scope.

Lemma lead_size_cases s0 : 0 <= s0 < 256 ->
  (s0 < 0x80 /\ lead_size s0 = 1%nat) \/
  ((0x80 <= s0 < 0xC2 \/ 0xF5 <= s0) /\ lead_size s0 = 0%nat) \/
  (0xC2 <= s0 <= 0xDF /\ lead_size s0 = 2%nat) \/
  (0xE0 <= s0 <= 0xEF /\ lead_size s0 = 3%nat) \/
  (0xF0 <= s0 <= 0xF4 /\ lead_size s0 = 4%nat).
Proof.
  intros H. unfold lead_size. zcases; intuition lia.
Qed.

Lemma accept_second s0 s1 :
  0xC2 <= s0 <= 0xF4 ->
  ((s1 <? fst (accept s0)) || (snd (accept s0) <? s1) = false <-> second_ok s0 s1).
Proof.
  intros H. unfold accept, second_ok.
  destruct (Z.eqb_spec s0 0xE0);
    [|destruct (Z.eqb_spec s0 0xED);
      [|destruct (Z.eqb_spec s0 0xF0); [|destruct (Z.eqb_spec s0 0xF4)]]];
    simpl; rewrite orb_false_iff, !Z.ltb_ge; lia.
Qed.

Lemma cont_spec b : cont b = true <-> 0x80 <= b <= 0xBF.
Proof. unfold cont. rewrite andb_true_iff. lia. Qed.

Lemma decode_ascii c t :
  byte_val c < 0x80 -> DecodeRuneInString (String c t) = (byte_val c, 1%nat).
Proof.
  intros H. unfold DecodeRuneInString. pose proof (byte_val_range c).
  destruct (lead_size_cases (byte_val c)) as [[_ ->]|[[? _]|[[? _]|[[? _]|[? _]]]]];
    (reflexivity || lia).
Qed.

Lemma decode_2 c0 c1 t :
  0xC2 <= byte_val c0 <= 0xDF -> 0x80 <= byte_val c1 <= 0xBF ->
  DecodeRuneInString (String c0 (String c1 t))
  = (rune2 (byte_val c0) (byte_val c1), 2%nat).
Proof.
  intros H0 H1. unfold DecodeRuneInString. pose proof (byte_val_range c0).
  destruct (lead_size_cases (byte_val c0)) as [[? _]|[[? _]|[[_ ->]|[[? _]|[? _]]]]];
    try lia.
  assert (Ha : second_ok (byte_val c0) (byte_val c1)) by (unfold second_ok; lia).
  apply accept_second in Ha; [|lia].
  destruct (accept (byte_val c0)) as [lo hi]. simpl in Ha. rewrite Ha. simpl.
  rewrite bits2 by lia. reflexivity.
Qed.

Lemma decode_3 c0 c1 c2 t :
  0xE0 <= byte_val c0 <= 0xEF -> second_ok (byte_val c0) (byte_val c1) ->
  0x80 <= byte_val c2 <= 0xBF ->
  DecodeRuneInString (String c0 (String c1 (String c2 t)))
  = (rune3 (byte_val c0) (byte_val c1) (byte_val c2), 3%nat).
Proof.
  intros H0 H1 H2. unfold DecodeRuneInString. pose proof (byte_val_range c0).
  destruct (lead_size_cases (byte_val c0)) as [[? _]|[[? _]|[[? _]|[[_ ->]|[? _]]]]];
    try lia.
  pose proof H1 as Ha. apply accept_second in Ha; [|lia].
  destruct (accept (byte_val c0)) as [lo hi]. simpl in Ha. rewrite Ha. simpl.
  apply cont_spec in H2. rewrite H2. simpl. apply cont_spec in H2.
  destruct H1 as [H1 _]. rewrite bits3 by lia. reflexivity.
Qed.

Lemma decode_4 c0 c1 c2 c3 t :
  0xF0 <= byte_val c0 <= 0xF4 -> second_ok (byte_val c0) (byte_val c1) ->
  0x80 <= byte_val c2 <= 0xBF -> 0x80 <= byte_val c3 <= 0xBF ->
  DecodeRuneInString (String c0 (String c1 (String c2 (String c3 t))))
  = (rune4 (byte_val c0) (byte_val c1) (byte_val c2) (byte_val c3), 4%nat).
Proof.
  intros H0 H1 H2 H3. unfold DecodeRuneInString. pose proof (byte_val_range c0).
  destruct (lead_size_cases (byte_val c0)) as [[? _]|[[? _]|[[? _]|[[? _]|[_ ->]]]]];
    try lia.
  pose proof H1 as Ha. apply accept_second in Ha; [|lia].
  destruct (accept (byte_val c0)) as [lo hi]. simpl in Ha. rewrite Ha. simpl.
  apply cont_spec in H2. rewrite H2. simpl. apply cont_spec in H2.
  apply cont_spec in H3. rewrite H3. simpl. apply cont_spec in H3.
  destruct H1 as [H1 _]. rewrite bits4 by lia. reflexivity.
Qed.

Lemma decode_decoded c t :
  decoded (String c t) (fst (DecodeRuneInString (String c t)))
                       (snd (DecodeRuneInString (String c t))).
Proof.
  pose proof (byte_val_range c) as Hc.
  destruct (Z.lt_ge_cases (byte_val c) 0x80) as [Hlt|Hge].
  { rewrite decode_ascii by assumption. simpl. constructor. assumption. }
  assert (Herr : forall s, decoded (String c s) RuneError 1) by (intros; constructor; lia).
  destruct (lead_size_cases (byte_val c) Hc) as [[? _]|[[? E]|[[? E]|[[? E]|[? E]]]]];
    try lia.
  - unfold DecodeRuneInString. rewrite E. simpl. apply Herr.
  - destruct t as [|c1 t]; [unfold DecodeRuneInString; rewrite E; destruct (accept _); apply Herr|].
    destruct (Z.lt_ge_cases (byte_val c1) 0x80); [|destruct (Z.lt_ge_cases 0xBF (byte_val c1))].
    + unfold DecodeRuneInString. rewrite E.
      assert (Hn : (byte_val c1 <? fst (accept (byte_val c))) || (snd (accept (byte_val c)) <? byte_val c1) = true).
      { destruct ((byte_val c1 <? fst (accept (byte_val c))) || (snd (accept (byte_val c)) <? byte_val c1)) eqn:X; auto.
        apply accept_second in X; [|lia]. unfold second_ok in X. lia. }
      destruct (accept _). simpl in Hn. rewrite Hn. apply Herr.
    + unfold DecodeRuneInString. rewrite E.
      assert (Hn : (byte_val c1 <? fst (accept (byte_val c))) || (snd (accept (byte_val c)) <? byte_val c1) = true).
      { destruct ((byte_val c1 <? fst (accept (byte_val c))) || (snd (accept (byte_val c)) <? byte_val c1)) eqn:X; auto.
        apply accept_second in X; [|lia]. unfold second_ok in X. lia. }
      destruct (accept _). simpl in Hn. rewrite Hn. apply Herr.
    + rewrite decode_2 by lia. simpl. constructor; lia.
  - destruct t as [|c1 t]; [unfold DecodeRuneInString; rewrite E; destruct (accept _); apply Herr|].
    destruct ((byte_val c1 <? fst (accept (byte_val c))) || (snd (accept (byte_val c)) <? byte_val c1)) eqn:X.
    { unfold DecodeRuneInString. rewrite E. destruct (accept _). simpl in X. rewrite X. apply Herr. }
    pose proof X as X'. apply accept_second in X'; [|lia].
    destruct t as [|c2 t].
    { unfold DecodeRuneInString. rewrite E. destruct (accept _). simpl in X. rewrite X. apply Herr. }
    destruct (cont (byte_val c2)) eqn:C2.
    + apply cont_spec in C2. rewrite decode_3 by (assumption || lia). simpl. constructor; assumption || lia.
    + unfold DecodeRuneInString. rewrite E. destruct (accept _). simpl in X. rewrite X. simpl.
      rewrite C2. simpl. apply Herr.
  - destruct t as [|c1 t]; [unfold DecodeRuneInString; rewrite E; destruct (accept _); apply Herr|].
    destruct ((byte_val c1 <? fst (accept (byte_val c))) || (snd (accept (byte_val c)) <? byte_val c1)) eqn:X.
    { unfold DecodeRuneInString. rewrite E. destruct (accept _). simpl in X. rewrite X. apply Herr. }
    pose proof X as X'. apply accept_second in X'; [|lia].
    destruct t as [|c2 t].
    { unfold DecodeRuneInString. rewrite E. destruct (accept _). simpl in X. rewrite X. apply Herr. }
    destruct (cont (byte_val c2)) eqn:C2.
    2:{ unfold DecodeRuneInString. rewrite E. destruct (accept _). simpl in X. rewrite X. simpl.
        rewrite C2. simpl. apply Herr. }
    destruct t as [|c3 t].
    { unfold DecodeRuneInString. rewrite E. destruct (accept _). simpl in X. rewrite X. simpl.
      rewrite C2. simpl. apply Herr. }
    destruct (cont (byte_val c3)) eqn:C3.
    + apply cont_spec in C2, C3. rewrite decode_4 by (assumption || lia). simpl.
      constructor; assumption || lia.
    + unfold DecodeRuneInString. rewrite E. destruct (accept _). simpl in X. rewrite X. simpl.
      rewrite C2, C3. simpl. apply Herr.
Qed.

Lemma byte_of_eq z c : z = byte_val c -> byte_of z = c.
Proof. intros ->. apply byte_of_val. Qed.

Lemma encode_ascii c : byte_val c < 0x80 -> EncodeRune (byte_val c) = String c EmptyString.
Proof.
  intros H. pose proof (byte_val_range c). unfold EncodeRune.
  destruct (Z.leb_spec 0 (byte_val c)); [|lia].
  destruct (Z.ltb_spec (byte_val c) 0x80); [|lia]. simpl.
  rewrite byte_of_val. reflexivity.
Qed.

Lemma encode_2 c0 c1 :
  0xC2 <= byte_val c0 <= 0xDF -> 0x80 <= byte_val c1 <= 0xBF ->
  EncodeRune (rune2 (byte_val c0) (byte_val c1)) = String c0 (String c1 EmptyString).
Proof.
  intros H0 H1. set (r := rune2 (byte_val c0) (byte_val c1)).
  assert (Hr : 0x80 <= r < 0x800) by (unfold r, rune2; lia).
  unfold EncodeRune.
  destruct (Z.leb_spec 0 r); [|lia]. destruct (Z.ltb_spec r 0x80); [lia|].
  destruct (Z.ltb_spec r 0x800); [|lia]. simpl.
  change 0x3F with (Z.ones 6). rewrite Z.land_ones, Z.shiftr_div_pow2 by lia.
  rewrite (lor_disjoint 0xC0 _ 6), (lor_disjoint 0x80 _ 6) by arith.
  f_equal; [|f_equal]; apply byte_of_eq; unfold r, rune2; arith.
Qed.

Lemma encode_3 c0 c1 c2 :
  0xE0 <= byte_val c0 <= 0xEF -> second_ok (byte_val c0) (byte_val c1) ->
  0x80 <= byte_val c2 <= 0xBF ->
  EncodeRune (rune3 (byte_val c0) (byte_val c1) (byte_val c2))
  = String c0 (String c1 (String c2 EmptyString)).
Proof.
  intros H0 H1 H2. set (r := rune3 (byte_val c0) (byte_val c1) (byte_val c2)).
  unfold second_ok in H1.
  assert (Hr : 0x800 <= r < 0x10000 /\ ~ (0xD800 <= r <= 0xDFFF)) by (unfold r, rune3; lia).
  unfold EncodeRune, MaxRune.
  destruct (Z.leb_spec 0 r); [|lia]. destruct (Z.ltb_spec r 0x80); [lia|].
  destruct (Z.ltb_spec r 0x800); [lia|]. simpl.
  destruct (Z.ltb_spec r 0); [lia|]. destruct (Z.ltb_spec 0x10FFFF r); [lia|].
  destruct (Z.leb_spec 0xD800 r); destruct (Z.leb_spec r 0xDFFF); try lia; simpl;
    (destruct (Z.ltb_spec r 0x10000); [|lia]);
    change 0x3F with (Z.ones 6); rewrite !Z.land_ones, !Z.shiftr_div_pow2 by lia;
    rewrite (lor_disjoint 0xE0 _ 4), !(lor_disjoint 0x80 _ 6) by arith;
    (f_equal; [|f_equal; [|f_equal]]); apply byte_of_eq; unfold r, rune3; arith.
Qed.

Lemma encode_4 c0 c1 c2 c3 :
  0xF0 <= byte_val c0 <= 0xF4 -> second_ok (byte_val c0) (byte_val c1) ->
  0x80 <= byte_val c2 <= 0xBF -> 0x80 <= byte_val c3 <= 0xBF ->
  EncodeRune (rune4 (byte_val c0) (byte_val c1) (byte_val c2) (byte_val c3))
  = String c0 (String c1 (String c2 (String c3 EmptyString))).
Proof.
  intros H0 H1 H2 H3.
  set (r := rune4 (byte_val c0) (byte_val c1) (byte_val c2) (byte_val c3)).
  unfold second_ok in H1.
  assert (Hr : 0x10000 <= r <= 0x10FFFF) by (unfold r, rune4; lia).
  unfold EncodeRune, MaxRune.
  destruct (Z.leb_spec 0 r); [|lia]. destruct (Z.ltb_spec r 0x80); [lia|].
  destruct (Z.ltb_spec r 0x800); [lia|]. simpl.
  destruct (Z.ltb_spec r 0); [lia|]. destruct (Z.ltb_spec 0x10FFFF r); [lia|].
  destruct (Z.leb_spec 0xD800 r); destruct (Z.leb_spec r 0xDFFF); try lia; simpl;
    (destruct (Z.ltb_spec r 0x10000); [lia|]);
    change 0x3F with (Z.ones 6); rewrite !Z.land_ones, !Z.shiftr_div_pow2 by lia;
    rewrite (lor_disjoint 0xF0 _ 3), !(lor_disjoint 0x80 _ 6) by arith;
    (f_equal; [|f_equal; [|f_equal; [|f_equal]]]); apply byte_of_eq; unfold r, rune4; arith.
Qed.

End utf8_facts.

(** ** Strings and their lines *)

Section string_facts.
Import utf8.
Local Arguments utf8.DecodeRuneInString : simpl never.

Lemma append_cons x (a b : string) : String x a +:+ b = String x (a +:+ b).
Proof. reflexivity. Qed.

Lemma append_nil_l (b : string) : EmptyString +:+ b = b.
Proof. reflexivity. Qed.

Lemma append_assoc (a b c : string) : (a +:+ b) +:+ c = a +:+ (b +:+ c).
Proof.
  induction a as [|x a IH]; [reflexivity|].
  rewrite !append_cons, IH. reflexivity.
Qed.

Lemma append_nil_r (a : string) : a +:+ EmptyString = a.
Proof.
  induction a as [|x a IH]; [reflexivity|]. rewrite append_cons, IH. reflexivity.
Qed.

Lemma no_newline_app a b : no_newline (a +:+ b) = no_newline a && no_newline b.
Proof.
  induction a as [|x a IH]; [reflexivity|].
  rewrite append_cons. simpl. rewrite IH, andb_assoc. reflexivity.
Qed.

Lemma lines_from_line cur a rest :
  no_newline a = true ->
  lines_from cur (a +:+ newline +:+ rest) = (cur +:+ a) :: lines rest.
Proof.
  revert cur. induction a as [|x a IH]; intros cur H.
  - rewrite append_nil_l, append_nil_r. reflexivity.
  - simpl in H. apply andb_prop in H as [Hx Ha]. apply negb_true_iff in Hx.
    rewrite append_cons. simpl. rewrite Hx.
    rewrite IH by assumption. rewrite append_assoc. reflexivity.
Qed.

Lemma not_NL c : byte_val c <> 10%Z -> Ascii.eqb c NL = false.
Proof.
  intros H. apply Ascii.eqb_neq. intros ->. apply H. reflexivity.
Qed.

Lemma runes_from_0 c t :
  runes_from 0 (String c t)
  = fst (DecodeRuneInString (String c t))
    :: runes_from (pred (snd (DecodeRuneInString (String c t)))) t.
Proof. simpl. destruct (DecodeRuneInString (String c t)). reflexivity. Qed.

Lemma runes_from_no_newline s :
  forall k, high_prefix k s ->
    Forall (fun r => r <> 10%Z) (runes_from k s) -> no_newline s = true.
Proof.
  induction s as [|c t IH]; intros k Hk Hr; [reflexivity|].
  simpl. destruct k as [|k].
  - rewrite runes_from_0 in Hr. pose proof (decode_decoded c t) as Hd.
    destruct (DecodeRuneInString (String c t)) as [r n]. simpl in Hd, Hr.
    apply Forall_cons in Hr as [Hr Hrest].
    inversion Hd; subst; simpl in Hrest.
    + rewrite not_NL by assumption. apply (IH 0%nat); simpl; auto.
    + rewrite not_NL by lia. apply (IH 0%nat); simpl; auto.
    + rewrite not_NL by lia. apply (IH 1%nat); simpl; auto. split; [lia|auto].
    + rewrite not_NL by lia. unfold second_ok in *.
      apply (IH 2%nat); simpl; auto. repeat split; lia.
    + rewrite not_NL by lia. unfold second_ok in *.
      apply (IH 3%nat); simpl; auto. repeat split; lia.
  - simpl in Hk, Hr. destruct Hk as [Hc Hk]. rewrite not_NL by lia.
    apply (IH k); assumption.
Qed.

End string_facts.

(** ** The matcher decides the language of an expression *)

Section regexp_facts.
Import regexp.

Lemma matches_nil_nullable e : matches e [] -> nullable e = true.
Proof.
  intros H. remember [] as w eqn:Hw.
  induction H; simpl; try discriminate; try reflexivity.
  - destruct u; [|discriminate]. simpl in Hw. subst v.
    rewrite IHmatches1, IHmatches2; reflexivity.
  - rewrite IHmatches; auto.
  - rewrite IHmatches; auto using orb_true_r.
  - destruct u; [|discriminate]. auto.
Qed.

Lemma nullable_matches_nil e : nullable e = true -> matches e [].
Proof.
  induction e; simpl; intros H; try discriminate.
  - constructor.
  - apply andb_prop in H as [H1 H2].
    change (@nil Z) with (@nil Z ++ []). constructor; auto.
  - apply orb_prop in H as [H|H]; [apply m_alt_l|apply m_alt_r]; auto.
  - constructor.
  - change (@nil Z) with (@nil Z ++ []). constructor; auto. constructor.
  - constructor.
Qed.

(** A non-empty text in the language of a star starts with a non-empty
    text of the starred expression. *)
Lemma matches_star_cons a r w :
  matches (Star a) (r :: w) ->
  exists u v, w = u ++ v /\ matches a (r :: u) /\ matches (Star a) v.
Proof.
  intros H. remember (Star a) as e eqn:He. remember (r :: w) as t eqn:Ht.
  revert Ht. induction H; intros Ht; try discriminate.
  injection He as ->. destruct u as [|x u].
  - simpl in Ht. apply IHmatches2; auto.
  - simpl in Ht. injection Ht as -> <-. exists u, v. auto.
Qed.

Lemma step_sound r e w : matches (step r e) w -> matches e (r :: w).
Proof.
  revert w. induction e; simpl; intros w H.
  - inversion H.
  - inversion H.
  - destruct (Z.eqb_spec r0 r); inversion H; subst. constructor.
  - destruct (in_ranges ranges r) eqn:E; inversion H; subst. constructor; auto.
  - destruct (Z.eqb_spec r 10); inversion H; subst. constructor; auto.
  - destruct (nullable e1) eqn:E.
    + inversion H; subst.
      * match goal with X : matches (Concat _ _) _ |- _ => inversion X; subst end.
        change (r :: u ++ v) with ((r :: u) ++ v). constructor; auto.
      * change (r :: w) with ([] ++ r :: w). constructor; auto.
        apply nullable_matches_nil; auto.
    + inversion H; subst.
      change (r :: u ++ v) with ((r :: u) ++ v). constructor; auto.
  - inversion H; subst; [apply m_alt_l|apply m_alt_r]; auto.
  - inversion H; subst.
    change (r :: u ++ v) with ((r :: u) ++ v). constructor; auto.
  - inversion H; subst.
    change (r :: u ++ v) with ((r :: u) ++ v). constructor; auto.
  - apply m_quest_one; auto.
Qed.

Lemma step_complete r e w : matches e (r :: w) -> matches (step r e) w.
Proof.
  revert w. induction e; simpl; intros w H.
  - inversion H.
  - inversion H.
  - inversion H; subst. rewrite Z.eqb_refl. constructor.
  - inversion H; subst. match goal with X : in_ranges _ _ = true |- _ => rewrite X end.
    constructor.
  - inversion H; subst. destruct (Z.eqb_spec r 10); [contradiction|constructor].
  - inversion H; subst. destruct u as [|x u].
    + match goal with X : [] ++ _ = _ |- _ => simpl in X; subst v end.
      rewrite (matches_nil_nullable e1) by assumption.
      apply m_alt_r; auto.
    + match goal with X : (_ :: _) ++ _ = _ |- _ => simpl in X; injection X as -> <- end.
      destruct (nullable e1); [apply m_alt_l|]; constructor; auto.
  - inversion H; subst; [apply m_alt_l|apply m_alt_r]; auto.
  - apply matches_star_cons in H as (u & v & -> & Hu & Hv). constructor; auto.
  - inversion H; subst. destruct u as [|x u].
    + match goal with X : [] ++ _ = _ |- _ => simpl in X; subst v end.
      match goal with X : matches (Star _) _ |- _ =>
        apply matches_star_cons in X as (u & v & -> & Hu & Hv) end.
      constructor; auto.
    + match goal with X : (_ :: _) ++ _ = _ |- _ => simpl in X; injection X as -> <- end.
      constructor; auto.
  - inversion H; subst. auto.
Qed.

Lemma run_matches e w : run e w = true <-> matches e w.
Proof.
  revert e. induction w as [|r w IH]; intros e; simpl.
  - split; [apply nullable_matches_nil|apply matches_nil_nullable].
  - rewrite IH. split; [apply step_sound|apply step_complete].
Qed.

Lemma matches_star_any w :
  Forall (fun r => in_ranges [(0, 0x10FFFF)%Z] r = true) w -> matches (Star any_rune) w.
Proof.
  induction 1 as [|r w Hr _ IH]; [constructor|].
  change (r :: w) with ([r] ++ w). constructor; auto. constructor; auto.
Qed.

(** On the two patterns of the program, anchored at both ends,
    [MatchString] is a match of the whole text. *)
Lemma MatchString_anchored e s :
  MatchString (mkRegexp true e true) s = true <-> matches e (utf8.runes s).
Proof.
  unfold MatchString, whole. simpl. rewrite run_matches. split.
  - intros H. inversion H; subst.
    match goal with X : matches EmptyMatch _ |- _ => inversion X; subst end.
    match goal with X : matches (Concat _ EmptyMatch) _ |- _ => inversion X; subst end.
    match goal with X : matches EmptyMatch _ |- _ => inversion X; subst end.
    simpl. rewrite app_nil_r. assumption.
  - intros H. change (utf8.runes s) with ([] ++ utf8.runes s). constructor; [constructor|].
    rewrite <- (app_nil_r (utf8.runes s)). constructor; [assumption|constructor].
Qed.

Lemma matches_never_newline e w :
  matches e w -> never_newline e = true -> Forall (fun r => r <> 10%Z) w.
Proof.
  induction 1; simpl; intros Hn; auto.
  - constructor; auto. apply negb_true_iff in Hn. apply Z.eqb_neq in Hn. auto.
  - constructor; auto. intros ->. rewrite H in Hn. discriminate.
  - apply andb_prop in Hn as [? ?]. apply Forall_app; auto.
  - apply andb_prop in Hn as [? ?]. auto.
  - apply andb_prop in Hn as [? ?]. auto.
  - apply Forall_app; auto.
  - apply Forall_app; auto.
Qed.

Lemma MatchString_no_newline e s :
  never_newline e = true ->
  MatchString (mkRegexp true e true) s = true -> no_newline s = true.
Proof.
  intros Hn Hm. apply MatchString_anchored in Hm.
  apply (runes_from_no_newline s 0%nat); [simpl; destruct s; exact I|].
  eapply matches_never_newline; eauto.
Qed.

End regexp_facts.

(** ** Texts whose runes are ASCII *)

Section ascii_facts.
Import utf8.
Local Open Scope Z_scope.
Local Arguments utf8.DecodeRuneInString : simpl never.

(** Only a byte below [RuneSelf] decodes to a rune below it. *)
Lemma decoded_low s r n : decoded s r n -> r < 0x80 ->
  exists c t, s = String c t /\ r = byte_val c /\ n = 1%nat.
Proof.
  intros Hd Hr. inversion Hd; subst; unfold RuneError, rune2, rune3, rune4, second_ok in *.
  - eauto.
  - lia.
  - lia.
  - lia.
  - lia.
Qed.

Lemma runes_cons_low s r w :
  runes s = r :: w -> r < 0x80 ->
  exists c t, s = String c t /\ r = byte_val c /\ runes t = w.
Proof.
  unfold runes. destruct s as [|c t]; [discriminate|].
  rewrite runes_from_0. intros H Hr. injection H as H1 H2.
  pose proof (decode_decoded c t) as Hd. rewrite H1 in Hd.
  apply decoded_low in Hd as (c' & t' & E & -> & En); [|assumption].
  injection E as <- <-. rewrite En in H2. simpl in H2. eauto.
Qed.

Lemma runes_nil s : runes s = [] -> s = EmptyString.
Proof.
  unfold runes. destruct s as [|c t]; [reflexivity|].
  rewrite runes_from_0. discriminate.
Qed.

Lemma runes_low_cons c t :
  byte_val c < 0x80 -> runes (String c t) = byte_val c :: runes t.
Proof.
  intros H. unfold runes. rewrite runes_from_0, decode_ascii by assumption.
  reflexivity.
Qed.

Lemma all_bytes_cons p c t : all_bytes p (String c t) = p c && all_bytes p t.
Proof. reflexivity. Qed.

End ascii_facts.

(** ** The two patterns of the metric model, byte by byte *)

Section model_pattern_facts.
Import utf8 regexp.
Local Open Scope Z_scope.

Lemma matches_star_class R w :
  matches (Star (CharClass R)) w <-> Forall (fun r => in_ranges R r = true) w.
Proof.
  split.
  - intros H. remember (Star (CharClass R)) as e eqn:He.
    induction H; try discriminate.
    + constructor.
    + injection He as ->. inversion H; subst. constructor; auto.
  - induction 1 as [|r w Hr _ IH]; [constructor|].
    change (r :: w) with ([r] ++ w). constructor; [constructor|]; assumption.
Qed.

Lemma matches_plus_class R w :
  matches (Plus (CharClass R)) w
  <-> w <> [] /\ Forall (fun r => in_ranges R r = true) w.
Proof.
  split.
  - inversion 1 as [| | | | | | | | |a u v Hu Hv| |]; subst.
    inversion Hu; subst. apply matches_star_class in Hv.
    split; [discriminate|]. constructor; assumption.
  - intros [Hne Hall]. destruct Hall as [|r w Hr Hw]; [congruence|].
    change (r :: w) with ([r] ++ w). constructor; [constructor; assumption|].
    apply matches_star_class. assumption.
Qed.

(** The runes of a text are all in a class of low runes exactly when its
    bytes are. *)
Lemma runes_in_low_class R s :
  (forall r, in_ranges R r = true -> r < 0x80) ->
  Forall (fun r => in_ranges R r = true) (runes s)
  <-> all_bytes (fun c => in_ranges R (byte_val c)) s = true.
Proof.
  intros Hlow. induction s as [|c t IH].
  - split; [reflexivity|constructor].
  - rewrite all_bytes_cons, andb_true_iff, <- IH. split.
    + intros H. destruct (runes (String c t)) as [|r w] eqn:E;
        [apply runes_nil in E; discriminate|].
      apply Forall_cons in H as [Hr Hw].
      apply runes_cons_low in E as (c' & t' & Es & -> & <-); [|auto].
      injection Es as <- <-. auto.
    + intros [Hc Ht]. rewrite runes_low_cons by auto. constructor; assumption.
Qed.

Lemma runes_cons_ne c t : runes (String c t) <> [].
Proof. intros E. apply runes_nil in E. discriminate. Qed.

Lemma text_byte_ranges c :
  in_ranges (word_ranges ++ [(45, 45); (47, 47)]) (byte_val c) = text_byte c.
Proof.
  unfold text_byte, in_ranges, word_ranges. cbn [app existsb fst snd].
  apply eq_true_iff_eq.
  rewrite !orb_true_iff, !andb_true_iff, !Z.leb_le, !Z.eqb_eq. lia.
Qed.

Lemma digit_byte_ranges c : in_ranges [(48, 57)] (byte_val c) = digit_byte c.
Proof.
  unfold digit_byte, in_ranges. cbn [existsb fst snd]. apply orb_false_r.
Qed.

Lemma all_bytes_ext p q s : (forall c, p c = q c) -> all_bytes p s = all_bytes q s.
Proof.
  intros H. induction s as [|c t IH]; [reflexivity|].
  rewrite !all_bytes_cons, H, IH. reflexivity.
Qed.

Lemma textRegex_runes s :
  MatchString textRegex s = true
  <-> runes s <> [] /\ all_bytes text_byte s = true.
Proof.
  unfold textRegex. rewrite MatchString_anchored, matches_plus_class.
  rewrite runes_in_low_class.
  - rewrite (all_bytes_ext _ text_byte) by apply text_byte_ranges. reflexivity.
  - intros r. unfold in_ranges, word_ranges. cbn [app existsb fst snd].
    rewrite !orb_true_iff, !andb_true_iff, !Z.leb_le. lia.
Qed.

Lemma textRegex_only s :
  MatchString textRegex s = true ->
  s <> EmptyString /\ all_bytes text_byte s = true.
Proof.
  intros H. apply textRegex_runes in H as [Hr Hb]. split; [|exact Hb].
  intros ->. apply Hr. reflexivity.
Qed.

(** A text that starts with low bytes starts with their runes. *)
Lemma runes_low_app a b :
  all_bytes low_byte a = true -> runes (a +:+ b) = runes a ++ runes b.
Proof.
  induction a as [|c a IH]; intros Hl.
  - rewrite append_nil_l. reflexivity.
  - rewrite all_bytes_cons in Hl. apply andb_prop in Hl as [Hc Ha].
    apply Z.ltb_lt in Hc. rewrite append_cons, !runes_low_cons by assumption.
    rewrite IH by assumption. reflexivity.
Qed.

(** A text whose runes start with low ones splits after them. *)
Lemma runes_app_low R u : forall v s,
  (forall r, in_ranges R r = true -> r < 0x80) ->
  Forall (fun r => in_ranges R r = true) u ->
  runes s = u ++ v ->
  exists a b, s = a +:+ b /\ runes a = u /\ runes b = v /\
    all_bytes (fun c => in_ranges R (byte_val c)) a = true.
Proof.
  induction u as [|r u IH]; intros v s Hlow Hu Hs.
  - exists EmptyString, s. rewrite append_nil_l. auto.
  - apply Forall_cons in Hu as [Hr Hu]. simpl in Hs.
    apply runes_cons_low in Hs as (c & t & -> & -> & Ht); [|auto].
    destruct (IH v t Hlow Hu Ht) as (a & b & -> & Ha & Hb & Hall).
    exists (String c a), b. rewrite append_cons, all_bytes_cons, Hr, Hall.
    rewrite runes_low_cons by auto. rewrite Ha. auto.
Qed.

Lemma digit_low c : digit_byte c = true -> low_byte c = true.
Proof.
  unfold digit_byte, low_byte. rewrite andb_true_iff, !Z.leb_le, Z.ltb_lt. lia.
Qed.

Lemma all_bytes_impl (p q : ascii -> bool) s :
  (forall c, p c = true -> q c = true) -> all_bytes p s = true -> all_bytes q s = true.
Proof.
  intros H. induction s as [|c t IH]; [reflexivity|].
  rewrite !all_bytes_cons, !andb_true_iff. intros [? ?]. auto.
Qed.

(** The text pattern, byte by byte. *)
Lemma textRegex_text s : MatchString textRegex s = true <-> text s.
Proof.
  unfold text. split; [apply textRegex_only|]. intros [Hne Hb].
  apply textRegex_runes. split; [|exact Hb].
  destruct s as [|x t]; [congruence|apply runes_cons_ne].
Qed.

(** The value pattern, byte by byte. *)
Lemma valueRegex_bytes s : MatchString valueRegex s = true <-> value_text s.
Proof.
  unfold value_text.
  unfold valueRegex. rewrite MatchString_anchored.
  assert (Hlow : forall r, in_ranges [(48, 57)] r = true -> r < 0x80).
  { intros r. unfold in_ranges. cbn [existsb fst snd].
    rewrite !orb_true_iff, !andb_true_iff, !Z.leb_le. lia. }
  split.
  - inversion 1 as [| | | |a b u v Hu Hv Ea Ew| | | | | | |]; subst.
    apply matches_plus_class in Hu as [Hne Hu].
    symmetry in Ew.
    destruct (runes_app_low _ u v s Hlow Hu Ew) as (ds & rest & -> & Hd & Hr & Hall).
    rewrite (all_bytes_ext _ digit_byte) in Hall by apply digit_byte_ranges.
    exists ds, rest. repeat split; auto.
    + intros ->. apply Hne. symmetry. exact Hd.
    + inversion Hv as [| | | | | | | | | |a|a w Hw]; subst.
      * left. apply runes_nil. congruence.
      * right. inversion Hw as [| | | |a b x y Hx Hy| | | | | | |]; subst.
        inversion Hx; subst. inversion Hy; subst. eauto.
  - intros (ds & rest & -> & Hne & Hall & Hrest).
    rewrite runes_low_app by (eapply all_bytes_impl; [apply digit_low|assumption]).
    constructor.
    + apply matches_plus_class. split.
      * destruct ds; [congruence|apply runes_cons_ne].
      * apply (runes_in_low_class _ ds Hlow).
        rewrite (all_bytes_ext _ digit_byte) by apply digit_byte_ranges. assumption.
    + destruct Hrest as [->|(r & Hr & ->)].
      * apply m_quest_nil.
      * apply m_quest_one. change [r; 43] with ([r] ++ [43]).
        constructor; constructor. assumption.
Qed.

End model_pattern_facts.

(** ** Validation of a metric *)

Lemma validate_tags_Forall order :
  validate_tags order = true <-> Forall text_pair order.
Proof.
  induction order as [|[k v] order IH]; simpl.
  - split; auto.
  - rewrite Forall_cons. unfold text_pair at 1. simpl.
    destruct (regexp.MatchString textRegex k), (regexp.MatchString textRegex v);
      simpl; rewrite ?IH; intuition discriminate.
Qed.

(** The loop over the tags gives the same answer in every visiting
    order. *)
Lemma validate_tags_Permutation o1 o2 :
  o1 ≡ₚ o2 -> validate_tags o1 = validate_tags o2.
Proof.
  intros Hp.
  destruct (validate_tags o1) eqn:E1, (validate_tags o2) eqn:E2; auto.
  - apply validate_tags_Forall in E1. rewrite Hp in E1.
    apply validate_tags_Forall in E1. congruence.
  - apply validate_tags_Forall in E2. rewrite <- Hp in E2.
    apply validate_tags_Forall in E2. congruence.
Qed.

Lemma metric_Validate_in_order m order :
  range_order (Tags m) order -> metric_Validate_in order m = metric_Validate m.
Proof.
  unfold range_order, metric_Validate, metric_Validate_in. intros Hp.
  rewrite (validate_tags_Permutation _ _ Hp). reflexivity.
Qed.

Lemma metric_Validate_andb m :
  metric_Validate m =
    regexp.MatchString textRegex (Name m)
    && regexp.MatchString textRegex (Type_ m)
    && regexp.MatchString valueRegex (Value m)
    && validate_tags (map_to_list (entries (Tags m))).
Proof.
  unfold metric_Validate, metric_Validate_in.
  destruct (regexp.MatchString textRegex (Name m)),
           (regexp.MatchString textRegex (Type_ m)),
           (regexp.MatchString valueRegex (Value m)); reflexivity.
Qed.

Lemma metric_Validate_true m : metric_Validate m = true <-> well_formed m.
Proof.
  rewrite metric_Validate_andb, !andb_true_iff, validate_tags_Forall, Forall_forall.
  unfold well_formed. rewrite !textRegex_text, valueRegex_bytes.
  split.
  - intros [[[Hn Ht] Hv] Htags]. split; [exact Hn|]. split; [exact Ht|].
    split; [exact Hv|]. intros k v Hkv.
    assert (Hp : text_pair (k, v))
      by (apply Htags, elem_of_map_to_list; assumption).
    destruct Hp as [Hk Hv']. split; apply textRegex_text; assumption.
  - intros (Hn & Ht & Hv & Htags). split; [auto|]. intros [k v] Hkv.
    apply elem_of_map_to_list, Htags in Hkv as [Hk Hv'].
    split; apply textRegex_text; assumption.
Qed.

(** C3: [Validate] on a metric is true exactly when the name and the type
    are texts of the pattern [^[\w\-/]+$], that is not empty and made of
    ASCII letters, digits, underscores, hyphens and slashes; the value is a
    text of the pattern [^\d+(.\+)?$], that is one ASCII digit or more,
    followed either by nothing or by one rune other than the newline and a
    plus sign; and every tag key and tag value is a text of the first
    pattern.  It is false as soon as one of them is not, whatever the order
    in which the tags are visited. *)
Theorem metric_Validate_spec (m : metric) :
  (metric_Validate m = true <-> well_formed m) /\
  (metric_Validate m = false <-> ~ well_formed m) /\
  (forall order, range_order (Tags m) order ->
     metric_Validate_in order m = metric_Validate m).
Proof.
  split; [apply metric_Validate_true|]. split.
  - rewrite <- metric_Validate_true. destruct (metric_Validate m); intuition congruence.
  - intros order. apply metric_Validate_in_order.
Qed.

(** C4: under the value pattern as written, a metric whose value is "1.5"
    fails [Validate] whatever its other fields are, and the same metric
    with the value "5" passes as soon as its other fields are valid. *)
Theorem value_1_5_rejected_5_accepted (name type : string) (tags : gomap) :
  (exists v, metric_Validate (mkMetric name type tags v) = true) ->
  metric_Validate (mkMetric name type tags "1.5") = false /\
  metric_Validate (mkMetric name type tags "5") = true.
Proof.
  intros [v Hv]. rewrite metric_Validate_andb in Hv. simpl in Hv.
  rewrite !metric_Validate_andb. simpl.
  apply andb_prop in Hv as [Hv Htags]. apply andb_prop in Hv as [Hv _].
  rewrite Hv, Htags. split; reflexivity.
Qed.

Lemma value_1_5_rejected_5_accepted_witness :
  metric_Validate (mkMetric "up" "gauge" None "1.5") = false /\
  metric_Validate (mkMetric "up" "gauge" None "5") = true.
Proof.
  apply (value_1_5_rejected_5_accepted "up" "gauge" None).
  exists "1"%string. vm_compute. reflexivity.
Defined.

(** ** Validation and rendering of a metric file *)

Lemma validate_metrics_true ms :
  validate_metrics ms = true <-> Forall (fun x => metric_Validate x = true) ms.
Proof.
  induction ms as [|x ms IH]; simpl.
  - split; auto.
  - rewrite Forall_cons. destruct (metric_Validate x); simpl; rewrite ?IH;
      intuition discriminate.
Qed.

Lemma validate_metrics_false ms :
  validate_metrics ms = false <-> Exists (fun x => metric_Validate x = false) ms.
Proof.
  induction ms as [|x ms IH]; simpl.
  - split; [discriminate|]. intros H. inversion H.
  - rewrite Exists_cons. destruct (metric_Validate x); simpl; rewrite ?IH;
      intuition discriminate.
Qed.

Lemma metricFile_Validate_true mf :
  metricFile_Validate mf = true <->
  FileName mf <> EmptyString /\
  Forall (fun x => metric_Validate x = true) (elems (Metrics mf)).
Proof.
  unfold metricFile_Validate.
  destruct (String.eqb_spec (FileName mf) EmptyString) as [E|E].
  - split; [discriminate|]. intros [H _]. contradiction.
  - rewrite validate_metrics_true. intuition.
Qed.

Lemma render_all_nil orders : render_all orders [] = EmptyString.
Proof. destruct orders; reflexivity. Qed.

(** C6: [Validate] on a metric file is false when the name is empty or
    some metric of the file fails its own [Validate], and true otherwise;
    so a file with a name and no metric is valid, and it renders to the
    empty text. *)
Theorem metricFile_Validate_spec (mf : metricFile) :
  (metricFile_Validate mf = false <->
     FileName mf = EmptyString \/
     Exists (fun x => metric_Validate x = false) (elems (Metrics mf))) /\
  (metricFile_Validate mf = true <->
     FileName mf <> EmptyString /\
     Forall (fun x => metric_Validate x = true) (elems (Metrics mf))) /\
  (FileName mf <> EmptyString -> elems (Metrics mf) = [] ->
     metricFile_Validate mf = true /\
     forall orders, metricFile_String orders mf = EmptyString).
Proof.
  split; [|split].
  - unfold metricFile_Validate.
    destruct (String.eqb_spec (FileName mf) EmptyString) as [E|E].
    + split; auto.
    + rewrite validate_metrics_false. intuition.
  - apply metricFile_Validate_true.
  - intros Hname Hnil. split.
    + apply metricFile_Validate_true. rewrite Hnil. auto.
    + intros orders. unfold metricFile_String. rewrite Hnil. apply render_all_nil.
Qed.

Lemma metricFile_Validate_spec_witness :
  metricFile_Validate (mkMetricFile "a" (Some [])) = true /\
  forall orders, metricFile_String orders (mkMetricFile "a" (Some [])) = EmptyString.
Proof.
  apply (metricFile_Validate_spec (mkMetricFile "a" (Some []))).
  - discriminate.
  - reflexivity.
Defined.

(** ** The value pattern lets a space, a quote or a brace through *)

(** C10: the values "1 +", "1" followed by a quote and "+", and "1{+" all
    pass [Validate], since the dot of the value pattern takes any rune but
    the newline; a metric file that holds such a metric is valid, and its
    rendered text carries the space, the quote or the brace where the value
    of the sample line stands. *)
Theorem value_pattern_accepts_punctuation :
  Forall
    (fun v =>
       let m := mkMetric "up" "gauge" None v in
       regexp.MatchString valueRegex v = true /\
       metric_Validate m = true /\
       metricFile_Validate (mkMetricFile "f" (Some [m])) = true /\
       forall orders,
         metricFile_String orders (mkMetricFile "f" (Some [m]))
         = "# TYPE up gauge" +:+ newline +:+ "up " +:+ v +:+ newline +:+ newline)
    ["1 +"; "1" +:+ quote +:+ "+"; "1{+"] /\
  (forall c : ascii,
     regexp.MatchString valueRegex (String "1" (String c "+"))
     = negb (Ascii.eqb c (ascii_of_nat 10))).
Proof.
  split.
  - repeat constructor; intros [|o orders]; reflexivity.
  - intros [[] [] [] [] [] [] [] []]; vm_compute; reflexivity.
Qed.

(** ** Rendering of a metric *)

Lemma metric_String_lines order m :
  metric_String order m
  = type_line m +:+ newline
    +:+ sample_line m (metric_TagString order m) +:+ newline +:+ newline.
Proof.
  unfold metric_String, type_line, sample_line.
  rewrite !append_assoc. reflexivity.
Qed.



Lemma textRegex_no_newline s :
  regexp.MatchString textRegex s = true -> no_newline s = true.
Proof. apply MatchString_no_newline. reflexivity. Qed.

Lemma valueRegex_no_newline s :
  regexp.MatchString valueRegex s = true -> no_newline s = true.
Proof. apply MatchString_no_newline. reflexivity. Qed.

Lemma Join_no_newline elts :
  Forall (fun s => no_newline s = true) elts -> no_newline (Join elts ",") = true.
Proof.
  induction 1 as [|x elts Hx _ IH]; [reflexivity|].
  destruct elts as [|y elts]; [exact Hx|].
  change (Join (x :: y :: elts) ",") with (x +:+ "," +:+ Join (y :: elts) ",").
  rewrite !no_newline_app, Hx, IH. reflexivity.
Qed.

Lemma tag_block_no_newline order :
  Forall text_pair order -> no_newline (tag_block order) = true.
Proof.
  intros H. unfold tag_block. rewrite !no_newline_app. simpl.
  rewrite Join_no_newline; [reflexivity|].
  apply Forall_map. eapply Forall_impl; [exact H|].
  intros [k v] [Hk Hv]. unfold tag_assignment. simpl in *.
  rewrite !no_newline_app, (textRegex_no_newline k), (textRegex_no_newline v) by assumption.
  reflexivity.
Qed.













(** ** Aggregation over the stored files *)

Section aggregation.

Context (P : Platform) (c : config) (client : Client P) (store : S3 P).

Lemma append_elems {A} (s xs : slice A) : elems (append s xs) = elems s ++ elems xs.
Proof.
  unfold append. destruct (elems xs) eqn:E; simpl.
  - rewrite app_nil_r. reflexivity.
  - reflexivity.
Qed.

(** The loop of [readMetrics] when every file reads well. *)
Lemma read_files_ok files mfs all :
  Forall2 (fun f mf => readMetricFile P c client store f = (mf, None)) files mfs ->
  exists all',
    read_files P c client store files all = (all', None) /\
    FileName all' = FileName all /\
    elems (Metrics all')
    = elems (Metrics all) ++ concat (map (fun mf => elems (Metrics mf)) mfs).
Proof.
  intros H. revert all. induction H as [|f mf files mfs Hf _ IH]; intros all; simpl.
  - exists all. rewrite app_nil_r. auto.
  - rewrite Hf. destruct (IH (mkMetricFile (FileName all)
                                (append (Metrics all) (Metrics mf))))
      as (all' & Hr & Hn & He).
    exists all'. split; [exact Hr|]. split; [exact Hn|].
    rewrite He. simpl. rewrite append_elems, app_assoc. reflexivity.
Qed.

(** The loop of [readMetrics] when a file fails after files that read
    well. *)
Lemma read_files_error pre f post e all :
  Forall (fun g => snd (readMetricFile P c client store g) = None) pre ->
  snd (readMetricFile P c client store f) = Some e ->
  read_files P c client store (pre ++ f :: post) all = (zero_metricFile, Some e).
Proof.
  intros Hpre Hf. revert all. induction Hpre as [|g pre Hg _ IH]; intros all; simpl.
  - destruct (readMetricFile P c client store f) as [mf err]. simpl in Hf. subst err.
    reflexivity.
  - destruct (readMetricFile P c client store g) as [mf err]. simpl in Hg. subst err.
    apply IH.
Qed.

Lemma first_failure files :
  Exists (fun f => snd (readMetricFile P c client store f) <> None) files ->
  exists pre f post e,
    files = pre ++ f :: post /\
    Forall (fun g => snd (readMetricFile P c client store g) = None) pre /\
    snd (readMetricFile P c client store f) = Some e.
Proof.
  induction files as [|g files IH]; intros H; [inversion H|].
  destruct (snd (readMetricFile P c client store g)) as [e|] eqn:Eg.
  - exists [], g, files, e. auto.
  - apply Exists_cons in H as [H|H]; [congruence|].
    destruct (IH H) as (pre & f & post & e & -> & Hpre & Hf).
    exists (g :: pre), f, post, e. split; [reflexivity|]. split; [|exact Hf].
    constructor; assumption.
Qed.

Lemma readMetricFile_fails_iff f :
  snd (readMetricFile P c client store f) <> None <-> object_fails P c client store f.
Proof.
  unfold readMetricFile, object_fails.
  destruct (GetObject P client store (MetricBucket c) f) as [result [e|]]; simpl.
  { split; [left; discriminate|discriminate]. }
  destruct (ReadAll result) as [body [e|]]; simpl.
  { split; [right; left; discriminate|discriminate]. }
  destruct (json.Unmarshal body zero_metricFile) as [mf [e|]]; simpl.
  { split; [right; right; left; discriminate|discriminate]. }
  destruct (metricFile_Validate mf); simpl.
  - split; [congruence|]. intros [H|[H|[H|H]]]; congruence.
  - split; [auto|discriminate].
Qed.

Lemma readMetricFile_holds f mf :
  object_holds P c client store f mf ->
  readMetricFile P c client store f = (mf, None).
Proof.
  intros (result & body & Hget & Hread & Hdec & Hval). unfold readMetricFile.
  rewrite Hget, Hread, Hdec, Hval. reflexivity.
Qed.

(** C1: when the listing succeeds and every listed object is fetched,
    decoded and validated, [readMetrics] returns without error the file
    named "__all__" whose metrics are those of the files one after the
    other, in the order of the listing and with the order inside each file
    kept; so its rendering is the renderings of the files in that order,
    and the files [a] with the metric [up] and [b] with the metric [down]
    render to the stanza of [up] followed by the stanza of [down]. *)
Theorem readMetrics_concatenates (files : list string) (mfs : list metricFile) :
  listMetricFiles P c client store = (files, None) ->
  Forall2 (object_holds P c client store) files mfs ->
  exists all,
    readMetrics P c client store = (all, None) /\
    FileName all = "__all__" /\
    elems (Metrics all) = concat (map (fun mf => elems (Metrics mf)) mfs) /\
    (forall orders,
       metricFile_String orders all
       = render_all orders (concat (map (fun mf => elems (Metrics mf)) mfs))) /\
    (files = ["a"; "b"] -> mfs = [file_a; file_b] ->
     forall orders,
       metricFile_String orders all
       = "# TYPE up gauge" +:+ newline +:+ "up 1" +:+ newline +:+ newline
         +:+ "# TYPE down gauge" +:+ newline +:+ "down 0" +:+ newline +:+ newline).
Proof.
  intros Hlist Hfiles. unfold readMetrics. rewrite Hlist.
  assert (Hread : Forall2 (fun f mf => readMetricFile P c client store f = (mf, None))
                          files mfs).
  { eapply Forall2_impl; [exact Hfiles|]. apply readMetricFile_holds. }
  destruct (read_files_ok files mfs (mkMetricFile "__all__" None) Hread)
    as (all & Hr & Hn & He).
  simpl in Hn, He. exists all. split; [exact Hr|]. split; [exact Hn|].
  split; [exact He|]. split.
  - intros orders. unfold metricFile_String. rewrite He. reflexivity.
  - intros _ -> orders. unfold metricFile_String. rewrite He.
    destruct orders as [|o1 [|o2 orders]]; reflexivity.
Qed.

(** C2: when the listing succeeds and some listed object fails to be
    fetched, decoded or validated, [readMetrics] returns an error together
    with the empty metric file, whatever the objects before it held; the
    error is that of the first object that fails, and for an object that
    fails validation it names the key of the object. *)
Theorem readMetrics_fail_fast (files : list string) :
  listMetricFiles P c client store = (files, None) ->
  Exists (object_fails P c client store) files ->
  (exists e, readMetrics P c client store = (zero_metricFile, Some e)) /\
  (forall pre f post e,
     files = pre ++ f :: post ->
     Forall (fun g => ~ object_fails P c client store g) pre ->
     readMetricFile P c client store f = (zero_metricFile, Some e) ->
     readMetrics P c client store = (zero_metricFile, Some e)) /\
  (forall f result body mf,
     GetObject P client store (MetricBucket c) f = (result, None) ->
     ReadAll result = (body, None) ->
     json.Unmarshal body zero_metricFile = (mf, None) ->
     metricFile_Validate mf = false ->
     readMetricFile P c client store f
     = (zero_metricFile, Some ("failed validation for " +:+ f))).
Proof.
  intros Hlist Hfail. split; [|split].
  - assert (Hex : Exists (fun f => snd (readMetricFile P c client store f) <> None) files).
    { eapply Exists_impl; [exact Hfail|]. intros f. apply readMetricFile_fails_iff. }
    destruct (first_failure files Hex) as (pre & f & post & e & -> & Hpre & Hf).
    exists e. unfold readMetrics. rewrite Hlist. apply read_files_error; assumption.
  - intros pre f post e -> Hpre Hf. unfold readMetrics. rewrite Hlist.
    apply read_files_error.
    + eapply Forall_impl; [exact Hpre|]. intros g Hg. simpl in Hg.
      destruct (snd (readMetricFile P c client store g)) eqn:E; [|reflexivity].
      exfalso. apply Hg. apply readMetricFile_fails_iff. rewrite E. discriminate.
    + rewrite Hf. reflexivity.
  - intros f result body mf Hget Hread Hdec Hval. unfold readMetricFile.
    rewrite Hget, Hread, Hdec, Hval. reflexivity.
Qed.

Lemma list_pages_empty pages acc :
  Forall (fun page => page = ([], None)) pages ->
  list_pages pages acc = (acc, None).
Proof.
  intros H. revert acc. induction H as [|page pages -> _ IH]; intros acc; simpl.
  - reflexivity.
  - rewrite app_nil_r. apply IH.
Qed.

End aggregation.

Lemma readMetrics_concatenates_witness :
  exists all,
    readMetrics memory example_config tt (store_a_b example_config) = (all, None) /\
    FileName all = "__all__" /\
    elems (Metrics all) = [mkMetric "up" "gauge" None "1"; mkMetric "down" "gauge" None "0"] /\
    forall orders,
      metricFile_String orders all
      = "# TYPE up gauge" +:+ newline +:+ "up 1" +:+ newline +:+ newline
        +:+ "# TYPE down gauge" +:+ newline +:+ "down 0" +:+ newline +:+ newline.
Proof.
  destruct (readMetrics_concatenates memory example_config tt
              (store_a_b example_config) ["a"; "b"] [file_a; file_b])
    as (all & Hr & Hn & He & _ & Hs).
  - vm_compute. reflexivity.
  - repeat constructor; eexists _, _; repeat split; vm_compute; reflexivity.
  - exists all. split; [exact Hr|]. split; [exact Hn|]. split; [exact He|].
    apply Hs; reflexivity.
Defined.

Lemma readMetrics_fail_fast_witness :
  (exists e,
     readMetrics memory example_config tt store_b_invalid = (zero_metricFile, Some e)) /\
  readMetrics memory example_config tt store_b_invalid
  = (zero_metricFile, Some "failed validation for b").
Proof.
  destruct (readMetrics_fail_fast memory example_config tt store_b_invalid ["a"; "b"])
    as (Hex & Hfirst & _).
  - vm_compute. reflexivity.
  - apply Exists_cons_tl, Exists_cons_hd. unfold object_fails.
    vm_compute. right. right. right. reflexivity.
  - split; [exact Hex|].
    apply (Hfirst ["a"] "b" []); [reflexivity| |vm_compute; reflexivity].
    constructor; [|constructor]. unfold object_fails. vm_compute.
    intros [H|[H|[H|H]]]; congruence.
Defined.

(** ** The read path on an empty store *)

(** C9: when the listing has no key, [readMetrics] succeeds with the file
    named "__all__" and no metric, and the read path answers with the empty
    document. *)
Theorem empty_listing_renders_empty (P : Platform) (c : config) (store : S3 P) :
  (forall client,
     listing_empty P c client store ->
     readMetrics P c client store = (mkMetricFile "__all__" None, None)) /\
  (snd (getClient P) = None ->
   listing_empty P c (fst (getClient P)) store ->
   forall orders req, indexHandler P c orders req store = Succeed EmptyString).
Proof.
  assert (Hread : forall client, listing_empty P c client store ->
            readMetrics P c client store = (mkMetricFile "__all__" None, None)).
  { intros client Hl. unfold readMetrics, listMetricFiles.
    rewrite (list_pages_empty _ _ Hl). reflexivity. }
  split; [exact Hread|].
  intros Hc Hl orders req. unfold indexHandler.
  destruct (getClient P) as [client err]. simpl in Hc, Hl. subst err.
  rewrite (Hread client Hl). reflexivity.
Qed.

Lemma empty_listing_renders_empty_witness :
  readMetrics memory example_config tt ∅ = (mkMetricFile "__all__" None, None) /\
  forall orders req, indexHandler memory example_config orders req ∅ = Succeed EmptyString.
Proof.
  destruct (empty_listing_renders_empty memory example_config ∅) as [Hread Hindex].
  split.
  - apply Hread. vm_compute. repeat constructor.
  - apply Hindex; [reflexivity|]. vm_compute. repeat constructor.
Defined.

(** ** The ingest path *)

(** C7: a submission whose body cannot be decoded, or whose decoded file
    fails validation, gets a failure response and leaves the store as it
    was: [PutObject] is reached only once validation has passed.  So a
    submission whose name is empty is never stored. *)
Theorem metricHandler_validates_before_store (P : Platform) (c : config)
    (req : Request P) (store : S3 P) :
  (forall e,
     snd (DecodedBody P req) = Some e ->
     metricHandler P c req store = (Fail ("failed to decode: " +:+ e), store)) /\
  (forall body mf e,
     DecodedBody P req = (body, None) ->
     json.Unmarshal body zero_metricFile = (mf, Some e) ->
     metricHandler P c req store = (Fail ("failed to unmarshal: " +:+ e), store)) /\
  (forall body mf,
     DecodedBody P req = (body, None) ->
     json.Unmarshal body zero_metricFile = (mf, None) ->
     metricFile_Validate mf = false ->
     metricHandler P c req store = (Fail "failed validation", store)) /\
  (forall body mf,
     DecodedBody P req = (body, None) ->
     json.Unmarshal body zero_metricFile = (mf, None) ->
     FileName mf = EmptyString ->
     metricHandler P c req store = (Fail "failed validation", store)) /\
  (forall response store',
     metricHandler P c req store = (response, store') ->
     store' <> store ->
     exists body mf client content,
       DecodedBody P req = (body, None) /\
       json.Unmarshal body zero_metricFile = (mf, None) /\
       metricFile_Validate mf = true /\
       store' = fst (PutObject P client store (MetricBucket c) (FileName mf) content)).
Proof.
  assert (Hinvalid : forall body mf,
            DecodedBody P req = (body, None) ->
            json.Unmarshal body zero_metricFile = (mf, None) ->
            metricFile_Validate mf = false ->
            metricHandler P c req store = (Fail "failed validation", store)).
  { intros body mf Hb Hu Hv. unfold metricHandler. rewrite Hb, Hu, Hv. reflexivity. }
  split; [|split; [|split; [|split]]].
  - intros e He. unfold metricHandler.
    destruct (DecodedBody P req) as [body err]. simpl in He. subst err. reflexivity.
  - intros body mf e Hb Hu. unfold metricHandler. rewrite Hb, Hu. reflexivity.
  - exact Hinvalid.
  - intros body mf Hb Hu Hn. apply (Hinvalid body mf Hb Hu).
    unfold metricFile_Validate. rewrite Hn. reflexivity.
  - intros response store'. unfold metricHandler.
    destruct (DecodedBody P req) as [body [e|]] eqn:Hb; [intros [= _ <-]; congruence|].
    destruct (json.Unmarshal body zero_metricFile) as [mf [e|]] eqn:Hu;
      [intros [= _ <-]; congruence|].
    destruct (metricFile_Validate mf) eqn:Hv; cbn [negb]; [|intros [= _ <-]; congruence].
    destruct (json.Marshal mf) as [content [e|]]; [intros [= _ <-]; congruence|].
    destruct (getClient P) as [client [e|]]; [intros [= _ <-]; congruence|].
    intros Hput _. exists body, mf, client, content.
    split; [reflexivity|]. split; [exact Hu|]. split; [exact Hv|].
    destruct (PutObject P client store (MetricBucket c) (FileName mf) content)
      as [st [e|]]; injection Hput as _ <-; reflexivity.
Qed.

Lemma metricHandler_validates_before_store_witness :
  metricHandler memory example_config unnamed_submission (store_a_b example_config)
  = (Fail "failed validation", store_a_b example_config).
Proof.
  destruct (metricHandler_validates_before_store memory example_config
              unnamed_submission (store_a_b example_config))
    as (_ & _ & _ & Hname & _).
  apply (Hname unnamed_submission
           (mkMetricFile EmptyString (Some [mkMetric "up" "gauge" None "1"])));
    vm_compute; reflexivity.
Defined.

Section json_facts.
Import utf8 json.
Local Arguments utf8.DecodeRuneInString : simpl never.

Ltac split_match H :=
  repeat match type of H with
  | context [match ?x with _ => _ end] => destruct x eqn:?; try discriminate H
  end.

(** ** What the encoder writes for a string, the decoder reads back *)

Local Open Scope Z_scope.

Lemma valid_from_0 c t :
  valid_from 0 (String c t)
  = (let (r, size) := DecodeRuneInString (String c t) in
     if (r =? RuneError) && (size =? 1)%nat then false else valid_from (pred size) t).
Proof. reflexivity. Qed.


Lemma wellformed_ValidString s : wellformed s -> ValidString s = true.
Proof.
  unfold ValidString. induction 1; [reflexivity|..]; rewrite valid_from_0.
  - rewrite decode_ascii by assumption.
    replace (byte_val c =? RuneError) with false
      by (symmetry; apply Z.eqb_neq; unfold RuneError; lia).
    exact IHwellformed.
  - rewrite decode_2 by assumption.
    replace (rune2 (byte_val c0) (byte_val c1) =? RuneError) with false
      by (symmetry; apply Z.eqb_neq; unfold RuneError, rune2; lia).
    exact IHwellformed.
  - rewrite decode_3 by assumption. simpl. rewrite andb_false_r. exact IHwellformed.
  - rewrite decode_4 by assumption. simpl. rewrite andb_false_r. exact IHwellformed.
Qed.

Local Close Scope Z_scope.

Lemma unquote_from_0 c t :
  unquote_from 0 (String c t)
  = (if (byte_val c =? 34)%Z then Some (EmptyString, t)
     else if (byte_val c =? 92)%Z then
       match unescape (String c t) with
       | None => None
       | Some (out, n) => prepend out (unquote_from n t)
       end
     else if (byte_val c <? 32)%Z then None
     else if (byte_val c <? utf8.RuneSelf)%Z then
       prepend (String c EmptyString) (unquote_from 0 t)
     else prepend (utf8.EncodeRune (fst (DecodeRuneInString (String c t))))
                  (unquote_from (pred (snd (DecodeRuneInString (String c t)))) t)).
Proof.
  unfold prepend. simpl.
  destruct (byte_val c =? 34)%Z; [reflexivity|].
  destruct (byte_val c =? 92)%Z.
  { destruct (unescape (String c t)) as [[out n]|]; reflexivity. }
  destruct (byte_val c <? 32)%Z; [reflexivity|].
  destruct (byte_val c <? RuneSelf)%Z; [reflexivity|].
  destruct (DecodeRuneInString (String c t)). reflexivity.
Qed.

Lemma unquote_from_S k c t : unquote_from (S k) (String c t) = unquote_from k t.
Proof. reflexivity. Qed.

Lemma unquote_plain c X :
  (32 <= byte_val c < 128)%Z -> byte_val c <> 34%Z -> byte_val c <> 92%Z ->
  unquote_from 0 (String c X) = prepend (String c EmptyString) (unquote_from 0 X).
Proof.
  intros H1 H2 H3. rewrite unquote_from_0. unfold RuneSelf.
  destruct (Z.eqb_spec (byte_val c) 34); [contradiction|].
  destruct (Z.eqb_spec (byte_val c) 92); [contradiction|].
  destruct (Z.ltb_spec (byte_val c) 32); [lia|].
  destruct (Z.ltb_spec (byte_val c) 128); [reflexivity|lia].
Qed.

Lemma byte_val_eq c z : byte_val c = z -> c = byte_of z.
Proof. intros <-. symmetry. apply byte_of_val. Qed.

Lemma hex_digit_hexval n :
  (0 <= n < 16)%Z ->
  exists ch, hex_digit n = String ch EmptyString /\ hexval ch = Some n.
Proof.
  intros H.
  assert (Hn : In n [0;1;2;3;4;5;6;7;8;9;10;11;12;13;14;15]%Z) by (simpl; lia).
  simpl in Hn.
  repeat (destruct Hn as [<-|Hn]; [eexists; split; reflexivity|]). contradiction.
Qed.

Lemma unquote_u00 c X :
  (byte_val c < 128)%Z ->
  unquote_from 0 (backslash +:+ "u00" +:+ hex_digit (Z.shiftr (byte_val c) 4)
                  +:+ hex_digit (Z.land (byte_val c) 0xF) +:+ X)
  = prepend (String c EmptyString) (unquote_from 0 X).
Proof.
  intros H. pose proof (byte_val_range c) as Hr.
  destruct (hex_digit_hexval (Z.shiftr (byte_val c) 4)) as (h1 & E1 & V1).
  { rewrite Z.shiftr_div_pow2 by lia. simpl. Z.div_mod_to_equations. lia. }
  destruct (hex_digit_hexval (Z.land (byte_val c) 0xF)) as (h2 & E2 & V2).
  { change 0xF%Z with (Z.ones 4). rewrite Z.land_ones by lia. simpl.
    Z.div_mod_to_equations. lia. }
  rewrite E1, E2.
  change (backslash +:+ "u00" +:+ String h1 EmptyString +:+ String h2 EmptyString +:+ X)
    with (String (ascii_of_nat 92) (String "u" (String "0" (String "0" (String h1 (String h2 X)))))).
  rewrite unquote_from_0.
  change (byte_val (ascii_of_nat 92)) with 92%Z. simpl (_ =? _)%Z. cbv iota.
  unfold unescape. change (byte_val "u") with 117%Z. simpl (_ =? _)%Z. simpl orb. cbv iota.
  unfold getu4. change (byte_val (ascii_of_nat 92)) with 92%Z. change (byte_val "u") with 117%Z.
  simpl (_ =? _)%Z. simpl andb. cbv iota.
  change (hexval "0") with (Some 0%Z). rewrite V1, V2.
  assert (Hb : (0 * 4096 + 0 * 256 + Z.shiftr (byte_val c) 4 * 16 + Z.land (byte_val c) 0xF
                = byte_val c)%Z).
  { change 0xF%Z with (Z.ones 4). rewrite Z.land_ones, Z.shiftr_div_pow2 by lia. simpl.
    Z.div_mod_to_equations. lia. }
  rewrite Hb.
  assert (Hs : IsSurrogate (byte_val c) = false).
  { unfold IsSurrogate. destruct (Z.leb_spec 0xD800 (byte_val c)); [lia|reflexivity]. }
  rewrite Hs. rewrite encode_ascii by assumption.
  rewrite !unquote_from_S. reflexivity.
Qed.

Lemma unquote_escape_ascii c X :
  (byte_val c < 0x80)%Z ->
  unquote_from 0 (escape_ascii c +:+ X) = prepend (String c EmptyString) (unquote_from 0 X).
Proof.
  intros H. pose proof (byte_val_range c) as Hr. unfold escape_ascii.
  destruct (htmlSafe (byte_val c)) eqn:Hs.
  { unfold htmlSafe in Hs. rewrite !andb_true_iff, !negb_true_iff, !Z.eqb_neq in Hs.
    apply unquote_plain; lia. }
  destruct (Z.eqb_spec (byte_val c) 92) as [E|N92].
  { apply byte_val_eq in E. subst c. reflexivity. }
  destruct (Z.eqb_spec (byte_val c) 34) as [E|N34].
  { apply byte_val_eq in E. subst c. reflexivity. }
  simpl orb. cbv iota.
  destruct (Z.eqb_spec (byte_val c) 8) as [E|N8].
  { apply byte_val_eq in E. subst c. reflexivity. }
  destruct (Z.eqb_spec (byte_val c) 12) as [E|N12].
  { apply byte_val_eq in E. subst c. reflexivity. }
  destruct (Z.eqb_spec (byte_val c) 10) as [E|N10].
  { apply byte_val_eq in E. subst c. reflexivity. }
  destruct (Z.eqb_spec (byte_val c) 13) as [E|N13].
  { apply byte_val_eq in E. subst c. reflexivity. }
  destruct (Z.eqb_spec (byte_val c) 9) as [E|N9].
  { apply byte_val_eq in E. subst c. reflexivity. }
  rewrite !append_assoc. apply unquote_u00. assumption.
Qed.

Lemma escape_from_0 keep c t :
  escape_from keep 0 (String c t)
  = (if (byte_val c <? utf8.RuneSelf)%Z then escape_ascii c +:+ escape_from true 0 t
     else
       let (r, size) := utf8.DecodeRuneInString (String c t) in
       if (r =? utf8.RuneError)%Z && (size =? 1)%nat then
         backslash +:+ "ufffd" +:+ escape_from true 0 t
       else if (r =? 0x2028)%Z || (r =? 0x2029)%Z then
         backslash +:+ "u202" +:+ hex_digit (Z.land r 0xF)
         +:+ escape_from false (pred size) t
       else String c (escape_from true (pred size) t)).
Proof. reflexivity. Qed.

Lemma escape_from_keep k c t :
  escape_from true (S k) (String c t) = String c (escape_from true k t).
Proof. reflexivity. Qed.

Lemma escape_from_drop k c t :
  escape_from false (S k) (String c t) = escape_from false k t.
Proof. reflexivity. Qed.

Lemma escape_from_0_keep keep s : escape_from keep 0 s = escape_from true 0 s.
Proof. destruct s; reflexivity. Qed.

Lemma unquote_high c t :
  (0x80 <= byte_val c)%Z ->
  unquote_from 0 (String c t)
  = prepend (utf8.EncodeRune (fst (DecodeRuneInString (String c t))))
            (unquote_from (pred (snd (DecodeRuneInString (String c t)))) t).
Proof.
  intros H. rewrite unquote_from_0. unfold RuneSelf.
  destruct (Z.eqb_spec (byte_val c) 34); [lia|].
  destruct (Z.eqb_spec (byte_val c) 92); [lia|].
  destruct (Z.ltb_spec (byte_val c) 32); [lia|].
  destruct (Z.ltb_spec (byte_val c) 128); [lia|reflexivity].
Qed.

(** Unquoting what [appendString] wrote for a well-formed string gives the
    string back. *)
Lemma unquote_escape s :
  wellformed s ->
  forall rest,
    unquote_from 0 (escape_from true 0 s +:+ quote +:+ rest) = Some (s, rest).
Proof.
  induction 1 as [|c t Hc _ IH|c0 c1 t H0 H1 _ IH|c0 c1 c2 t H0 H1 H2 _ IH
                  |c0 c1 c2 c3 t H0 H1 H2 H3 _ IH]; intros rest.
  - reflexivity.
  - rewrite escape_from_0. unfold RuneSelf.
    destruct (Z.ltb_spec (byte_val c) 128); [|lia].
    rewrite append_assoc, unquote_escape_ascii by assumption.
    rewrite IH. reflexivity.
  - rewrite escape_from_0. unfold RuneSelf.
    destruct (Z.ltb_spec (byte_val c0) 128); [lia|].
    rewrite decode_2 by assumption.
    assert (Hr : (0x80 <= rune2 (byte_val c0) (byte_val c1) < 0x800)%Z)
      by (unfold rune2; lia).
    destruct (Z.eqb_spec (rune2 (byte_val c0) (byte_val c1)) RuneError);
      [unfold RuneError in *; lia|].
    destruct (Z.eqb_spec (rune2 (byte_val c0) (byte_val c1)) 0x2028); [lia|].
    destruct (Z.eqb_spec (rune2 (byte_val c0) (byte_val c1)) 0x2029); [lia|].
    simpl andb. simpl orb. cbv iota. simpl pred.
    rewrite escape_from_keep, !append_cons.
    rewrite unquote_high by lia. rewrite decode_2 by assumption. simpl fst. simpl snd.
    simpl pred. rewrite unquote_from_S, IH, encode_2 by assumption. reflexivity.
  - rewrite escape_from_0. unfold RuneSelf.
    destruct (Z.ltb_spec (byte_val c0) 128); [lia|].
    rewrite decode_3 by assumption.
    replace ((rune3 (byte_val c0) (byte_val c1) (byte_val c2) =? RuneError)%Z
             && (3 =? 1)%nat) with false by (simpl; rewrite andb_false_r; reflexivity).
    pose proof (encode_3 c0 c1 c2 H0 H1 H2) as Henc.
    destruct (Z.eqb_spec (rune3 (byte_val c0) (byte_val c1) (byte_val c2)) 0x2028) as [E|N1].
    { rewrite E in *. simpl orb. cbv iota. simpl pred.
      rewrite !escape_from_drop, escape_from_0_keep.
      change (hex_digit (Z.land 0x2028 0xF)) with "8"%string.
      rewrite !append_assoc.
      transitivity (prepend (EncodeRune 0x2028)
                      (unquote_from 0 (escape_from true 0 t +:+ quote +:+ rest)));
        [reflexivity|].
      rewrite IH, Henc. reflexivity. }
    destruct (Z.eqb_spec (rune3 (byte_val c0) (byte_val c1) (byte_val c2)) 0x2029) as [E|N2].
    { rewrite E in *. simpl orb. cbv iota. simpl pred.
      rewrite !escape_from_drop, escape_from_0_keep.
      change (hex_digit (Z.land 0x2029 0xF)) with "9"%string.
      rewrite !append_assoc.
      transitivity (prepend (EncodeRune 0x2029)
                      (unquote_from 0 (escape_from true 0 t +:+ quote +:+ rest)));
        [reflexivity|].
      rewrite IH, Henc. reflexivity. }
    simpl orb. cbv iota. simpl pred.
    rewrite !escape_from_keep, !append_cons.
    rewrite unquote_high by lia. rewrite decode_3 by assumption. simpl fst. simpl snd.
    simpl pred. rewrite !unquote_from_S, IH, Henc. reflexivity.
  - rewrite escape_from_0. unfold RuneSelf.
    destruct (Z.ltb_spec (byte_val c0) 128); [lia|].
    rewrite decode_4 by assumption.
    replace ((rune4 (byte_val c0) (byte_val c1) (byte_val c2) (byte_val c3) =? RuneError)%Z
             && (4 =? 1)%nat) with false by (simpl; rewrite andb_false_r; reflexivity).
    assert (Hr : (0x10000 <= rune4 (byte_val c0) (byte_val c1) (byte_val c2) (byte_val c3))%Z)
      by (unfold rune4, second_ok in *; lia).
    destruct (Z.eqb_spec (rune4 (byte_val c0) (byte_val c1) (byte_val c2) (byte_val c3)) 0x2028);
      [lia|].
    destruct (Z.eqb_spec (rune4 (byte_val c0) (byte_val c1) (byte_val c2) (byte_val c3)) 0x2029);
      [lia|].
    simpl orb. cbv iota. simpl pred.
    rewrite !escape_from_keep, !append_cons.
    rewrite unquote_high by lia. rewrite decode_4 by assumption. simpl fst. simpl snd.
    simpl pred. rewrite !unquote_from_S, IH, encode_4 by assumption. reflexivity.
Qed.

(** Unquoting what [appendString] wrote for any string at all gives a
    string: the escape of the replacement character stands where the string
    was not UTF-8. *)
Lemma unquote_escape_total n : forall s, String.length s <= n ->
  exists s', forall rest,
    unquote_from 0 (escape_from true 0 s +:+ quote +:+ rest) = Some (s', rest).
Proof.
  induction n as [|n IH]; intros s Hlen.
  { destruct s; [|simpl in Hlen; lia]. exists EmptyString. reflexivity. }
  destruct s as [|c t]; [exists EmptyString; reflexivity|].
  pose proof (decode_decoded c t) as Hd.
  destruct (DecodeRuneInString (String c t)) as [r k] eqn:E. cbn [fst snd] in Hd.
  cbn [String.length] in Hlen.
  remember (String c t) as s eqn:Es.
  destruct Hd as [c' t' Hc|c' t' Hc|c0 c1 t' H0 H1|c0 c1 c2 t' H0 H1 H2
                  |c0 c1 c2 c3 t' H0 H1 H2 H3];
    [injection Es as -> ->|injection Es as -> ->|injection Es as -> <-..].
  - destruct (IH t ltac:(lia)) as [s' Hs'].
    exists (String c s'). intros rest.
    rewrite escape_from_0. unfold RuneSelf.
    destruct (Z.ltb_spec (byte_val c) 128); [|lia].
    rewrite append_assoc, unquote_escape_ascii by assumption.
    rewrite Hs'. reflexivity.
  - destruct (IH t ltac:(lia)) as [s' Hs'].
    exists (EncodeRune RuneError +:+ s'). intros rest.
    rewrite escape_from_0. unfold RuneSelf.
    destruct (Z.ltb_spec (byte_val c) 128); [lia|].
    rewrite E. cbn [Z.eqb Nat.eqb andb]. change (RuneError =? RuneError)%Z with true.
    cbv iota. cbn [andb]. rewrite !append_assoc.
    transitivity (prepend (EncodeRune RuneError)
                    (unquote_from 0 (escape_from true 0 t +:+ quote +:+ rest)));
      [reflexivity|].
    rewrite Hs'. reflexivity.
  - cbn [String.length] in Hlen.
    destruct (IH t' ltac:(lia)) as [s' Hs'].
    exists (String c (String c1 s')). intros rest.
    rewrite escape_from_0. unfold RuneSelf.
    destruct (Z.ltb_spec (byte_val c) 128); [lia|].
    rewrite decode_2 by assumption.
    assert (Hr : (0x80 <= rune2 (byte_val c) (byte_val c1) < 0x800)%Z)
      by (unfold rune2; lia).
    destruct (Z.eqb_spec (rune2 (byte_val c) (byte_val c1)) RuneError);
      [unfold RuneError in *; lia|].
    destruct (Z.eqb_spec (rune2 (byte_val c) (byte_val c1)) 0x2028); [lia|].
    destruct (Z.eqb_spec (rune2 (byte_val c) (byte_val c1)) 0x2029); [lia|].
    simpl andb. simpl orb. cbv iota. simpl pred.
    rewrite escape_from_keep, !append_cons.
    rewrite unquote_high by lia. rewrite decode_2 by assumption. simpl fst. simpl snd.
    simpl pred. rewrite unquote_from_S, Hs', encode_2 by assumption. reflexivity.
  - cbn [String.length] in Hlen.
    destruct (IH t' ltac:(lia)) as [s' Hs'].
    exists (String c (String c1 (String c2 s'))). intros rest.
    rewrite escape_from_0. unfold RuneSelf.
    destruct (Z.ltb_spec (byte_val c) 128); [lia|].
    rewrite decode_3 by assumption.
    replace ((rune3 (byte_val c) (byte_val c1) (byte_val c2) =? RuneError)%Z
             && (3 =? 1)%nat) with false by (simpl; rewrite andb_false_r; reflexivity).
    pose proof (encode_3 c c1 c2 H0 H1 H2) as Henc.
    destruct (Z.eqb_spec (rune3 (byte_val c) (byte_val c1) (byte_val c2)) 0x2028) as [E8|N1].
    { rewrite E8 in *. simpl orb. cbv iota. simpl pred.
      rewrite !escape_from_drop, escape_from_0_keep.
      change (hex_digit (Z.land 0x2028 0xF)) with "8"%string.
      rewrite !append_assoc.
      transitivity (prepend (EncodeRune 0x2028)
                      (unquote_from 0 (escape_from true 0 t' +:+ quote +:+ rest)));
        [reflexivity|].
      rewrite Hs', Henc. reflexivity. }
    destruct (Z.eqb_spec (rune3 (byte_val c) (byte_val c1) (byte_val c2)) 0x2029) as [E9|N2].
    { rewrite E9 in *. simpl orb. cbv iota. simpl pred.
      rewrite !escape_from_drop, escape_from_0_keep.
      change (hex_digit (Z.land 0x2029 0xF)) with "9"%string.
      rewrite !append_assoc.
      transitivity (prepend (EncodeRune 0x2029)
                      (unquote_from 0 (escape_from true 0 t' +:+ quote +:+ rest)));
        [reflexivity|].
      rewrite Hs', Henc. reflexivity. }
    simpl orb. cbv iota. simpl pred.
    rewrite !escape_from_keep, !append_cons.
    rewrite unquote_high by lia. rewrite decode_3 by assumption. simpl fst. simpl snd.
    simpl pred. rewrite !unquote_from_S, Hs', Henc. reflexivity.
  - cbn [String.length] in Hlen.
    destruct (IH t' ltac:(lia)) as [s' Hs'].
    exists (String c (String c1 (String c2 (String c3 s')))). intros rest.
    rewrite escape_from_0. unfold RuneSelf.
    destruct (Z.ltb_spec (byte_val c) 128); [lia|].
    rewrite decode_4 by assumption.
    replace ((rune4 (byte_val c) (byte_val c1) (byte_val c2) (byte_val c3) =? RuneError)%Z
             && (4 =? 1)%nat) with false by (simpl; rewrite andb_false_r; reflexivity).
    assert (Hr : (0x10000 <= rune4 (byte_val c) (byte_val c1) (byte_val c2) (byte_val c3))%Z)
      by (unfold rune4, second_ok in *; lia).
    destruct (Z.eqb_spec (rune4 (byte_val c) (byte_val c1) (byte_val c2) (byte_val c3)) 0x2028);
      [lia|].
    destruct (Z.eqb_spec (rune4 (byte_val c) (byte_val c1) (byte_val c2) (byte_val c3)) 0x2029);
      [lia|].
    simpl orb. cbv iota. simpl pred.
    rewrite !escape_from_keep, !append_cons.
    rewrite unquote_high by lia. rewrite decode_4 by assumption. simpl fst. simpl snd.
    simpl pred. rewrite !unquote_from_S, Hs', encode_4 by assumption. reflexivity.
Qed.

(** ** Parsing the encoding of a metric file *)

Lemma length_append (a b : string) :
  String.length (a +:+ b) = String.length a + String.length b.
Proof.
  induction a as [|x a IH]; [reflexivity|]. rewrite append_cons. simpl. rewrite IH. reflexivity.
Qed.

Lemma appendString_cons s X :
  wellformed s ->
  appendString s +:+ X = String (ascii_of_nat 34) (escape_from true 0 s +:+ quote +:+ X).
Proof. intros _. unfold appendString. rewrite !append_assoc. reflexivity. Qed.

Lemma skip_space_solid s X : solid s -> skip_space (s +:+ X) = s +:+ X.
Proof. intros (c & t & -> & Hc). rewrite append_cons. simpl. rewrite Hc. reflexivity. Qed.

Lemma solid_append s X : solid s -> solid (s +:+ X).
Proof. intros (c & t & -> & Hc). exists c, (t +:+ X). split; [reflexivity|exact Hc]. Qed.

Lemma solid_appendString s : solid (appendString s).
Proof. eexists _, _. split; [reflexivity|reflexivity]. Qed.

Lemma parse_value_quote f d t :
  parse_value (S f) d (String (ascii_of_nat 34) t)
  = match unquote t with
    | Some (content, rest) => Some (VString content, rest)
    | None => None
    end.
Proof. reflexivity. Qed.

Lemma parse_value_brace f d t :
  parse_value (S f) d (String "{" t)
  = if (maxNestingDepth <=? d)%N then None
    else
      match skip_space t with
      | EmptyString => None
      | String c' t' =>
        if is_byte c' 125 then Some (VObject [], t')
        else
          match parse_members f (d + 1)%N (String c' t') with
          | Some (ms, rest) => Some (VObject ms, rest)
          | None => None
          end
      end.
Proof. reflexivity. Qed.

Lemma parse_value_bracket f d t :
  parse_value (S f) d (String "[" t)
  = if (maxNestingDepth <=? d)%N then None
    else
      match skip_space t with
      | EmptyString => None
      | String c' t' =>
        if is_byte c' 93 then Some (VArray [], t')
        else
          match parse_elements f (d + 1)%N (String c' t') with
          | Some (vs, rest) => Some (VArray vs, rest)
          | None => None
          end
      end.
Proof. reflexivity. Qed.

Lemma parse_value_null f d X :
  parse_value (S f) d ("null" +:+ X) = Some (VNull, X).
Proof. reflexivity. Qed.

Lemma parse_members_quote f d t :
  parse_members (S f) d (String (ascii_of_nat 34) t)
  = match unquote t with
    | None => None
    | Some (key, rest) =>
      match skip_space rest with
      | EmptyString => None
      | String colon rest1 =>
        if is_byte colon 58 then
          match parse_value f d (skip_space rest1) with
          | None => None
          | Some (v, rest2) =>
            match skip_space rest2 with
            | EmptyString => None
            | String sep rest3 =>
              if is_byte sep 44 then
                match parse_members f d (skip_space rest3) with
                | Some (ms, rest4) => Some ((key, v) :: ms, rest4)
                | None => None
                end
              else if is_byte sep 125 then Some ([(key, v)], rest3)
              else None
            end
          end
        else None
      end
    end.
Proof. reflexivity. Qed.

Lemma parse_elements_S f d s :
  parse_elements (S f) d s
  = match parse_value f d s with
    | None => None
    | Some (v, rest) =>
      match skip_space rest with
      | EmptyString => None
      | String sep rest1 =>
        if is_byte sep 44 then
          match parse_elements f d (skip_space rest1) with
          | Some (vs, rest2) => Some (v :: vs, rest2)
          | None => None
          end
        else if is_byte sep 93 then Some ([v], rest1)
        else None
      end
    end.
Proof. reflexivity. Qed.

Lemma parse_value_string s X f d :
  wellformed s ->
  parse_value (S f) d (appendString s +:+ X) = Some (VString s, X).
Proof.
  intros H. rewrite appendString_cons by assumption.
  rewrite parse_value_quote. unfold unquote. rewrite unquote_escape by assumption.
  reflexivity.
Qed.

Lemma parse_value_string_total s :
  exists s', forall X f d,
    parse_value (S f) d (appendString s +:+ X) = Some (VString s', X).
Proof.
  destruct (unquote_escape_total (String.length s) s (Nat.le_refl _)) as [s' Hs'].
  exists s'. intros X f d. unfold appendString. rewrite !append_assoc.
  change (quote +:+ escape_from true 0 s +:+ quote +:+ X)
    with (String (ascii_of_nat 34) (escape_from true 0 s +:+ quote +:+ X)).
  rewrite parse_value_quote. unfold unquote. rewrite Hs'. reflexivity.
Qed.

Lemma skip_space_solid' T : solid T -> skip_space T = T.
Proof. intros (c & t & -> & Hc). simpl. rewrite Hc. reflexivity. Qed.

(** One member of an object, followed by more members. *)
Lemma parse_members_more f d k val v T ms rest :
  wellformed k -> solid val -> solid T ->
  (forall X, parse_value f d (val +:+ X) = Some (v, X)) ->
  parse_members f d T = Some (ms, rest) ->
  parse_members (S f) d (appendString k +:+ ":" +:+ val +:+ "," +:+ T)
  = Some ((k, v) :: ms, rest).
Proof.
  intros Hk Hval HT Hv Hms.
  rewrite appendString_cons by assumption. rewrite parse_members_quote.
  unfold unquote. rewrite unquote_escape by assumption.
  rewrite ?append_cons, ?append_nil_l. simpl skip_space at 1.
  change (is_byte ":" 58) with true. cbv iota.
  rewrite skip_space_solid by assumption. rewrite Hv.
  simpl skip_space at 1.
  change (is_byte "," 44) with true. cbv iota.
  rewrite skip_space_solid' by assumption. rewrite Hms. reflexivity.
Qed.

(** The last member of an object. *)
Lemma parse_members_last f d k val v rest :
  wellformed k -> solid val ->
  (forall X, parse_value f d (val +:+ X) = Some (v, X)) ->
  parse_members (S f) d (appendString k +:+ ":" +:+ val +:+ "}" +:+ rest)
  = Some ([(k, v)], rest).
Proof.
  intros Hk Hval Hv.
  rewrite appendString_cons by assumption. rewrite parse_members_quote.
  unfold unquote. rewrite unquote_escape by assumption.
  rewrite ?append_cons, ?append_nil_l. simpl skip_space at 1.
  change (is_byte ":" 58) with true. cbv iota.
  rewrite skip_space_solid by assumption. rewrite Hv.
  reflexivity.
Qed.

Lemma parse_elements_more f d val v T vs rest :
  solid T ->
  (forall X, parse_value f d (val +:+ X) = Some (v, X)) ->
  parse_elements f d T = Some (vs, rest) ->
  parse_elements (S f) d (val +:+ "," +:+ T) = Some (v :: vs, rest).
Proof.
  intros HT Hv Hvs. rewrite parse_elements_S, Hv.
  rewrite ?append_cons, ?append_nil_l. simpl skip_space at 1.
  change (is_byte "," 44) with true. cbv iota.
  rewrite skip_space_solid' by assumption. rewrite Hvs. reflexivity.
Qed.

Lemma parse_elements_last f d val v rest :
  (forall X, parse_value f d (val +:+ X) = Some (v, X)) ->
  parse_elements (S f) d (val +:+ "]" +:+ rest) = Some ([v], rest).
Proof.
  intros Hv. rewrite parse_elements_S, Hv. reflexivity.
Qed.


Lemma Join_cons2 x y l sep : Join (x :: y :: l) sep = x +:+ sep +:+ Join (y :: l) sep.
Proof. reflexivity. Qed.

Lemma solid_Join_members kv l X :
  solid (Join (map member_text (kv :: l)) "," +:+ X).
Proof.
  destruct l as [|kv' l]; simpl map.
  - simpl Join. unfold member_text. rewrite !append_assoc.
    apply solid_append, solid_appendString.
  - rewrite Join_cons2. unfold member_text at 1. rewrite !append_assoc.
    apply solid_append, solid_appendString.
Qed.

Lemma parse_tag_members l : forall f d X,
  l <> [] -> Forall wellformed_pair l -> length l < f ->
  parse_members f d (Join (map member_text l) "," +:+ "}" +:+ X)
  = Some (map member_tree l, X).
Proof.
  induction l as [|kv l IH]; intros f d X Hne Hwf Hf; [contradiction|].
  apply Forall_cons in Hwf as [[Hk Hv] Hwf].
  destruct f as [|[|f]]; simpl in Hf; try lia.
  destruct l as [|kv' l].
  - simpl map. simpl Join. unfold member_text. rewrite !append_assoc.
    apply parse_members_last; [assumption|apply solid_appendString|].
    intros Y. apply parse_value_string. assumption.
  - change (map member_text (kv :: kv' :: l))
      with (member_text kv :: map member_text (kv' :: l)).
    change (map member_text (kv' :: l)) with (member_text kv' :: map member_text l).
    rewrite Join_cons2.
    change (member_text kv' :: map member_text l) with (map member_text (kv' :: l)).
    unfold member_text at 1. rewrite !append_assoc.
    apply parse_members_more; [assumption|apply solid_appendString| | |].
    + apply solid_Join_members.
    + intros Y. apply parse_value_string. assumption.
    + apply IH; [discriminate|assumption|simpl in *; lia].
Qed.

Lemma length_sorted_entries g : length (sorted_entries g) = size g.
Proof.
  unfold sorted_entries. rewrite merge_sort_Permutation. apply length_map_to_list.
Qed.

Lemma sorted_entries_wellformed g :
  (forall k v, g !! k = Some v -> wellformed k /\ wellformed v) ->
  Forall wellformed_pair (sorted_entries g).
Proof.
  intros H. unfold sorted_entries. rewrite merge_sort_Permutation.
  apply Forall_forall. intros [k v] Hin. apply elem_of_map_to_list in Hin.
  apply H. assumption.
Qed.

Lemma depth_check d : depth_ok d -> (maxNestingDepth <=? d)%N = false.
Proof. unfold depth_ok. intros H. apply N.leb_gt. assumption. Qed.

Lemma Join_members_head kv l Y :
  exists t, Join (map member_text (kv :: l)) "," +:+ Y = String (ascii_of_nat 34) t.
Proof.
  destruct l as [|kv' l].
  - simpl map. simpl Join. unfold member_text, appendString.
    rewrite !append_assoc. eexists. reflexivity.
  - change (map member_text (kv :: kv' :: l))
      with (member_text kv :: member_text kv' :: map member_text l).
    rewrite Join_cons2. unfold member_text at 1. unfold appendString at 1.
    rewrite !append_assoc. eexists. reflexivity.
Qed.

Lemma parse_value_tags t f d X :
  (forall k v, entries t !! k = Some v -> wellformed k /\ wellformed v) ->
  size (entries t) + 2 <= f -> depth_ok d ->
  parse_value f d (encode_tags t +:+ X) = Some (tree_of_tags t, X).
Proof.
  intros Hwf Hf Hd. destruct f as [|f]; [lia|].
  destruct t as [g|]; unfold encode_tags, tree_of_tags, entries in *;
    [|apply parse_value_null].
  change (fun kv : string * string => appendString kv.1 +:+ ":" +:+ appendString kv.2)
    with member_text.
  rewrite !append_assoc, append_cons, append_nil_l.
  rewrite parse_value_brace, depth_check by assumption.
  pose proof (length_sorted_entries g) as Hlen.
  pose proof (sorted_entries_wellformed g Hwf) as Hall.
  destruct (sorted_entries g) as [|kv l] eqn:E.
  - reflexivity.
  - destruct (Join_members_head kv l ("}" +:+ X)) as [t Ht].
    rewrite skip_space_solid' by apply solid_Join_members.
    rewrite Ht. change (is_byte (ascii_of_nat 34) 125) with false. cbv iota.
    rewrite <- Ht. rewrite parse_tag_members; [reflexivity|discriminate|assumption|].
    rewrite Hlen. lia.
Qed.

Lemma wellformed_ascii s :
  Forall (fun c => (byte_val c < 0x80)%Z) (list_ascii_of_string s) -> wellformed s.
Proof.
  induction s as [|c s IH]; simpl; intros H; [constructor|].
  apply Forall_cons in H as [Hc H]. apply wf_1; auto.
Qed.

Ltac wf_literal := apply wellformed_ascii; repeat constructor.

Lemma solid_encode_tags t : solid (encode_tags t).
Proof. destruct t; eexists _, _; split; reflexivity. Qed.

Lemma parse_value_metric m f d X :
  (metric_texts wellformed) m -> size (entries (Tags m)) + 6 <= f ->
  depth_ok d -> depth_ok (d + 1) ->
  parse_value f d (encode_metric m +:+ X) = Some (tree_of_metric m, X).
Proof.
  intros (Hn & Ht & Hv & Htags) Hf Hd Hd1.
  destruct f as [|[|[|[|[|[|f]]]]]]; try lia.
  unfold encode_metric. rewrite !append_assoc, append_cons, append_nil_l.
  rewrite parse_value_brace, depth_check by assumption.
  rewrite skip_space_solid by apply solid_appendString.
  change (appendString "name") with (String (ascii_of_nat 34) ("name" +:+ quote)) at 1.
  rewrite append_cons.
  change (is_byte (ascii_of_nat 34) 125) with false. cbv iota.
  change (String (ascii_of_nat 34) ("name" +:+ quote)) with (appendString "name").
  rewrite <- append_cons.
  change (String (ascii_of_nat 34) ("name" +:+ quote)) with (appendString "name").
  unfold tree_of_metric.
  erewrite parse_members_more; [reflexivity|wf_literal|apply solid_appendString| | |].
  - apply solid_append, solid_appendString.
  - intros Y. apply parse_value_string. assumption.
  - apply parse_members_more; [wf_literal|apply solid_appendString| | |].
    + apply solid_append, solid_appendString.
    + intros Y. apply parse_value_string. assumption.
    + apply parse_members_more; [wf_literal|apply solid_encode_tags| | |].
      * apply solid_append, solid_appendString.
      * intros Y. apply parse_value_tags; [assumption|lia|assumption].
      * apply parse_members_last; [wf_literal|apply solid_appendString|].
        intros Y. apply parse_value_string. assumption.
Qed.

Lemma solid_encode_metric m X : solid (encode_metric m +:+ X).
Proof. eexists _, _. split; reflexivity. Qed.

Lemma solid_Join_metrics m l X :
  solid (Join (map encode_metric (m :: l)) "," +:+ X).
Proof.
  destruct l as [|m' l]; simpl map.
  - simpl Join. apply solid_encode_metric.
  - rewrite Join_cons2. rewrite !append_assoc. apply solid_encode_metric.
Qed.

Lemma parse_metric_elements l : forall f d X,
  l <> [] -> Forall (metric_texts wellformed) l -> need_elements l <= f ->
  depth_ok d -> depth_ok (d + 1) ->
  parse_elements f d (Join (map encode_metric l) "," +:+ "]" +:+ X)
  = Some (map tree_of_metric l, X).
Proof.
  induction l as [|m l IH]; intros f d X Hne Hwf Hf Hd Hd1; [contradiction|].
  apply Forall_cons in Hwf as [Hm Hwf].
  cbn [need_elements] in Hf.
  destruct f as [|f]; [lia|].
  destruct l as [|m' l].
  - simpl map. simpl Join.
    apply parse_elements_last. intros Y.
    apply parse_value_metric; [assumption|unfold need_metric in Hf; lia|assumption..].
  - change (map encode_metric (m :: m' :: l))
      with (encode_metric m :: map encode_metric (m' :: l)).
    change (map encode_metric (m' :: l)) with (encode_metric m' :: map encode_metric l).
    rewrite Join_cons2.
    change (encode_metric m' :: map encode_metric l) with (map encode_metric (m' :: l)).
    rewrite !append_assoc.
    apply parse_elements_more.
    + apply solid_Join_metrics.
    + intros Y. apply parse_value_metric;
        [assumption|unfold need_metric in Hf; lia|assumption..].
    + apply IH; [discriminate|assumption|lia|assumption..].
Qed.

Lemma parse_value_metrics ms f d X :
  Forall (metric_texts wellformed) (elems ms) -> need_metrics ms <= f ->
  depth_ok d -> depth_ok (d + 1) -> depth_ok (d + 2) ->
  parse_value f d (encode_metrics ms +:+ X) = Some (tree_of_metrics ms, X).
Proof.
  intros Hwf Hf Hd Hd1 Hd2. unfold need_metrics in Hf.
  destruct f as [|f]; [lia|].
  destruct ms as [l|]; unfold encode_metrics, tree_of_metrics, elems in *;
    [|apply parse_value_null].
  rewrite !append_assoc, append_cons, append_nil_l.
  rewrite parse_value_bracket, depth_check by assumption.
  destruct l as [|m l].
  - reflexivity.
  - rewrite skip_space_solid' by apply solid_Join_metrics.
    destruct (solid_Join_metrics m l ("]" +:+ X)) as (c & t & Ht & _).
    assert (Hc : is_byte c 93 = false).
    { destruct l as [|m' l]; simpl map in Ht.
      - simpl Join in Ht. unfold encode_metric in Ht. rewrite !append_assoc in Ht.
        injection Ht as <- _. reflexivity.
      - rewrite Join_cons2 in Ht. unfold encode_metric in Ht at 1.
        rewrite !append_assoc in Ht. injection Ht as <- _. reflexivity. }
    rewrite Ht, Hc. rewrite <- Ht.
    rewrite parse_metric_elements; [reflexivity|discriminate|assumption|lia| |].
    + replace (d + 1)%N with (d + 1)%N by reflexivity. assumption.
    + replace (d + 1 + 1)%N with (d + 2)%N by lia. assumption.
Qed.

Lemma solid_encode_metrics ms : solid (encode_metrics ms).
Proof. destruct ms; eexists _, _; split; reflexivity. Qed.

Lemma parse_value_file mf name f X :
  (forall Y g d,
     parse_value (S g) d (appendString (FileName mf) +:+ Y) = Some (VString name, Y)) ->
  Forall (metric_texts wellformed) (elems (Metrics mf)) -> need_file mf <= f ->
  parse_value f 0%N (fst (Marshal mf) +:+ X)
  = Some (tree_of_file (mkMetricFile name (Metrics mf)), X).
Proof.
  intros Hn Hms Hf. unfold need_file in Hf.
  assert (Hd : forall k, (k < 10)%N -> depth_ok k).
  { intros k Hk. unfold depth_ok, maxNestingDepth. lia. }
  destruct f as [|[|[|f]]]; try lia.
  unfold Marshal. cbn [fst]. rewrite !append_assoc, append_cons, append_nil_l.
  rewrite parse_value_brace, depth_check by (apply Hd; lia).
  rewrite skip_space_solid by apply solid_appendString.
  change (appendString "name") with (String (ascii_of_nat 34) ("name" +:+ quote)) at 1.
  rewrite append_cons.
  change (is_byte (ascii_of_nat 34) 125) with false. cbv iota.
  rewrite <- append_cons.
  change (String (ascii_of_nat 34) ("name" +:+ quote)) with (appendString "name").
  unfold tree_of_file. cbn [FileName Metrics].
  erewrite parse_members_more; [reflexivity|wf_literal|apply solid_appendString| | |].
  - apply solid_append, solid_appendString.
  - intros Y. apply Hn.
  - apply parse_members_last; [wf_literal|apply solid_encode_metrics|].
    intros Y. apply parse_value_metrics; [assumption|lia|apply Hd; lia..].
Qed.


Lemma fold_insert_members l g0 :
  fold_left insert_member (map member_tree l) (g0, None)
  = (fold_left (fun g kv => <[fst kv := snd kv]> g) l g0, None).
Proof.
  revert g0. induction l as [|[k v] l IH]; intros g0; [reflexivity|].
  cbn [map fold_left].
  change (insert_member (g0, None) (member_tree (k, v))) with (<[k := v]> g0, @None string).
  rewrite IH. reflexivity.
Qed.

Lemma fold_insert_lookup (l : list (string * string)) (g0 : gmap string string) k :
  NoDup (map fst l) ->
  fold_left (fun g kv => <[fst kv := snd kv]> g) l g0 !! k
  = match (list_to_map l : gmap string string) !! k with
    | Some v => Some v
    | None => g0 !! k
    end.
Proof.
  revert g0. induction l as [|[k0 v0] l IH]; intros g0 Hnd; simpl.
  - rewrite lookup_empty. reflexivity.
  - apply NoDup_cons in Hnd as [Hk0 Hnd]. rewrite IH by assumption.
    destruct (decide (k0 = k)) as [->|Hne].
    + rewrite lookup_insert_eq.
      assert (Hnone : (list_to_map l : gmap string string) !! k = None).
      { apply not_elem_of_list_to_map_1. assumption. }
      rewrite Hnone, lookup_insert_eq. reflexivity.
    + rewrite (lookup_insert_ne (list_to_map l)) by assumption.
      rewrite lookup_insert_ne by assumption. reflexivity.
Qed.

Lemma fold_insert_sorted g :
  fold_left (fun g kv => <[fst kv := snd kv]> g) (sorted_entries g) ∅ = g.
Proof.
  assert (Hp : sorted_entries g ≡ₚ map_to_list g)
    by (unfold sorted_entries; apply merge_sort_Permutation).
  apply map_eq. intros k. rewrite fold_insert_lookup.
  - rewrite lookup_empty.
    rewrite <- (list_to_map_flip g (sorted_entries g)) by (symmetry; exact Hp).
    destruct (g !! k); reflexivity.
  - rewrite Hp. apply NoDup_fst_map_to_list.
Qed.

Lemma store_tags_tree t : store_tags (tree_of_tags t) None = (t, None).
Proof.
  destruct t as [g|]; [|reflexivity].
  unfold tree_of_tags, store_tags.
  change (fun (acc : gmap string string * error) (kx : string * value) =>
            let (s, e) := store_string kx.2 EmptyString in
            (<[kx.1:=s]> acc.1, first_error acc.2 e)) with insert_member.
  simpl entries. rewrite fold_insert_members, fold_insert_sorted. reflexivity.
Qed.

Lemma store_metric_tree m : store_metric (tree_of_metric m) zero_metric = (m, None).
Proof.
  unfold tree_of_metric, store_metric. cbn [fold_left].
  unfold store_metric_member at 4. cbn [fst snd].
  change (find_field metric_fields "name") with (Some "name"%string).
  cbv iota beta. change (String.eqb "name" "name") with true. cbv iota.
  cbn [store_string first_error zero_metric Name Type_ Tags Value].
  unfold store_metric_member at 3. cbn [fst snd].
  change (find_field metric_fields "type") with (Some "type"%string).
  cbv iota beta. change (String.eqb "type" "name") with false.
  change (String.eqb "type" "type") with true. cbv iota.
  cbn [store_string first_error Name Type_ Tags Value].
  unfold store_metric_member at 2. cbn [fst snd].
  change (find_field metric_fields "tags") with (Some "tags"%string).
  cbv iota beta. change (String.eqb "tags" "name") with false.
  change (String.eqb "tags" "type") with false.
  change (String.eqb "tags" "tags") with true. cbv iota.
  cbn [Name Type_ Tags Value]. rewrite store_tags_tree. cbn [first_error].
  unfold store_metric_member. cbn [fst snd].
  change (find_field metric_fields "value") with (Some "value"%string).
  cbv iota beta. change (String.eqb "value" "name") with false.
  change (String.eqb "value" "type") with false.
  change (String.eqb "value" "tags") with false. cbv iota.
  cbn [store_string first_error Name Type_ Tags Value].
  destruct m; reflexivity.
Qed.

Lemma store_elements_tree l : store_elements (map tree_of_metric l) [] = (l, None).
Proof.
  induction l as [|m l IH]; [reflexivity|].
  cbn [map store_elements hd tl]. rewrite store_metric_tree, IH. reflexivity.
Qed.

Lemma store_metrics_tree ms :
  store_metrics (tree_of_metrics ms) None [] = (ms, [], None).
Proof.
  destruct ms as [l|]; [|reflexivity].
  unfold tree_of_metrics, store_metrics. cbn [elems app].
  rewrite store_elements_tree. destruct l; reflexivity.
Qed.

Lemma store_metricFile_tree mf :
  store_metricFile (tree_of_file mf) zero_metricFile = (mf, None).
Proof.
  unfold tree_of_file, store_metricFile. cbn [fold_left].
  change (store_metricFile_member (zero_metricFile, [], None)
            ("name"%string, VString (FileName mf)))
    with (mkMetricFile (FileName mf) None, @nil metric, @None string).
  change (store_metricFile_member (mkMetricFile (FileName mf) None, [], None)
            ("metrics"%string, tree_of_metrics (Metrics mf)))
    with (let (stored, e) := store_metrics (tree_of_metrics (Metrics mf)) None [] in
          (mkMetricFile (FileName mf) (fst stored), snd stored,
           first_error None e)).
  rewrite store_metrics_tree. cbn [first_error fst snd].
  destruct mf; reflexivity.
Qed.

Lemma length_appendString s : 2 <= String.length (appendString s).
Proof. unfold appendString. rewrite !length_append. simpl. lia. Qed.

Lemma length_Join_ge (l : list string) sep :
  Forall (fun x => 1 <= String.length x) l -> length l <= String.length (Join l sep).
Proof.
  induction 1 as [|x l Hx _ IH]; [simpl; lia|].
  destruct l as [|y l]; [simpl; lia|].
  rewrite Join_cons2, !length_append. simpl length in *. lia.
Qed.

Lemma length_encode_tags t : size (entries t) + 2 <= String.length (encode_tags t) + 2.
Proof.
  destruct t as [g|]; [|simpl; rewrite map_size_empty; lia].
  unfold encode_tags, entries. rewrite !length_append. simpl String.length.
  pose proof (length_Join_ge
    (map (fun kv : string * string => appendString kv.1 +:+ ":" +:+ appendString kv.2)
         (sorted_entries g)) ",") as H.
  rewrite length_map, length_sorted_entries in H.
  assert (size g <= String.length
            (Join (map (fun kv : string * string =>
                          appendString kv.1 +:+ ":" +:+ appendString kv.2)
                       (sorted_entries g)) ",")); [|lia].
  apply H. apply Forall_map, Forall_forall. intros kv _. simpl.
  rewrite !length_append. pose proof (length_appendString kv.1). lia.
Qed.

Lemma length_encode_metric m : need_metric m + 30 <= String.length (encode_metric m).
Proof.
  unfold need_metric, encode_metric. rewrite !length_append.
  change (String.length (appendString "name")) with 6.
  change (String.length (appendString "type")) with 6.
  change (String.length (appendString "tags")) with 6.
  change (String.length (appendString "value")) with 7.
  simpl String.length.
  pose proof (length_appendString (Name m)). pose proof (length_appendString (Type_ m)).
  pose proof (length_appendString (Value m)). pose proof (length_encode_tags (Tags m)).
  lia.
Qed.

Lemma length_Join_metrics l :
  need_elements l <= String.length (Join (map encode_metric l) ",").
Proof.
  induction l as [|m l IH]; [simpl; lia|].
  pose proof (length_encode_metric m) as Hm.
  destruct l as [|m' l].
  - cbn [map Join need_elements]. lia.
  - change (map encode_metric (m :: m' :: l))
      with (encode_metric m :: encode_metric m' :: map encode_metric l).
    rewrite Join_cons2, !length_append.
    change (encode_metric m' :: map encode_metric l) with (map encode_metric (m' :: l)).
    cbn [need_elements] in *. lia.
Qed.

Lemma need_file_length mf : need_file mf <= S (String.length (fst (Marshal mf))).
Proof.
  unfold need_file, need_metrics, Marshal. cbn [fst]. rewrite !length_append.
  change (String.length (appendString "name")) with 6.
  change (String.length (appendString "metrics")) with 9.
  simpl String.length.
  assert (need_elements (elems (Metrics mf)) <= String.length (encode_metrics (Metrics mf))).
  { destruct (Metrics mf) as [l|]; [|simpl; lia].
    unfold encode_metrics, elems. rewrite !length_append.
    pose proof (length_Join_metrics l). lia. }
  lia.
Qed.

(** Decoding the encoding of a file whose metrics hold well-formed UTF-8
    gives a file with the same metrics. *)
Lemma Unmarshal_Marshal_metrics mf :
  Forall (metric_texts wellformed) (elems (Metrics mf)) ->
  exists name,
    Unmarshal (fst (Marshal mf)) zero_metricFile
    = (mkMetricFile name (Metrics mf), None) /\
    (wellformed (FileName mf) -> name = FileName mf).
Proof.
  intros Hwf. destruct (parse_value_string_total (FileName mf)) as [name Hn].
  exists name. split.
  - unfold Unmarshal, parse.
    assert (Hs : solid (fst (Marshal mf))) by (eexists _, _; split; reflexivity).
    rewrite skip_space_solid' by assumption.
    rewrite <- (append_nil_r (fst (Marshal mf))) at 2.
    rewrite (parse_value_file mf name); [|exact Hn|assumption|apply need_file_length].
    simpl skip_space. apply store_metricFile_tree.
  - intros Hname.
    pose proof (Hn EmptyString 0 0%N) as H1.
    rewrite (parse_value_string (FileName mf) EmptyString 0 0%N Hname) in H1.
    injection H1 as H1. symmetry. exact H1.
Qed.

(** Decoding the encoding of a file whose texts are well-formed UTF-8
    gives the file back. *)
Lemma Unmarshal_Marshal mf :
  (file_texts wellformed) mf -> Unmarshal (fst (Marshal mf)) zero_metricFile = (mf, None).
Proof.
  intros [Hn Hms].
  destruct (Unmarshal_Marshal_metrics mf Hms) as (name & Hu & Hname).
  rewrite Hu, (Hname Hn). destruct mf; reflexivity.
Qed.

(** ** The decoder only stores well-formed UTF-8 *)

Lemma wellformed_app a b : wellformed a -> wellformed b -> wellformed (a +:+ b).
Proof.
  induction 1; intros Hb; rewrite ?append_cons, ?append_nil_l; auto.
  - apply wf_1; auto.
  - apply wf_2; auto.
  - apply wf_3; auto.
  - apply wf_4; auto.
Qed.

Section encode_facts.

Local Open Scope Z_scope.

Lemma wellformed_EncodeRune r : wellformed (EncodeRune r).
Proof.
  unfold EncodeRune, MaxRune.
  destruct (Z.leb_spec 0 r); simpl andb.
  2:{ destruct (Z.ltb_spec r 0); [|lia]. simpl orb. cbv iota.
      apply wf_3; [vm_compute; split; discriminate| |vm_compute; split; discriminate|constructor].
      unfold second_ok. vm_compute. repeat split; intros; discriminate. }
  destruct (Z.ltb_spec r 0x80).
  { apply wf_1; [|constructor]. rewrite byte_val_of by lia. assumption. }
  destruct (Z.ltb_spec r 0x800).
  { apply wf_2; [| |constructor].
    - rewrite byte_val_of; rewrite Z.shiftr_div_pow2, (lor_disjoint 0xC0 _ 6) by arith; arith.
    - change 0x3F with (Z.ones 6).
      rewrite byte_val_of; rewrite Z.land_ones, (lor_disjoint 0x80 _ 6) by arith; arith. }
  destruct (Z.ltb_spec r 0); [lia|]. simpl orb.
  destruct (Z.ltb_spec 0x10FFFF r).
  { simpl orb. cbv iota.
    apply wf_3; [vm_compute; split; discriminate| |vm_compute; split; discriminate|constructor].
    unfold second_ok. vm_compute. repeat split; intros; discriminate. }
  simpl orb.
  destruct (Z.leb_spec 0xD800 r); simpl andb.
  - destruct (Z.leb_spec r 0xDFFF).
    { apply wf_3; [vm_compute; split; discriminate| |vm_compute; split; discriminate|constructor].
      unfold second_ok. vm_compute. repeat split; intros; discriminate. }
    destruct (Z.ltb_spec r 0x10000).
    + change 0x3F with (Z.ones 6).
      assert (B0 : byte_val (byte_of (Z.lor 0xE0 (Z.shiftr r 12))) = 0xE0 + r / 4096).
      { rewrite byte_val_of; rewrite Z.shiftr_div_pow2, (lor_disjoint 0xE0 _ 4) by arith; arith. }
      assert (B1 : byte_val (byte_of (Z.lor 0x80 (Z.land (Z.shiftr r 6) (Z.ones 6))))
                   = 0x80 + (r / 64) mod 64).
      { rewrite byte_val_of; rewrite Z.land_ones, Z.shiftr_div_pow2, (lor_disjoint 0x80 _ 6) by arith; arith. }
      assert (B2 : byte_val (byte_of (Z.lor 0x80 (Z.land r (Z.ones 6)))) = 0x80 + r mod 64).
      { rewrite byte_val_of; rewrite Z.land_ones, (lor_disjoint 0x80 _ 6) by arith; arith. }
      apply wf_3; [| | |constructor]; unfold second_ok; rewrite ?B0, ?B1, ?B2; arith.
    + change 0x3F with (Z.ones 6).
      assert (B0 : byte_val (byte_of (Z.lor 0xF0 (Z.shiftr r 18))) = 0xF0 + r / 262144).
      { rewrite byte_val_of; rewrite Z.shiftr_div_pow2, (lor_disjoint 0xF0 _ 3) by arith; arith. }
      assert (B1 : byte_val (byte_of (Z.lor 0x80 (Z.land (Z.shiftr r 12) (Z.ones 6))))
                   = 0x80 + (r / 4096) mod 64).
      { rewrite byte_val_of; rewrite Z.land_ones, Z.shiftr_div_pow2, (lor_disjoint 0x80 _ 6) by arith; arith. }
      assert (B2 : byte_val (byte_of (Z.lor 0x80 (Z.land (Z.shiftr r 6) (Z.ones 6))))
                   = 0x80 + (r / 64) mod 64).
      { rewrite byte_val_of; rewrite Z.land_ones, Z.shiftr_div_pow2, (lor_disjoint 0x80 _ 6) by arith; arith. }
      assert (B3 : byte_val (byte_of (Z.lor 0x80 (Z.land r (Z.ones 6)))) = 0x80 + r mod 64).
      { rewrite byte_val_of; rewrite Z.land_ones, (lor_disjoint 0x80 _ 6) by arith; arith. }
      apply wf_4; [| | | |constructor]; unfold second_ok; rewrite ?B0, ?B1, ?B2, ?B3; arith.
  - destruct (Z.ltb_spec r 0x10000); [|lia].
    change 0x3F with (Z.ones 6).
    assert (B0 : byte_val (byte_of (Z.lor 0xE0 (Z.shiftr r 12))) = 0xE0 + r / 4096).
    { rewrite byte_val_of; rewrite Z.shiftr_div_pow2, (lor_disjoint 0xE0 _ 4) by arith; arith. }
    assert (B1 : byte_val (byte_of (Z.lor 0x80 (Z.land (Z.shiftr r 6) (Z.ones 6))))
                 = 0x80 + (r / 64) mod 64).
    { rewrite byte_val_of; rewrite Z.land_ones, Z.shiftr_div_pow2, (lor_disjoint 0x80 _ 6) by arith; arith. }
    assert (B2 : byte_val (byte_of (Z.lor 0x80 (Z.land r (Z.ones 6)))) = 0x80 + r mod 64).
    { rewrite byte_val_of; rewrite Z.land_ones, (lor_disjoint 0x80 _ 6) by arith; arith. }
    apply wf_3; [| | |constructor]; unfold second_ok; rewrite ?B0, ?B1, ?B2; arith.
Qed.

End encode_facts.

Section decoder_output.

Local Arguments unquote_from : simpl never.

Lemma wellformed_byte z : (0 <= z < 0x80)%Z -> wellformed (String (byte_of z) EmptyString).
Proof. intros H. apply wf_1; [rewrite byte_val_of by lia; lia|constructor]. Qed.

Lemma unescape_wellformed s out n : unescape s = Some (out, n) -> wellformed out.
Proof.
  unfold unescape. destruct s as [|c0 [|e t]]; try discriminate.
  destruct ((byte_val e =? 34)%Z || (byte_val e =? 92)%Z || (byte_val e =? 47)%Z) eqn:E1.
  { intros [= <- _]. apply wf_1; [|constructor].
    rewrite !orb_true_iff, !Z.eqb_eq in E1. lia. }
  repeat match goal with
  | |- (if ?b then _ else _) = _ -> _ =>
      destruct b; [intros [= <- _]; apply wellformed_byte; lia|]
  end.
  destruct (byte_val e =? 117)%Z; [|discriminate].
  destruct (getu4 _) as [rr|]; [|discriminate].
  destruct (IsSurrogate rr).
  - destruct (getu4 _) as [rr1|].
    + destruct (DecodeRune16 rr rr1 =? RuneError)%Z; intros [= <- _];
        apply wellformed_EncodeRune.
    + intros [= <- _]. apply wellformed_EncodeRune.
  - intros [= <- _]. apply wellformed_EncodeRune.
Qed.

Lemma prepend_Some p r content rest :
  prepend p r = Some (content, rest) ->
  exists content', r = Some (content', rest) /\ content = p +:+ content'.
Proof.
  unfold prepend. destruct r as [[c' r']|]; [|discriminate].
  intros [= <- <-]. eauto.
Qed.

Lemma unquote_from_wellformed s : forall k content rest,
  unquote_from k s = Some (content, rest) -> wellformed content.
Proof.
  induction s as [|c t IH]; intros k content rest H; [discriminate|].
  destruct k as [|k]; [|rewrite unquote_from_S in H; eauto].
  rewrite unquote_from_0 in H.
  destruct (byte_val c =? 34)%Z; [injection H as <- _; constructor|].
  destruct (byte_val c =? 92)%Z.
  { destruct (unescape (String c t)) as [[out n]|] eqn:E; [|discriminate].
    apply prepend_Some in H as (content' & H & ->).
    apply wellformed_app; [eapply unescape_wellformed; eauto|eauto]. }
  destruct (byte_val c <? 32)%Z; [discriminate|].
  destruct (Z.ltb_spec (byte_val c) RuneSelf).
  - apply prepend_Some in H as (content' & H & ->).
    rewrite append_cons, append_nil_l. apply wf_1; [assumption|eauto].
  - apply prepend_Some in H as (content' & H & ->).
    apply wellformed_app; [apply wellformed_EncodeRune|eauto].
Qed.

Lemma tree_wf_array vs : tree_wf (VArray vs) <-> Forall tree_wf vs.
Proof.
  induction vs as [|x vs IH]; simpl; [split; auto|].
  rewrite Forall_cons. simpl in IH. rewrite IH. reflexivity.
Qed.

Lemma tree_wf_object ms : tree_wf (VObject ms) <-> Forall member_wf ms.
Proof.
  induction ms as [|kx ms IH]; simpl; [split; auto|].
  rewrite Forall_cons. simpl in IH. rewrite IH. unfold member_wf. tauto.
Qed.


Lemma parse_wellformed fuel :
  (forall d s v rest, parse_value fuel d s = Some (v, rest) -> tree_wf v) /\
  (forall d s ms rest, parse_members fuel d s = Some (ms, rest) -> Forall member_wf ms) /\
  (forall d s vs rest, parse_elements fuel d s = Some (vs, rest) -> Forall tree_wf vs).
Proof.
  induction fuel as [|fuel (IHv & IHm & IHe)]; [repeat split; discriminate|].
  split; [|split].
  - intros d s v rest H. destruct s as [|c t]; [discriminate|].
    cbn [parse_value] in H.
    destruct (is_byte c 123).
    { split_match H; injection H as <- _.
      - exact I.
      - apply tree_wf_object. eauto. }
    destruct (is_byte c 91).
    { split_match H; injection H as <- _.
      - exact I.
      - apply tree_wf_array. eauto. }
    destruct (is_byte c 34).
    { unfold unquote in H. split_match H. injection H as <- _.
      simpl. eapply unquote_from_wellformed; eauto. }
    split_match H; injection H as <- _; exact I.
  - intros d s ms rest H. destruct s as [|c t]; [discriminate|].
    cbn [parse_members] in H. unfold unquote in H.
    split_match H; injection H as <- _.
    + constructor; [|eauto]. split; [eapply unquote_from_wellformed; eauto|]. simpl. eauto.
    + constructor; [|constructor].
      split; [eapply unquote_from_wellformed; eauto|]. simpl. eauto.
  - intros d s vs rest H. cbn [parse_elements] in H.
    split_match H; injection H as <- _.
    + constructor; eauto.
    + constructor; [eauto|constructor].
Qed.

Lemma parse_tree_wf data v : parse data = Some v -> tree_wf v.
Proof.
  unfold parse. intros H. split_match H. injection H as <-.
  eapply (proj1 (parse_wellformed _)); eauto.
Qed.

End decoder_output.


Section store_facts.

Lemma map_wf_insert g k v : map_wf g -> wellformed k -> wellformed v -> map_wf (<[k := v]> g).
Proof.
  intros Hg Hk Hv k' v' H. destruct (decide (k = k')) as [<-|Hne].
  - rewrite lookup_insert_eq in H. injection H as <-. auto.
  - rewrite lookup_insert_ne in H by assumption. eauto.
Qed.

Lemma map_wf_empty : map_wf ∅.
Proof. intros k v H. rewrite lookup_empty in H. discriminate. Qed.

Lemma store_string_wf v old :
  wellformed old -> tree_wf v -> wellformed (fst (store_string v old)).
Proof. destruct v; simpl; auto. Qed.

Lemma store_tags_wf v old :
  map_wf (entries old) -> tree_wf v -> map_wf (entries (fst (store_tags v old))).
Proof.
  intros Hold Hv. destruct v; simpl; auto using map_wf_empty.
  apply tree_wf_object in Hv.
  change (fun (acc : gmap string string * error) (kx : string * value) =>
            let (s, e) := store_string kx.2 EmptyString in
            (<[kx.1:=s]> acc.1, first_error acc.2 e)) with insert_member.
  assert (H : forall acc, map_wf (fst acc) ->
            map_wf (fst (fold_left insert_member members acc))).
  { induction Hv as [|kx ms [Hk Hx] _ IH]; intros acc Hacc; [exact Hacc|].
    cbn [fold_left]. apply IH. unfold insert_member.
    pose proof (store_string_wf (snd kx) EmptyString wf_nil Hx) as Hs.
    destruct (store_string (snd kx) EmptyString) as [s e]. simpl in *.
    apply map_wf_insert; assumption. }
  apply H. exact Hold.
Qed.

Lemma zero_metric_wf : (metric_texts wellformed) zero_metric.
Proof.
  repeat split; try constructor; simpl in H; rewrite lookup_empty in H; discriminate.
Qed.

Lemma store_metric_member_wf acc kx :
  (metric_texts wellformed) (fst acc) -> member_wf kx -> (metric_texts wellformed) (fst (store_metric_member acc kx)).
Proof.
  intros (Hn & Ht & Hv & Htags) [Hk Hx]. unfold store_metric_member.
  destruct acc as [m err]. simpl in *.
  destruct (find_field metric_fields (fst kx)) as [f|];
    [|unfold metric_texts; simpl; tauto].
  destruct (String.eqb f "name").
  { pose proof (store_string_wf (snd kx) (Name m) Hn Hx) as Hs.
    destruct (store_string (snd kx) (Name m)). unfold metric_texts; simpl in *; tauto. }
  destruct (String.eqb f "type").
  { pose proof (store_string_wf (snd kx) (Type_ m) Ht Hx) as Hs.
    destruct (store_string (snd kx) (Type_ m)). unfold metric_texts; simpl in *; tauto. }
  destruct (String.eqb f "tags").
  { pose proof (store_tags_wf (snd kx) (Tags m) Htags Hx) as Hs.
    destruct (store_tags (snd kx) (Tags m)). unfold metric_texts; simpl in *; tauto. }
  pose proof (store_string_wf (snd kx) (Value m) Hv Hx) as Hs.
  destruct (store_string (snd kx) (Value m)). unfold metric_texts; simpl in *; tauto.
Qed.

Lemma store_metric_wf v old :
  (metric_texts wellformed) old -> tree_wf v -> (metric_texts wellformed) (fst (store_metric v old)).
Proof.
  intros Hold Hv. destruct v; simpl; auto.
  apply tree_wf_object in Hv.
  assert (H : forall acc, (metric_texts wellformed) (fst acc) ->
            (metric_texts wellformed) (fst (fold_left store_metric_member members acc))).
  { induction Hv as [|kx ms Hkx _ IH]; intros acc Hacc; [exact Hacc|].
    cbn [fold_left]. apply IH. apply store_metric_member_wf; assumption. }
  apply H. exact Hold.
Qed.

Lemma store_elements_wf vs : forall old,
  Forall (metric_texts wellformed) old -> Forall tree_wf vs ->
  Forall (metric_texts wellformed) (fst (store_elements vs old)).
Proof.
  induction vs as [|v vs IH]; intros old Hold Hvs; [constructor|].
  apply Forall_cons in Hvs as [Hv Hvs]. cbn [store_elements].
  assert (Hhd : (metric_texts wellformed) (hd zero_metric old)).
  { destruct Hold; [apply zero_metric_wf|assumption]. }
  assert (Htl : Forall (metric_texts wellformed) (tl old)).
  { destruct Hold; [constructor|assumption]. }
  pose proof (store_metric_wf v _ Hhd Hv) as Hm.
  pose proof (IH _ Htl Hvs) as Hms.
  destruct (store_metric v (hd zero_metric old)) as [m e].
  destruct (store_elements vs (tl old)) as [ms e']. simpl in *.
  constructor; assumption.
Qed.

Lemma store_metrics_wf v old behind :
  Forall (metric_texts wellformed) (elems old) ->
  Forall (metric_texts wellformed) behind -> tree_wf v ->
  Forall (metric_texts wellformed) (elems (fst (fst (store_metrics v old behind)))) /\
  Forall (metric_texts wellformed) (snd (fst (store_metrics v old behind))).
Proof.
  intros Hold Hb Hv. destruct v; simpl; auto.
  apply tree_wf_array in Hv.
  assert (Hback : Forall (metric_texts wellformed) (elems old ++ behind))
    by (apply Forall_app; auto).
  pose proof (store_elements_wf elts _ Hback Hv) as H.
  destruct (store_elements elts (elems old ++ behind)). simpl in *.
  split; [exact H|]. destruct elts; [constructor|].
  apply Forall_drop. exact Hback.
Qed.

Lemma store_metricFile_member_wf acc kx :
  (file_texts wellformed) (fst (fst acc)) ->
  Forall (metric_texts wellformed) (snd (fst acc)) -> member_wf kx ->
  (file_texts wellformed) (fst (fst (store_metricFile_member acc kx))) /\
  Forall (metric_texts wellformed) (snd (fst (store_metricFile_member acc kx))).
Proof.
  intros [Hn Hms] Hb [Hk Hx]. unfold store_metricFile_member.
  destruct acc as [[mf behind] err]. simpl in *.
  destruct (find_field metricFile_fields (fst kx)) as [f|];
    [|unfold file_texts; simpl; tauto].
  destruct (String.eqb f "name").
  - pose proof (store_string_wf (snd kx) (FileName mf) Hn Hx) as Hs.
    destruct (store_string (snd kx) (FileName mf)). unfold file_texts; simpl in *; tauto.
  - pose proof (store_metrics_wf (snd kx) (Metrics mf) behind Hms Hb Hx) as Hs.
    destruct (store_metrics (snd kx) (Metrics mf) behind) as [[ms b] e].
    unfold file_texts; simpl in *; tauto.
Qed.

Lemma store_metricFile_wf v old :
  (file_texts wellformed) old -> tree_wf v -> (file_texts wellformed) (fst (store_metricFile v old)).
Proof.
  intros Hold Hv. destruct v; simpl; auto.
  apply tree_wf_object in Hv.
  assert (H : forall acc, (file_texts wellformed) (fst (fst acc)) ->
            Forall (metric_texts wellformed) (snd (fst acc)) ->
            (file_texts wellformed) (fst (fst (fold_left store_metricFile_member members acc)))).
  { induction Hv as [|kx ms Hkx _ IH]; intros acc Hacc Hb; [exact Hacc|].
    cbn [fold_left].
    destruct (store_metricFile_member_wf acc kx Hacc Hb Hkx) as [H1 H2].
    apply IH; assumption. }
  apply H; [exact Hold|constructor].
Qed.

(** Whatever the text, the decoder leaves well-formed UTF-8 in a struct
    that held well-formed UTF-8. *)
Lemma Unmarshal_wellformed data old :
  (file_texts wellformed) old -> (file_texts wellformed) (fst (Unmarshal data old)).
Proof.
  intros Hold. unfold Unmarshal. destruct (parse data) as [v|] eqn:E; [|exact Hold].
  apply store_metricFile_wf; [exact Hold|]. eapply parse_tree_wf; eauto.
Qed.

End store_facts.

(** ** The fuel of the parser *)

Section fuel_facts.
Local Arguments unquote_from : simpl never.

Lemma skip_space_length s : String.length (skip_space s) <= String.length s.
Proof.
  induction s as [|c t IH]; simpl; [lia|]. destruct (isSpace c); simpl; lia.
Qed.

Lemma unquote_from_length s : forall k content rest,
  unquote_from k s = Some (content, rest) -> String.length rest < String.length s.
Proof.
  induction s as [|c t IH]; intros k content rest H; [discriminate|].
  destruct k as [|k].
  - rewrite unquote_from_0 in H.
    destruct (byte_val c =? 34)%Z; [injection H as _ <-; simpl; lia|].
    destruct (byte_val c =? 92)%Z.
    { destruct (unescape (String c t)) as [[out n]|]; [|discriminate].
      apply prepend_Some in H as (content' & H & _). apply IH in H. simpl. lia. }
    destruct (byte_val c <? 32)%Z; [discriminate|].
    destruct (byte_val c <? RuneSelf)%Z;
      apply prepend_Some in H as (content' & H & _); apply IH in H; simpl; lia.
  - rewrite unquote_from_S in H. apply IH in H. simpl. lia.
Qed.

Lemma scan_number_length s : forall st rest,
  scan_number st s = Some rest -> String.length rest <= String.length s.
Proof.
  induction s as [|c t IH]; intros st rest H; simpl in H.
  - destruct (number_done st); [injection H as <-; lia|discriminate].
  - destruct (number_next st c).
    + apply IH in H. simpl. lia.
    + destruct (number_done st); [injection H as <-; lia|discriminate].
Qed.

Lemma strip_prefix_length p : forall s rest,
  strip_prefix p s = Some rest -> String.length rest <= String.length s.
Proof.
  induction p as [|a p IH]; intros s rest H; simpl in H.
  - injection H as <-. lia.
  - destruct s as [|c t]; [discriminate|]. destruct (Ascii.eqb a c); [|discriminate].
    apply IH in H. simpl. lia.
Qed.

Ltac replay :=
  repeat match goal with
  | E : ?x = _ |- context [?x] => rewrite E
  end.

Lemma parse_thrifty fuel :
  (forall d, thrifty (fun f => parse_value f d) fuel) /\
  (forall d, thrifty (fun f => parse_members f d) fuel) /\
  (forall d, thrifty (fun f => parse_elements f d) fuel).
Proof.
  induction fuel as [|fuel (IHv & IHm & IHe)]; [repeat split; discriminate|].
  split; [|split].
  - intros d s v rest H. destruct s as [|c t]; [discriminate|].
    cbn [parse_value] in H.
    destruct (is_byte c 123) eqn:B1.
    { split_match H; injection H as <- <-.
      - pose proof (skip_space_length t) as Hs.
        match goal with E : skip_space t = _ |- _ => rewrite E in Hs end. simpl in *.
        split; [lia|]. intros [|f'] Hf; [lia|]. cbn [parse_value]. replay. reflexivity.
      - pose proof (skip_space_length t) as Hs.
        match goal with E : skip_space t = _ |- _ => rewrite E in Hs end.
        match goal with E : parse_members _ _ _ = _ |- _ =>
          destruct (IHm _ _ _ _ E) as [Hlt Hre] end.
        simpl in *. split; [lia|]. intros [|f'] Hf; [lia|]. cbn [parse_value]. replay.
        rewrite Hre by lia. reflexivity. }
    destruct (is_byte c 91) eqn:B2.
    { split_match H; injection H as <- <-.
      - pose proof (skip_space_length t) as Hs.
        match goal with E : skip_space t = _ |- _ => rewrite E in Hs end. simpl in *.
        split; [lia|]. intros [|f'] Hf; [lia|]. cbn [parse_value]. replay. reflexivity.
      - pose proof (skip_space_length t) as Hs.
        match goal with E : skip_space t = _ |- _ => rewrite E in Hs end.
        match goal with E : parse_elements _ _ _ = _ |- _ =>
          destruct (IHe _ _ _ _ E) as [Hlt Hre] end.
        simpl in *. split; [lia|]. intros [|f'] Hf; [lia|]. cbn [parse_value]. replay.
        rewrite Hre by lia. reflexivity. }
    destruct (is_byte c 34) eqn:B3.
    { split_match H. injection H as <- <-.
      match goal with E : unquote t = _ |- _ =>
        pose proof (unquote_from_length _ _ _ _ E) as Hlt end.
      simpl. split; [lia|]. intros [|f'] Hf; [lia|]. cbn [parse_value]. replay. reflexivity. }
    destruct (is_byte c 45) eqn:B4.
    { split_match H. injection H as <- <-.
      match goal with E : scan_number _ t = _ |- _ =>
        pose proof (scan_number_length _ _ _ E) as Hlt end.
      simpl. split; [lia|]. intros [|f'] Hf; [lia|]. cbn [parse_value]. replay. reflexivity. }
    destruct (is_byte c 48) eqn:B5.
    { split_match H. injection H as <- <-.
      match goal with E : scan_number _ t = _ |- _ =>
        pose proof (scan_number_length _ _ _ E) as Hlt end.
      simpl. split; [lia|]. intros [|f'] Hf; [lia|]. cbn [parse_value]. replay. reflexivity. }
    destruct (isDigit c) eqn:B6.
    { split_match H. injection H as <- <-.
      match goal with E : scan_number _ t = _ |- _ =>
        pose proof (scan_number_length _ _ _ E) as Hlt end.
      simpl. split; [lia|]. intros [|f'] Hf; [lia|]. cbn [parse_value]. replay. reflexivity. }
    destruct (is_byte c 116) eqn:B7.
    { split_match H. injection H as <- <-.
      match goal with E : strip_prefix _ t = _ |- _ =>
        pose proof (strip_prefix_length _ _ _ E) as Hlt end.
      simpl. split; [lia|]. intros [|f'] Hf; [lia|]. cbn [parse_value]. replay. reflexivity. }
    destruct (is_byte c 102) eqn:B8.
    { split_match H. injection H as <- <-.
      match goal with E : strip_prefix _ t = _ |- _ =>
        pose proof (strip_prefix_length _ _ _ E) as Hlt end.
      simpl. split; [lia|]. intros [|f'] Hf; [lia|]. cbn [parse_value]. replay. reflexivity. }
    destruct (is_byte c 110) eqn:B9; [|discriminate].
    split_match H. injection H as <- <-.
    match goal with E : strip_prefix _ t = _ |- _ =>
      pose proof (strip_prefix_length _ _ _ E) as Hlt end.
    simpl. split; [lia|]. intros [|f'] Hf; [lia|]. cbn [parse_value]. replay. reflexivity.
  - intros d s ms rest H. destruct s as [|c t]; [discriminate|].
    cbn [parse_members] in H.
    destruct (is_byte c 34) eqn:B1; [|discriminate].
    destruct (unquote t) as [[key rest0]|] eqn:Eq; [|discriminate].
    pose proof (unquote_from_length _ _ _ _ Eq) as L0.
    pose proof (skip_space_length rest0) as L1.
    destruct (skip_space rest0) as [|colon rest1] eqn:E1; [discriminate|].
    destruct (is_byte colon 58) eqn:B2; [|discriminate].
    pose proof (skip_space_length rest1) as L2.
    destruct (parse_value fuel d (skip_space rest1)) as [[v rest2]|] eqn:Ev; [|discriminate].
    destruct (IHv _ _ _ _ Ev) as [L3 Rv].
    pose proof (skip_space_length rest2) as L4.
    destruct (skip_space rest2) as [|sep rest3] eqn:E2; [discriminate|].
    pose proof (skip_space_length rest3) as L5.
    simpl in L1, L4.
    destruct (is_byte sep 44) eqn:B3.
    + destruct (parse_members fuel d (skip_space rest3)) as [[ms' rest4]|] eqn:Em;
        [|discriminate].
      destruct (IHm _ _ _ _ Em) as [L6 Rm]. injection H as <- <-.
      simpl. split; [lia|]. intros [|f'] Hf; [lia|]. cbn [parse_members].
      rewrite B1, Eq, E1, B2, Rv by lia. rewrite E2, B3, Rm by lia. reflexivity.
    + destruct (is_byte sep 125) eqn:B4; [|discriminate]. injection H as <- <-.
      simpl. split; [lia|]. intros [|f'] Hf; [lia|]. cbn [parse_members].
      rewrite B1, Eq, E1, B2, Rv by lia. rewrite E2, B3, B4. reflexivity.
  - intros d s vs rest H. cbn [parse_elements] in H.
    destruct (parse_value fuel d s) as [[v rest0]|] eqn:Ev; [|discriminate].
    destruct (IHv _ _ _ _ Ev) as [L0 Rv].
    pose proof (skip_space_length rest0) as L1.
    destruct (skip_space rest0) as [|sep rest1] eqn:E1; [discriminate|].
    pose proof (skip_space_length rest1) as L2. simpl in L1.
    destruct (is_byte sep 44) eqn:B1.
    + destruct (parse_elements fuel d (skip_space rest1)) as [[vs' rest2]|] eqn:Ee;
        [|discriminate].
      destruct (IHe _ _ _ _ Ee) as [L3 Re]. injection H as <- <-.
      split; [lia|]. intros [|f'] Hf; [lia|]. cbn [parse_elements].
      rewrite Rv by lia. rewrite E1, B1, Re by lia. reflexivity.
    + destruct (is_byte sep 93) eqn:B2; [|discriminate]. injection H as <- <-.
      split; [lia|]. intros [|f'] Hf; [lia|]. cbn [parse_elements].
      rewrite Rv by lia. rewrite E1, B1, B2. reflexivity.
Qed.

(** Whatever a run of the parser finds with some fuel, [parse] finds with
    the fuel it takes: a text is never rejected for want of fuel. *)
Lemma parse_fuel_enough data fuel v rest :
  parse_value fuel 0%N (skip_space data) = Some (v, rest) ->
  parse_value (S (String.length data)) 0%N (skip_space data) = Some (v, rest).
Proof.
  intros H. destruct (proj1 (parse_thrifty fuel) 0%N _ _ _ H) as [_ Hre].
  apply Hre. pose proof (skip_space_length data). lia.
Qed.

End fuel_facts.

End json_facts.

(** ** Encoding, then decoding *)

Lemma metric_texts_impl (P Q : string -> Prop) m :
  (forall s, P s -> Q s) -> metric_texts P m -> metric_texts Q m.
Proof.
  intros H (Hn & Ht & Hv & Htags).
  split; [auto|]. split; [auto|]. split; [auto|].
  intros k v Hkv. destruct (Htags k v Hkv). auto.
Qed.

Lemma file_texts_impl (P Q : string -> Prop) mf :
  (forall s, P s -> Q s) -> file_texts P mf -> file_texts Q mf.
Proof.
  intros H [Hn Hms]. split; [auto|].
  eapply Forall_impl; [exact Hms|]. intros m. apply metric_texts_impl. exact H.
Qed.

Lemma zero_metricFile_wellformed : file_texts wellformed zero_metricFile.
Proof. split; constructor. Qed.




(* ===================================================================== *)
(** * Part III: the rest of the program *)
(* ===================================================================== *)

(** ** The comparison of the token *)

Section subtle_facts.
Import subtle.
Local Open Scope Z_scope.

Lemma small_byte x : 0 <= x < 256 <-> 0 <= x /\ Z.log2 x < 8.
Proof.
  split.
  - intros [H0 H1]. split; [assumption|].
    destruct (Z.eq_dec x 0) as [->|Hx]; [reflexivity|].
    apply Z.log2_lt_pow2; lia.
  - intros [H0 H1]. split; [assumption|].
    destruct (Z.eq_dec x 0) as [->|Hx]; [lia|].
    change 256 with (2 ^ 8). apply Z.log2_lt_pow2; lia.
Qed.

Lemma lor_lxor_byte v a b :
  0 <= v < 256 -> 0 <= a < 256 -> 0 <= b < 256 ->
  0 <= Z.lor v (Z.lxor a b) < 256.
Proof.
  rewrite !small_byte. intros [Hv Lv] [Ha La] [Hb Lb].
  assert (Hx : 0 <= Z.lxor a b) by (apply Z.lxor_nonneg; tauto).
  split; [apply Z.lor_nonneg; tauto|].
  rewrite Z.log2_lor by assumption.
  pose proof (Z.log2_lxor a b Ha Hb). lia.
Qed.

Lemma accumulate_byte x : forall y v,
  0 <= v < 256 -> 0 <= accumulate v x y < 256.
Proof.
  induction x as [|a x IH]; intros [|b y] v Hv; simpl; try assumption.
  apply IH. apply lor_lxor_byte; auto using byte_val_range.
Qed.

Lemma accumulate_zero x : forall y v,
  String.length x = String.length y ->
  (accumulate v x y = 0 <-> v = 0 /\ x = y).
Proof.
  induction x as [|a x IH]; intros [|b y] v Hl; simpl in *; try discriminate.
  - tauto.
  - rewrite IH by lia. rewrite Z.lor_eq_0_iff, Z.lxor_eq_0_iff. split.
    + intros [[-> Hab] ->]. apply byte_val_inj in Hab. subst. auto.
    + intros [-> Heq]. injection Heq as -> ->. auto.
Qed.

Lemma ConstantTimeByteEq_zero v :
  0 <= v < 256 -> ConstantTimeByteEq v 0 = if v =? 0 then 1 else 0.
Proof.
  intros Hv. unfold ConstantTimeByteEq. rewrite Z.lxor_0_r.
  destruct (Z.eqb_spec v 0) as [->|Hne]; [reflexivity|].
  rewrite Z.mod_small by lia. rewrite Z.shiftr_div_pow2 by lia.
  apply Z.div_small. lia.
Qed.

(** [ConstantTimeCompare] is 1 on equal slices and 0 on all others. *)
Lemma ConstantTimeCompare_eqb x y :
  ConstantTimeCompare x y = if String.eqb x y then 1 else 0.
Proof.
  unfold ConstantTimeCompare.
  destruct (Nat.eqb_spec (String.length x) (String.length y)) as [Hl|Hl]; simpl.
  - rewrite ConstantTimeByteEq_zero by (apply accumulate_byte; lia).
    destruct (String.eqb_spec x y) as [->|Hne].
    + replace (accumulate 0 y y) with 0; [reflexivity|].
      symmetry. apply accumulate_zero; auto.
    + destruct (Z.eqb_spec (accumulate 0 x y) 0) as [E|E]; [|reflexivity].
      apply accumulate_zero in E; [|assumption]. tauto.
  - destruct (String.eqb_spec x y) as [->|Hne]; [congruence|reflexivity].
Qed.

End subtle_facts.

(** ** Authentication *)

Section auth_facts.

Lemma substring_prefix p t : substring 0 (String.length p) (p +:+ t) = p.
Proof.
  induction p as [|a p IH].
  - rewrite append_nil_l. destruct t; reflexivity.
  - rewrite append_cons. cbn [String.length substring]. f_equal. exact IH.
Qed.

Lemma substring_split n s :
  (n <= String.length s)%nat -> s = substring 0 n s +:+ json.drop_bytes n s.
Proof.
  revert s. induction n as [|n IH]; intros s Hn.
  - destruct s; reflexivity.
  - destruct s as [|a s]; cbn [String.length] in Hn; [lia|].
    cbn [substring json.drop_bytes]. rewrite append_cons. f_equal. apply IH. lia.
Qed.

Lemma HasPrefix_spec s p : HasPrefix s p = true <-> exists t, s = p +:+ t.
Proof.
  unfold HasPrefix. rewrite andb_true_iff, Nat.leb_le, String.eqb_eq. split.
  - intros [Hl Hp]. exists (json.drop_bytes (String.length p) s).
    rewrite <- Hp at 1. apply substring_split. assumption.
  - intros [t ->]. split; [|apply substring_prefix].
    rewrite length_append. lia.
Qed.

Lemma drop_bytes_prefix p t : json.drop_bytes (String.length p) (p +:+ t) = t.
Proof.
  induction p as [|a p IH].
  - rewrite append_nil_l. destruct t; reflexivity.
  - rewrite append_cons. cbn [String.length json.drop_bytes]. exact IH.
Qed.

Lemma append_inv_l p a b : p +:+ a = p +:+ b -> a = b.
Proof.
  induction p as [|x p IH]; [auto|].
  rewrite !append_cons. intros H. injection H as H. auto.
Qed.

Context (P : Platform).
Variable Headers : Request P -> gomap.
Variable c : config.

Lemma metricAuth_prefixed req token :
  index (Headers req) "Authorization" = "Bearer " +:+ token ->
  metricAuth P Headers c req
  = if String.eqb token (AuthToken c) then ZeroResponse
    else Reject "bad auth token".
Proof.
  intros Ha. unfold metricAuth. cbv zeta.
  assert (Hp : HasPrefix (index (Headers req) "Authorization") "Bearer " = true)
    by (apply HasPrefix_spec; eauto).
  rewrite Hp. cbn [negb]. rewrite Ha.
  change 7%nat with (String.length "Bearer "). rewrite drop_bytes_prefix.
  rewrite ConstantTimeCompare_eqb.
  destruct (String.eqb token (AuthToken c)); reflexivity.
Qed.

Lemma metricAuth_unprefixed req :
  (forall token, index (Headers req) "Authorization" <> "Bearer " +:+ token) ->
  metricAuth P Headers c req = Reject "no auth token".
Proof.
  intros Hno. unfold metricAuth. cbv zeta.
  destruct (HasPrefix _ _) eqn:Hp; [|reflexivity].
  apply HasPrefix_spec in Hp as [t Ht]. destruct (Hno t Ht).
Qed.

Lemma prefixed_or_not (s p : string) :
  (exists t, s = p +:+ t) \/ (forall t, s <> p +:+ t).
Proof.
  destruct (HasPrefix s p) eqn:Hp.
  - left. apply HasPrefix_spec. assumption.
  - right. intros t Ht.
    assert (HasPrefix s p = true) by (apply HasPrefix_spec; eauto). congruence.
Qed.

End auth_facts.

(** X1: a submission passes [metricAuth] exactly when its [Authorization]
    header is [Bearer], one space and the configured token, byte for
    byte. *)
Theorem metricAuth_passes_iff (P : Platform) (Headers : Request P -> gomap)
    (c : config) (req : Request P) :
  metricAuth P Headers c req = ZeroResponse
  <-> index (Headers req) "Authorization" = "Bearer " +:+ AuthToken c.
Proof.
  destruct (prefixed_or_not (index (Headers req) "Authorization") "Bearer ")
    as [[t Ht]|Hno].
  - rewrite (metricAuth_prefixed P Headers c req t Ht), Ht.
    destruct (String.eqb_spec t (AuthToken c)) as [->|Hne].
    + tauto.
    + split; [discriminate|]. intros H. apply append_inv_l in H. contradiction.
  - rewrite (metricAuth_unprefixed P Headers c req Hno).
    split; [discriminate|]. intros H. destruct (Hno _ H).
Qed.

(** X2: [metricAuth] answers "no auth token" exactly when the [Authorization]
    header does not start with [Bearer] and a space, as when the request has
    no such header, and "bad auth token" exactly when what follows that
    prefix is not the configured token. *)
Theorem metricAuth_rejections (P : Platform) (Headers : Request P -> gomap)
    (c : config) (req : Request P) :
  (metricAuth P Headers c req = Reject "no auth token"
   <-> forall token, index (Headers req) "Authorization" <> "Bearer " +:+ token) /\
  (metricAuth P Headers c req = Reject "bad auth token"
   <-> exists token,
         index (Headers req) "Authorization" = "Bearer " +:+ token /\
         token <> AuthToken c) /\
  (entries (Headers req) !! "Authorization" = None ->
   metricAuth P Headers c req = Reject "no auth token").
Proof.
  destruct (prefixed_or_not (index (Headers req) "Authorization") "Bearer ")
    as [[t Ht]|Hno].
  - rewrite (metricAuth_prefixed P Headers c req t Ht).
    split; [|split].
    + split.
      * destruct (String.eqb t (AuthToken c)); discriminate.
      * intros H. destruct (H t Ht).
    + destruct (String.eqb_spec t (AuthToken c)) as [->|Hne]; split.
      * discriminate.
      * intros (t' & Ht' & Hne). rewrite Ht in Ht'.
        apply append_inv_l in Ht'. congruence.
      * eauto.
      * reflexivity.
    + intros Hnone. unfold index in Ht. rewrite Hnone in Ht. discriminate.
  - rewrite (metricAuth_unprefixed P Headers c req Hno).
    split; [|split].
    + tauto.
    + split; [discriminate|]. intros (t & Ht & _). destruct (Hno t Ht).
    + reflexivity.
Qed.

(** ** The patterns, byte by byte *)

Section pattern_facts.
Import utf8 regexp.
Local Open Scope Z_scope.

(** A text of low bytes is its own list of runes, and no other text has
    these runes. *)
Lemma runes_low_inj t : all_bytes low_byte t = true ->
  forall s, runes s = runes t -> s = t.
Proof.
  induction t as [|c t IH]; intros Hl s Hs.
  - apply runes_nil. assumption.
  - rewrite all_bytes_cons in Hl. apply andb_prop in Hl as [Hc Ht].
    apply Z.ltb_lt in Hc. rewrite runes_low_cons in Hs by assumption.
    apply runes_cons_low in Hs as (c' & t' & -> & Hcc & Hr); [|assumption].
    apply byte_val_inj in Hcc. subst c'. f_equal. apply IH; assumption.
Qed.

Lemma matches_literal rs w : matches (literal rs) w <-> w = rs.
Proof.
  revert w. induction rs as [|r rs IH]; intros w.
  - simpl. split; [inversion 1; reflexivity|intros ->; constructor].
  - destruct rs as [|r' rs].
    + simpl. split; [inversion 1; reflexivity|intros ->; constructor].
    + change (literal (r :: r' :: rs)) with (Concat (Literal r) (literal (r' :: rs))).
      split.
      * inversion 1 as [| | | |a b u v Hu Hv| | | | | | |]; subst.
        inversion Hu; subst. apply IH in Hv. subst. reflexivity.
      * intros ->. change (r :: r' :: rs) with ([r] ++ r' :: rs).
        constructor; [constructor|]. apply IH. reflexivity.
Qed.

Lemma metricRegex_only s :
  MatchString metricRegex s = true -> s = "/metric"%string.
Proof.
  unfold metricRegex. rewrite MatchString_anchored, matches_literal.
  apply runes_low_inj. reflexivity.
Qed.

Lemma indexRegex_only s :
  MatchString indexRegex s = true -> s = "/"%string \/ s = "/metrics"%string.
Proof.
  unfold indexRegex. rewrite MatchString_anchored.
  pose proof (matches_literal (runes "metrics")) as Hlit. revert Hlit.
  generalize (literal (runes "metrics")). intros e Hlit H.
  inversion H as [| | | |a b u v Hu Hv| | | | | | |]; subst.
  inversion Hu; subst.
  inversion Hv as [| | | | | | | | | |a|a u' Hl]; subst.
  - left. apply runes_low_inj; [reflexivity|]. symmetry. assumption.
  - right. apply Hlit in Hl. subst.
    apply runes_low_inj; [reflexivity|]. symmetry. assumption.
Qed.

End pattern_facts.

(** X3: the pattern of the submission route matches the path [/metric] and no
    other text. *)
Theorem metricRegex_exact (path : string) :
  regexp.MatchString metricRegex path = true <-> path = "/metric".
Proof.
  split; [apply metricRegex_only|]. intros ->. reflexivity.
Qed.

(** X4: the pattern of the index route matches the paths [/] and [/metrics]
    and no other text. *)
Theorem indexRegex_exact (path : string) :
  regexp.MatchString indexRegex path = true
  <-> path = "/" \/ path = "/metrics".
Proof.
  split; [apply indexRegex_only|]. intros [->| ->]; reflexivity.
Qed.

(** X5: no path matches the patterns of both routes. *)
Theorem routes_disjoint (path : string) :
  regexp.MatchString metricRegex path && regexp.MatchString indexRegex path
  = false.
Proof.
  destruct (regexp.MatchString metricRegex path) eqn:Hm; [|reflexivity].
  destruct (regexp.MatchString indexRegex path) eqn:Hi; [|reflexivity].
  apply metricRegex_only in Hm. apply indexRegex_only in Hi.
  subst path. destruct Hi; discriminate.
Qed.

(** ** The two patterns of the metric model, byte by byte *)

Section model_pattern_theorems.
Import utf8 regexp.
Local Open Scope Z_scope.

(** X6: the text pattern accepts exactly the texts that are not empty and
    made of ASCII letters, digits, underscores, hyphens and slashes. *)
Theorem textRegex_accepts_iff (s : string) :
  regexp.MatchString textRegex s = true
  <-> s <> EmptyString /\ all_bytes text_byte s = true.
Proof. apply textRegex_text. Qed.

(** X7: the value pattern accepts exactly the texts made of one ASCII digit or
    more, followed either by nothing or by one rune other than the newline
    and a plus sign. *)
Theorem valueRegex_accepts_iff (s : string) :
  regexp.MatchString valueRegex s = true
  <-> exists digits rest,
        s = digits +:+ rest /\
        digits <> EmptyString /\ all_bytes digit_byte digits = true /\
        (rest = EmptyString \/
         exists r, r <> 10%Z /\ utf8.runes rest = [r; 43%Z]).
Proof. apply valueRegex_bytes. Qed.

End model_pattern_theorems.

(** ** What the aggregation returns *)

Section aggregation_facts.

Context (P : Platform) (c : config).

Lemma validate_metrics_app a b :
  validate_metrics (a ++ b) = validate_metrics a && validate_metrics b.
Proof.
  induction a as [|m a IH]; [reflexivity|].
  simpl. destruct (metric_Validate m); simpl; auto.
Qed.

Lemma readMetricFile_cases client store f mf err :
  readMetricFile P c client store f = (mf, err) ->
  (err = None /\ metricFile_Validate mf = true) \/
  (err <> None /\ mf = zero_metricFile).
Proof.
  unfold readMetricFile.
  destruct (GetObject P client store (MetricBucket c) f) as [result [e|]].
  { intros [= <- <-]. right. split; [discriminate|reflexivity]. }
  destruct (ReadAll result) as [body [e|]].
  { intros [= <- <-]. right. split; [discriminate|reflexivity]. }
  destruct (json.Unmarshal body zero_metricFile) as [mf' [e|]].
  { intros [= <- <-]. right. split; [discriminate|reflexivity]. }
  destruct (metricFile_Validate mf') eqn:V; cbn [negb].
  - intros [= <- <-]. left. auto.
  - intros [= <- <-]. right. split; [discriminate|reflexivity].
Qed.

Lemma metricFile_Validate_metrics mf :
  metricFile_Validate mf = true -> validate_metrics (elems (Metrics mf)) = true.
Proof.
  unfold metricFile_Validate. destruct (String.eqb _ _); [discriminate|auto].
Qed.

Lemma read_files_cases client store files : forall all0 all err,
  validate_metrics (elems (Metrics all0)) = true ->
  read_files P c client store files all0 = (all, err) ->
  (err = None /\ FileName all = FileName all0 /\
   validate_metrics (elems (Metrics all)) = true) \/
  (err <> None /\ all = zero_metricFile).
Proof.
  induction files as [|f files IH]; intros all0 all err Hv; simpl.
  - intros [= <- <-]. left. auto.
  - destruct (readMetricFile P c client store f) as [mf e] eqn:Hf.
    apply readMetricFile_cases in Hf as [[-> Hmf]|[He ->]].
    + intros Hr. apply IH in Hr.
      * exact Hr.
      * simpl. rewrite append_elems, validate_metrics_app, Hv. simpl.
        apply metricFile_Validate_metrics. assumption.
    + destruct e as [e|]; [|congruence].
      intros [= <- <-]. right. split; [discriminate|reflexivity].
Qed.

Lemma readMetrics_cases client store all err :
  readMetrics P c client store = (all, err) ->
  (err = None /\ FileName all = "__all__" /\
   validate_metrics (elems (Metrics all)) = true) \/
  (err <> None /\ all = zero_metricFile).
Proof.
  unfold readMetrics.
  destruct (listMetricFiles P c client store) as [files [e|]].
  - intros [= <- <-]. right. split; [discriminate|reflexivity].
  - intros H. apply read_files_cases in H; [exact H|reflexivity].
Qed.

Lemma list_pages_spec pages : forall acc,
  list_pages pages acc
  = match pages_error pages with
    | Some e => ([], Some e)
    | None => (acc ++ concat (map fst pages), None)
    end.
Proof.
  induction pages as [|[contents [e|]] pages IH]; intros acc; simpl.
  - rewrite app_nil_r. reflexivity.
  - reflexivity.
  - rewrite IH. destruct (pages_error pages); [reflexivity|].
    rewrite app_assoc. reflexivity.
Qed.

End aggregation_facts.

(** X8: whatever [readMetrics] returns without error is named "__all__" and
    passes [Validate], every metric of it included; with an error it returns
    the zero [metricFile]. *)
Theorem readMetrics_result_valid (P : Platform) (c : config)
    (client : Client P) (store : S3 P) :
  (forall all, readMetrics P c client store = (all, None) ->
     FileName all = "__all__" /\ metricFile_Validate all = true /\
     Forall (fun m => metric_Validate m = true) (elems (Metrics all))) /\
  (forall all e, readMetrics P c client store = (all, Some e) ->
     all = zero_metricFile).
Proof.
  split.
  - intros all H. apply readMetrics_cases in H as [(_ & Hn & Hv)|[He _]];
      [|congruence].
    split; [exact Hn|]. split.
    + unfold metricFile_Validate. rewrite Hn. exact Hv.
    + apply validate_metrics_true. exact Hv.
  - intros all e H. apply readMetrics_cases in H as [(He & _)|[_ Hz]];
      [discriminate|exact Hz].
Qed.

(** X9: [listMetricFiles] lists the bucket of the configuration: when no page
    of the listing comes with an error it returns the keys of all pages, in
    the order of the pages and of the keys in each; otherwise it returns no
    key at all, and the error of the first page that has one. *)
Theorem listMetricFiles_pages (P : Platform) (c : config)
    (client : Client P) (store : S3 P) :
  listMetricFiles P c client store
  = match pages_error (ListObjectsV2Pages P client store (MetricBucket c)) with
    | Some e => ([], Some e)
    | None =>
      (concat (map fst (ListObjectsV2Pages P client store (MetricBucket c))), None)
    end.
Proof. unfold listMetricFiles. apply list_pages_spec. Qed.

(** ** The exposition of a file *)

Section exposition_facts.

Lemma render_all_app o1 o2 ms1 ms2 :
  length o1 = length ms1 ->
  render_all (o1 ++ o2) (ms1 ++ ms2) = render_all o1 ms1 +:+ render_all o2 ms2.
Proof.
  revert o1. induction ms1 as [|m ms1 IH]; intros [|o o1] Hl; try discriminate.
  - reflexivity.
  - simpl in Hl. injection Hl as Hl.
    change (render_all ((o :: o1) ++ o2) ((m :: ms1) ++ ms2))
      with (metric_String o m +:+ render_all (o1 ++ o2) (ms1 ++ ms2)).
    change (render_all (o :: o1) (m :: ms1))
      with (metric_String o m +:+ render_all o1 ms1).
    rewrite IH by assumption. rewrite append_assoc. reflexivity.
Qed.

Lemma metric_TagString_no_newline order m :
  metric_Validate m = true -> range_order (Tags m) order ->
  no_newline (type_line m) = true /\
  no_newline (sample_line m (metric_TagString order m)) = true.
Proof.
  intros Hv Hord. rewrite <- (metric_Validate_in_order m order Hord) in Hv.
  unfold metric_Validate_in in Hv.
  destruct (regexp.MatchString textRegex (Name m)) eqn:Hn; [|discriminate].
  destruct (regexp.MatchString textRegex (Type_ m)) eqn:Ht; [|discriminate].
  destruct (regexp.MatchString valueRegex (Value m)) eqn:Hval; [|discriminate].
  cbn [negb] in Hv. apply validate_tags_Forall in Hv.
  apply textRegex_no_newline in Hn, Ht. apply valueRegex_no_newline in Hval.
  assert (Hblock : no_newline (metric_TagString order m) = true).
  { unfold metric_TagString.
    destruct (size (entries (Tags m)) =? 0)%nat; [reflexivity|].
    apply tag_block_no_newline. assumption. }
  unfold type_line, sample_line.
  rewrite !no_newline_app, Hn, Ht, Hblock, Hval. split; reflexivity.
Qed.

(** The stanza of a validated metric is three lines, whatever follows. *)
Lemma lines_metric_String order m rest :
  metric_Validate m = true -> range_order (Tags m) order ->
  lines (metric_String order m +:+ rest)
  = type_line m :: sample_line m (metric_TagString order m) :: EmptyString
      :: lines rest.
Proof.
  intros Hv Hord.
  destruct (metric_TagString_no_newline order m Hv Hord) as [Ht Hs].
  rewrite metric_String_lines, !append_assoc. unfold lines.
  rewrite lines_from_line by assumption. unfold lines.
  rewrite lines_from_line by assumption. unfold lines.
  rewrite <- (append_nil_l (newline +:+ rest)).
  rewrite lines_from_line by reflexivity. reflexivity.
Qed.

Lemma lines_render_all orders ms :
  Forall (fun m => metric_Validate m = true) ms ->
  range_orders ms orders ->
  lines (render_all orders ms) = exposition orders ms.
Proof.
  intros Hv Ho. revert Hv.
  induction Ho as [|o m orders ms Hom _ IH]; intros Hv; [reflexivity|].
  apply Forall_cons in Hv as [Hm Hv].
  change (render_all (o :: orders) (m :: ms))
    with (metric_String o m +:+ render_all orders ms).
  rewrite lines_metric_String by assumption. rewrite IH by assumption.
  reflexivity.
Qed.

Lemma length_exposition orders ms :
  length (exposition orders ms) = 3 * length ms.
Proof.
  revert orders. induction ms as [|m ms IH]; intros orders; [reflexivity|].
  simpl. rewrite IH. lia.
Qed.

End exposition_facts.

(** X10: the rendering of a file whose metrics are those of a first file
    followed by those of a second, as [readMetrics] appends them, is the
    rendering of the first followed by the rendering of the second. *)
Theorem metricFile_String_append (name : string) (mf1 mf2 : metricFile)
    (o1 o2 : list (list (string * string))) :
  length o1 = length (elems (Metrics mf1)) ->
  metricFile_String (o1 ++ o2)
    (mkMetricFile name (append (Metrics mf1) (Metrics mf2)))
  = metricFile_String o1 mf1 +:+ metricFile_String o2 mf2.
Proof.
  intros Hl. unfold metricFile_String. simpl.
  rewrite append_elems. apply render_all_app. assumption.
Qed.

Lemma metricFile_String_append_witness :
  metricFile_String ([[]] ++ [[]])
    (mkMetricFile "__all__" (append (Metrics file_a) (Metrics file_b)))
  = metricFile_String [[]] file_a +:+ metricFile_String [[]] file_b.
Proof.
  apply (metricFile_String_append "__all__" file_a file_b [[]] [[]]).
  reflexivity.
Defined.

(** X11: the rendering of a file that passes [Validate] has exactly three lines
    for each metric, in the order of the metrics: the type line, the sample
    line and an empty line. *)
Theorem metricFile_String_lines (mf : metricFile)
    (orders : list (list (string * string))) :
  metricFile_Validate mf = true ->
  range_orders (elems (Metrics mf)) orders ->
  lines (metricFile_String orders mf) = exposition orders (elems (Metrics mf)) /\
  length (lines (metricFile_String orders mf)) = 3 * length (elems (Metrics mf)).
Proof.
  intros Hv Ho. apply metricFile_Validate_true in Hv as [_ Hv].
  unfold metricFile_String. rewrite lines_render_all by assumption.
  split; [reflexivity|apply length_exposition].
Qed.

Lemma metricFile_String_lines_witness :
  lines (metricFile_String [[("job", "api")]] tagged_file)
  = exposition [[("job", "api")]] (elems (Metrics tagged_file)) /\
  length (lines (metricFile_String [[("job", "api")]] tagged_file))
  = 3 * length (elems (Metrics tagged_file)).
Proof.
  assert (Ho : range_order (Some {["job" := "api"]}) [("job", "api")]).
  { unfold range_order. simpl. rewrite map_to_list_singleton. reflexivity. }
  apply (metricFile_String_lines tagged_file [[("job", "api")]]).
  - apply metricFile_Validate_true. split; [discriminate|].
    constructor; [|constructor].
    rewrite <- (metric_Validate_in_order _ [("job", "api")]) by exact Ho.
    reflexivity.
  - constructor; [exact Ho|constructor].
Defined.

(** ** The handlers *)

Section handler_facts.

Context (P : Platform) (c : config).

Lemma indexHandler_Succeed orders req store doc :
  indexHandler P c orders req store = Succeed doc ->
  exists client all,
    getClient P = (client, None) /\
    readMetrics P c client store = (all, None) /\
    doc = metricFile_String orders all.
Proof.
  unfold indexHandler.
  destruct (getClient P) as [client [e|]] eqn:Hc; [discriminate|].
  destruct (readMetrics P c client store) as [all [e|]] eqn:Hr; [discriminate|].
  intros [= <-]. exists client, all. auto.
Qed.

(** The run of [metricHandler] that answers with success. *)
Lemma metricHandler_Succeed req store msg store' :
  metricHandler P c req store = (Succeed msg, store') ->
  exists body mf client,
    DecodedBody P req = (body, None) /\
    json.Unmarshal body zero_metricFile = (mf, None) /\
    metricFile_Validate mf = true /\
    getClient P = (client, None) /\
    PutObject P client store (MetricBucket c) (FileName mf) (fst (json.Marshal mf))
    = (store', None) /\
    msg = EmptyString.
Proof.
  unfold metricHandler.
  destruct (DecodedBody P req) as [body [e|]] eqn:Hb; [discriminate|].
  destruct (json.Unmarshal body zero_metricFile) as [mf [e|]] eqn:Hu;
    [discriminate|].
  destruct (metricFile_Validate mf) eqn:Hv; cbn [negb]; [|discriminate].
  destruct (json.Marshal mf) as [content [e|]] eqn:Hm; [discriminate|].
  destruct (getClient P) as [client [e|]] eqn:Hc; [discriminate|].
  destruct (PutObject P client store (MetricBucket c) (FileName mf) content)
    as [st [e|]] eqn:Hp; [discriminate|].
  intros [= <- <-]. exists body, mf, client. rewrite Hm. cbn [fst].
  repeat split; assumption || reflexivity.
Qed.

Lemma readMetricFile_of_body client store f body mf :
  GetObject P client store (MetricBucket c) f = ((body, None), None) ->
  json.Unmarshal body zero_metricFile = (mf, None) ->
  metricFile_Validate mf = true ->
  readMetricFile P c client store f = (mf, None).
Proof.
  intros Hg Hu Hv. unfold readMetricFile. rewrite Hg. cbn [ReadAll].
  rewrite Hu, Hv. reflexivity.
Qed.

End handler_facts.

(** X12: when [indexHandler] answers with success, the document it serves is
    the rendering of metrics that all pass [Validate], and so has exactly
    three lines for each of them. *)
Theorem indexHandler_document (P : Platform) (c : config)
    (orders : list (list (string * string))) (req : Request P) (store : S3 P)
    (doc : string) :
  indexHandler P c orders req store = Succeed doc ->
  exists ms,
    Forall (fun m => metric_Validate m = true) ms /\
    doc = render_all orders ms /\
    (range_orders ms orders ->
     lines doc = exposition orders ms /\ length (lines doc) = 3 * length ms).
Proof.
  intros H. apply indexHandler_Succeed in H as (client & all & _ & Hr & ->).
  apply readMetrics_cases in Hr as [(_ & _ & Hv)|[He _]]; [|congruence].
  apply validate_metrics_true in Hv.
  exists (elems (Metrics all)). split; [exact Hv|]. split; [reflexivity|].
  intros Ho. unfold metricFile_String. rewrite lines_render_all by assumption.
  split; [reflexivity|apply length_exposition].
Qed.

Lemma indexHandler_document_witness :
  exists ms,
    Forall (fun m => metric_Validate m = true) ms /\
    render_all [[]; []] (elems (Metrics file_a) ++ elems (Metrics file_b))
    = render_all [[]; []] ms /\
    (range_orders ms [[]; []] ->
     lines (render_all [[]; []] (elems (Metrics file_a) ++ elems (Metrics file_b)))
     = exposition [[]; []] ms /\
     length (lines (render_all [[]; []]
                      (elems (Metrics file_a) ++ elems (Metrics file_b))))
     = 3 * length ms).
Proof.
  apply (indexHandler_document memory example_config [[]; []] EmptyString
           (store_a_b example_config)).
  vm_compute. reflexivity.
Defined.

(** X13: on a store that hands back what was put, a submission that
    [metricHandler] answers with success is read back by [readMetricFile],
    under the name of the file, as the very file that was decoded from the
    body and validated. *)
Theorem metricHandler_read_back (P : Platform) (c : config)
    (req : Request P) (store store' : S3 P) (msg : string) :
  serves_what_was_put P c ->
  metricHandler P c req store = (Succeed msg, store') ->
  exists mf,
    json.Unmarshal (fst (DecodedBody P req)) zero_metricFile = (mf, None) /\
    forall client, readMetricFile P c client store' (FileName mf) = (mf, None).
Proof.
  intros Hlaw H.
  apply metricHandler_Succeed in H as (body & mf & cl & Hb & Hu & Hv & _ & Hp & _).
  exists mf. rewrite Hb. split; [exact Hu|]. intros client.
  apply (readMetricFile_of_body P c client store' (FileName mf)
           (fst (json.Marshal mf)) mf).
  - eapply Hlaw. exact Hp.
  - apply Unmarshal_Marshal.
    replace mf with (fst (json.Unmarshal body zero_metricFile))
      by (rewrite Hu; reflexivity).
    apply Unmarshal_wellformed, zero_metricFile_wellformed.
  - exact Hv.
Qed.

(** A body that repeats a member: the second array cuts the slice to one
    element and the third grows it again over the element left behind. *)
Lemma Unmarshal_repeated_metrics :
  json.Unmarshal repeated_metrics_body zero_metricFile
  = (mkMetricFile "f" (Some [mkMetric "a" "gauge" None "1";
                             mkMetric "b" "gauge" None "2"]), None).
Proof. vm_compute. reflexivity. Qed.

Lemma memory_serves_what_was_put c : serves_what_was_put memory c.
Proof.
  intros client store key body store' H client'. simpl in *.
  injection H as <-. rewrite lookup_insert_eq. reflexivity.
Qed.

Lemma metricHandler_read_back_witness :
  exists mf,
    json.Unmarshal repeated_metrics_body zero_metricFile = (mf, None) /\
    forall client,
      readMetricFile memory example_config client
        (snd (metricHandler memory example_config repeated_metrics_body ∅))
        (FileName mf)
      = (mf, None).
Proof.
  apply (metricHandler_read_back memory example_config
           repeated_metrics_body ∅ _ EmptyString).
  - apply memory_serves_what_was_put.
  - vm_compute. reflexivity.
Defined.

Section response_facts.

Context (P : Platform) (c : config).

Lemma skip_space_blank s :
  all_bytes json.isSpace s = true -> json.skip_space s = EmptyString.
Proof.
  induction s as [|x s IH]; [reflexivity|].
  rewrite all_bytes_cons. intros H. apply andb_prop in H as [Hx Hs].
  simpl. rewrite Hx. auto.
Qed.

Lemma Unmarshal_blank s mf :
  all_bytes json.isSpace s = true ->
  json.Unmarshal s mf = (mf, Some json.SyntaxError).
Proof.
  intros H. unfold json.Unmarshal, json.parse.
  rewrite skip_space_blank by assumption. reflexivity.
Qed.

End response_facts.

(** X15: a submission whose body is empty, or holds nothing but JSON white
    space, is answered as one that failed to unmarshal, and the store is as
    it was. *)
Theorem metricHandler_blank_body (P : Platform) (c : config)
    (req : Request P) (store : S3 P) :
  snd (DecodedBody P req) = None ->
  all_bytes json.isSpace (fst (DecodedBody P req)) = true ->
  exists e,
    metricHandler P c req store = (Fail ("failed to unmarshal: " +:+ e), store).
Proof.
  intros He Hb. unfold metricHandler.
  destruct (DecodedBody P req) as [body err]. simpl in He, Hb. subst err.
  rewrite Unmarshal_blank by assumption. eauto.
Qed.

Lemma metricHandler_blank_body_witness :
  exists e,
    metricHandler memory example_config EmptyString ∅
    = (Fail ("failed to unmarshal: " +:+ e), ∅).
Proof.
  apply (metricHandler_blank_body memory example_config EmptyString ∅);
    reflexivity.
Defined.

(** ** The exposition determines the metrics *)

Section reading_facts.

Lemma free_cons d c t : free d (String c t) = negb (Ascii.eqb c d) && free d t.
Proof. reflexivity. Qed.

(** Two texts cut at the first occurrence of a byte. *)
Lemma split_at d a : forall a' x x',
  free d a = true -> free d a' = true ->
  a +:+ String d x = a' +:+ String d x' -> a = a' /\ x = x'.
Proof.
  induction a as [|c a IH]; intros [|c' a'] x x' Ha Ha' E;
    rewrite ?append_cons, ?append_nil_l in E.
  - injection E as ->. auto.
  - injection E as <- _. rewrite free_cons, Ascii.eqb_refl in Ha'. discriminate.
  - injection E as -> _. rewrite free_cons, Ascii.eqb_refl in Ha. discriminate.
  - injection E as <- E. rewrite free_cons in Ha, Ha'.
    apply andb_prop in Ha as [_ Ha]. apply andb_prop in Ha' as [_ Ha'].
    destruct (IH a' x x' Ha Ha' E) as [-> ->]. auto.
Qed.

Lemma no_newline_free s : no_newline s = free NL s.
Proof.
  induction s as [|c s IH]; [reflexivity|].
  rewrite free_cons. simpl. rewrite IH. reflexivity.
Qed.

Lemma text_free d s :
  text_byte d = false -> regexp.MatchString textRegex s = true -> free d s = true.
Proof.
  intros Hd Hs. apply textRegex_only in Hs as [_ Hs].
  unfold free. eapply all_bytes_impl; [|exact Hs].
  intros x Hx. apply negb_true_iff, Ascii.eqb_neq. intros ->. congruence.
Qed.

Lemma text_head s :
  regexp.MatchString textRegex s = true ->
  exists x t, s = String x t /\ text_byte x = true.
Proof.
  intros Hs. apply textRegex_only in Hs as [Hne Hs].
  destruct s as [|x t]; [congruence|].
  rewrite all_bytes_cons in Hs. apply andb_prop in Hs as [Hx _]. eauto.
Qed.

Lemma Join_cons x rest sep :
  Join (x :: rest) sep
  = x +:+ match rest with [] => EmptyString | _ => sep +:+ Join rest sep end.
Proof.
  destruct rest; [rewrite append_nil_r|]; reflexivity.
Qed.

Lemma assignments_cons k v o x :
  Join (map tag_assignment ((k, v) :: o)) "," +:+ "}" +:+ x
  = k +:+ String "=" (String (ascii_of_nat 34)
      (v +:+ String (ascii_of_nat 34)
         match o with
         | [] => String "}" x
         | _ => String "," (Join (map tag_assignment o) "," +:+ "}" +:+ x)
         end)).
Proof.
  cbn [map]. rewrite Join_cons. unfold tag_assignment at 1. cbn [fst snd].
  unfold quote. destruct o as [|p o]; cbn [map];
    rewrite ?append_assoc, ?append_cons, ?append_nil_l; reflexivity.
Qed.

(** The assignments of a tag block, read back one by one up to the closing
    brace. *)
Lemma assignments_inj o1 : forall o2 x1 x2,
  Forall text_pair o1 -> Forall text_pair o2 ->
  Join (map tag_assignment o1) "," +:+ "}" +:+ x1
  = Join (map tag_assignment o2) "," +:+ "}" +:+ x2 ->
  o1 = o2 /\ x1 = x2.
Proof.
  induction o1 as [|[k1 v1] o1 IH]; intros [|[k2 v2] o2] x1 x2 H1 H2 E.
  - injection E as E. change (x1 = x2) in E. auto.
  - apply Forall_cons in H2 as [[Hk _] _]. simpl in Hk.
    apply text_head in Hk as (x & t & -> & Hx).
    rewrite assignments_cons, append_cons in E.
    change (Join (map tag_assignment []) "," +:+ "}" +:+ x1)
      with (String "}" x1) in E.
    injection E as <- _. discriminate.
  - apply Forall_cons in H1 as [[Hk _] _]. simpl in Hk.
    apply text_head in Hk as (x & t & -> & Hx).
    rewrite assignments_cons, append_cons in E.
    change (Join (map tag_assignment []) "," +:+ "}" +:+ x2)
      with (String "}" x2) in E.
    injection E as -> _. discriminate.
  - apply Forall_cons in H1 as [[Hk1 Hv1] H1].
    apply Forall_cons in H2 as [[Hk2 Hv2] H2]. simpl in Hk1, Hv1, Hk2, Hv2.
    rewrite !assignments_cons in E.
    apply split_at in E as [-> E]; [|apply text_free; [reflexivity|assumption]..].
    injection E as E.
    apply split_at in E as [-> E]; [|apply text_free; [reflexivity|assumption]..].
    destruct o1 as [|p1 o1], o2 as [|p2 o2].
    + injection E as ->. auto.
    + discriminate.
    + discriminate.
    + injection E as E.
      destruct (IH (p2 :: o2) x1 x2 H1 H2 E) as [-> ->]. auto.
Qed.

Lemma range_order_nil t order :
  range_order t order -> (size (entries t) =? 0)%nat = true -> order = [].
Proof.
  unfold range_order. intros Hp Hs. apply Nat.eqb_eq, map_size_empty_iff in Hs.
  rewrite Hs, map_to_list_empty in Hp. apply Permutation_nil_r in Hp. exact Hp.
Qed.

Lemma range_order_inj t1 t2 order :
  range_order t1 order -> range_order t2 order -> entries t1 = entries t2.
Proof.
  unfold range_order. intros H1 H2. apply map_to_list_inj.
  rewrite <- H1, <- H2. reflexivity.
Qed.

(** What [Validate] gives for the reading: the fields as the patterns have
    them and the tags of the visiting order as text. *)
Lemma metric_Validate_fields m order :
  metric_Validate m = true -> range_order (Tags m) order ->
  regexp.MatchString textRegex (Name m) = true /\
  regexp.MatchString textRegex (Type_ m) = true /\
  regexp.MatchString valueRegex (Value m) = true /\
  Forall text_pair order.
Proof.
  intros Hv Hord. rewrite <- (metric_Validate_in_order m order Hord) in Hv.
  unfold metric_Validate_in in Hv.
  destruct (regexp.MatchString textRegex (Name m)); [|discriminate].
  destruct (regexp.MatchString textRegex (Type_ m)); [|discriminate].
  destruct (regexp.MatchString valueRegex (Value m)); [|discriminate].
  cbn [negb] in Hv. apply validate_tags_Forall in Hv. auto.
Qed.

(** The stanzas of two validated metrics, each followed by more text. *)
Lemma metric_String_inj m1 m2 o1 o2 rest1 rest2 :
  metric_Validate m1 = true -> metric_Validate m2 = true ->
  range_order (Tags m1) o1 -> range_order (Tags m2) o2 ->
  metric_String o1 m1 +:+ rest1 = metric_String o2 m2 +:+ rest2 ->
  same_metric m1 m2 /\ o1 = o2 /\ rest1 = rest2.
Proof.
  intros V1 V2 R1 R2 E.
  destruct (metric_Validate_fields m1 o1 V1 R1) as (Hn1 & Ht1 & Hv1 & Ho1).
  destruct (metric_Validate_fields m2 o2 V2 R2) as (Hn2 & Ht2 & Hv2 & Ho2).
  unfold metric_String, newline in E.
  rewrite ?append_assoc, ?append_cons, ?append_nil_l in E.
  repeat (injection E as E).
  apply split_at in E as [En E]; [|apply text_free; [reflexivity|assumption]..].
  apply split_at in E as [Et E];
    [|rewrite <- no_newline_free; apply textRegex_no_newline; assumption..].
  rewrite En in E. apply append_inv_l in E.
  unfold metric_TagString in E.
  destruct (size (entries (Tags m1)) =? 0)%nat eqn:S1;
    destruct (size (entries (Tags m2)) =? 0)%nat eqn:S2;
    rewrite ?append_assoc, ?append_cons, ?append_nil_l in E;
    try discriminate.
  - injection E as E.
    apply split_at in E as [Ev E];
      [|rewrite <- no_newline_free; apply valueRegex_no_newline; assumption..].
    injection E as E.
    rewrite (range_order_nil _ _ R1 S1), (range_order_nil _ _ R2 S2).
    split; [|auto]. repeat split; try assumption.
    apply Nat.eqb_eq, map_size_empty_iff in S1, S2. congruence.
  - injection E as E.
    change (map (fun kv => fst kv +:+ "=" +:+ quote +:+ snd kv +:+ quote))
      with (map tag_assignment) in E.
    apply assignments_inj in E as [-> E]; [|assumption..].
    injection E as E.
    apply split_at in E as [Ev E];
      [|rewrite <- no_newline_free; apply valueRegex_no_newline; assumption..].
    injection E as E.
    split; [|auto]. repeat split; try assumption.
    eapply range_order_inj; eassumption.
Qed.

Lemma render_all_inj ms1 : forall ms2 orders1 orders2,
  Forall (fun m => metric_Validate m = true) ms1 ->
  Forall (fun m => metric_Validate m = true) ms2 ->
  range_orders ms1 orders1 -> range_orders ms2 orders2 ->
  render_all orders1 ms1 = render_all orders2 ms2 ->
  Forall2 same_metric ms1 ms2 /\ orders1 = orders2.
Proof.
  induction ms1 as [|m1 ms1 IH]; intros [|m2 ms2] os1 os2 V1 V2 R1 R2 E.
  - inversion R1; inversion R2; subst. auto.
  - inversion R2; subst. discriminate.
  - inversion R1; subst. discriminate.
  - inversion R1 as [|o1 ? os1' ? Ho1 R1']; subst.
    inversion R2 as [|o2 ? os2' ? Ho2 R2']; subst.
    apply Forall_cons in V1 as [Hm1 V1]. apply Forall_cons in V2 as [Hm2 V2].
    change (metric_String o1 m1 +:+ render_all os1' ms1
            = metric_String o2 m2 +:+ render_all os2' ms2) in E.
    apply metric_String_inj in E as (Hs & -> & E); [|assumption..].
    destruct (IH ms2 os1' os2' V1 V2 R1' R2' E) as [Hall ->].
    split; [constructor; assumption|reflexivity].
Qed.

End reading_facts.

(** X16: the rendering of a metric that passes [Validate] determines the
    metric: two validated metrics with the same rendering have the same
    name, type, value and tags, and the tags were visited in the same
    order. *)
Theorem metric_String_injective (m1 m2 : metric)
    (o1 o2 : list (string * string)) :
  metric_Validate m1 = true -> metric_Validate m2 = true ->
  range_order (Tags m1) o1 -> range_order (Tags m2) o2 ->
  metric_String o1 m1 = metric_String o2 m2 ->
  same_metric m1 m2 /\ o1 = o2.
Proof.
  intros V1 V2 R1 R2 E.
  destruct (metric_String_inj m1 m2 o1 o2 EmptyString EmptyString V1 V2 R1 R2)
    as (Hs & Ho & _); [|auto].
  rewrite !append_nil_r. exact E.
Qed.

Lemma metric_String_injective_witness :
  same_metric (mkMetric "up" "gauge" None "1")
              (mkMetric "up" "gauge" (Some ∅) "1") /\
  @nil (string * string) = [].
Proof.
  apply (metric_String_injective
           (mkMetric "up" "gauge" None "1") (mkMetric "up" "gauge" (Some ∅) "1")
           [] []).
  - reflexivity.
  - reflexivity.
  - unfold range_order. simpl. rewrite map_to_list_empty. reflexivity.
  - unfold range_order. simpl. rewrite map_to_list_empty. reflexivity.
  - reflexivity.
Defined.

(** X17: the rendering of a file that passes [Validate] determines its metrics:
    two validated files with the same rendering hold, one by one and in the
    same order, metrics with the same name, type, value and tags. *)
Theorem metricFile_String_injective (mf1 mf2 : metricFile)
    (orders1 orders2 : list (list (string * string))) :
  metricFile_Validate mf1 = true -> metricFile_Validate mf2 = true ->
  range_orders (elems (Metrics mf1)) orders1 ->
  range_orders (elems (Metrics mf2)) orders2 ->
  metricFile_String orders1 mf1 = metricFile_String orders2 mf2 ->
  Forall2 same_metric (elems (Metrics mf1)) (elems (Metrics mf2)).
Proof.
  intros V1 V2 R1 R2 E.
  apply metricFile_Validate_true in V1 as [_ V1].
  apply metricFile_Validate_true in V2 as [_ V2].
  destruct (render_all_inj _ _ _ _ V1 V2 R1 R2 E) as [H _]. exact H.
Qed.

Lemma metricFile_String_injective_witness :
  Forall2 same_metric (elems (Metrics file_a))
    (elems (Metrics (mkMetricFile "other" (Metrics file_a)))).
Proof.
  apply (metricFile_String_injective file_a
           (mkMetricFile "other" (Metrics file_a)) [[]] [[]]).
  - reflexivity.
  - reflexivity.
  - constructor; [|constructor]. unfold range_order. simpl.
    rewrite map_to_list_empty. reflexivity.
  - constructor; [|constructor]. unfold range_order. simpl.
    rewrite map_to_list_empty. reflexivity.
  - reflexivity.
Defined.

(** X18: when the AWS configuration cannot be loaded, [getClient] hands out the
    nil client with the error of the loader; the index answers that the
    client failed to load, whatever the store holds, and a submission is
    never answered with success and leaves the store as it was. *)
Theorem getClient_failure (P : Platform) (c : config) (e : string) :
  snd (LoadDefaultConfig P) = Some e ->
  getClient P = (nil_client P, Some e) /\
  (forall orders req store,
     indexHandler P c orders req store = Fail ("failed to load client: " +:+ e)) /\
  (forall req store,
     snd (metricHandler P c req store) = store /\
     exists msg, fst (metricHandler P c req store) = Fail msg).
Proof.
  intros He.
  assert (Hc : getClient P = (nil_client P, Some e)).
  { unfold getClient. destruct (LoadDefaultConfig P) as [cfg err].
    simpl in He. subst err. reflexivity. }
  split; [exact Hc|]. split.
  - intros orders req store. unfold indexHandler. rewrite Hc. reflexivity.
  - intros req store. unfold metricHandler. rewrite Hc.
    destruct (DecodedBody P req) as [body [e1|]]; [simpl; eauto|].
    destruct (json.Unmarshal body zero_metricFile) as [mf [e2|]]; [simpl; eauto|].
    destruct (metricFile_Validate mf); cbn [negb]; [|simpl; eauto].
    destruct (json.Marshal mf) as [content [e3|]]; simpl; eauto.
Qed.

Lemma getClient_failure_witness :
  getClient offline = (nil_client offline, Some "no credentials") /\
  (forall orders req store,
     indexHandler offline example_config orders req store
     = Fail ("failed to load client: " +:+ "no credentials")) /\
  (forall req store,
     snd (metricHandler offline example_config req store) = store /\
     exists msg, fst (metricHandler offline example_config req store) = Fail msg).
Proof.
  apply (getClient_failure offline example_config "no credentials").
  reflexivity.
Defined.
